(** * SVG clip-path generator: path normalisation

    A shallow embedding of the path normalisation engine of the
    svg-clip-path-generator application:

    - [calculateBounds] and [normalizePathTo01], the geometry-aware
      normaliser built on the [svgpath] library;
    - [shapeToPath], [circleToPath] and [normalizePathCoordinates], the
      shape converter and the regular-expression based normaliser of
      [App.vue].

    JavaScript numbers are modelled twice.  The first embedding
    computes on exact rationals extended with [NaN] and the two
    infinities; it carries the results that do not depend on rounding:
    the box, the guards of the normaliser, the kinds of the segments.
    The second, the module [Binary64], rounds the result of every
    operation to the nearest IEEE double, overflows to the infinities
    and underflows through the subnormal numbers; it carries the results
    on the values that the normalisers print.  The sign of zero is not
    represented.  The [svgpath] library is not part of the repository;
    its parser and printer are parameters of the development, and its
    coordinate transforms are modelled from the specification. *)

From Stdlib Require Import QArith Qabs Qround Qpower ZArith Lia Lqa.
From Stdlib Require Import List Bool Ascii String DecimalString Permutation.
Import ListNotations.

Local Open Scope Q_scope.

(** ** JavaScript numbers *)

Module JS.

Inductive number : Type :=
| NaN
| NInf
| Fin (q : Q)
| PInf.

Definition zero : number := Fin 0.
Definition one : number := Fin 1.

(** [x === y] on numbers: [NaN] differs from everything. *)
Definition strict_eq (x y : number) : bool :=
  match x, y with
  | Fin a, Fin b => Qeq_bool a b
  | PInf, PInf => true
  | NInf, NInf => true
  | _, _ => false
  end.

(** [Math.min(x, y)] and [Math.max(x, y)]; a call with more arguments
    is the left-nested application of the binary one. *)
Definition Math_min (x y : number) : number :=
  match x, y with
  | NaN, _ | _, NaN => NaN
  | NInf, _ | _, NInf => NInf
  | PInf, z | z, PInf => z
  | Fin a, Fin b => if Qle_bool a b then Fin a else Fin b
  end.

Definition Math_max (x y : number) : number :=
  match x, y with
  | NaN, _ | _, NaN => NaN
  | PInf, _ | _, PInf => PInf
  | NInf, z | z, NInf => z
  | Fin a, Fin b => if Qle_bool b a then Fin a else Fin b
  end.

(** Unary minus. *)
Definition neg (x : number) : number :=
  match x with
  | NaN => NaN
  | NInf => PInf
  | PInf => NInf
  | Fin a => Fin (- a)
  end.

(** [x + y]. *)
Definition add (x y : number) : number :=
  match x, y with
  | NaN, _ | _, NaN => NaN
  | PInf, NInf | NInf, PInf => NaN
  | PInf, _ | _, PInf => PInf
  | NInf, _ | _, NInf => NInf
  | Fin a, Fin b => Fin (a + b)
  end.

(** [x - y]. *)
Definition sub (x y : number) : number := add x (neg y).

(** The sign of a number, as an integer; [NaN] has none. *)
Definition sign (x : number) : option Z :=
  match x with
  | NaN => None
  | NInf => Some (-1)%Z
  | PInf => Some 1%Z
  | Fin a => Some (Z.sgn (Qnum a))
  end.

Definition signed_infinity (s : Z) : number :=
  if (s <? 0)%Z then NInf else PInf.

(** [x * y]: zero times an infinity is [NaN]. *)
Definition mul (x y : number) : number :=
  match x, y with
  | Fin a, Fin b => Fin (a * b)
  | _, _ =>
      match sign x, sign y with
      | Some sx, Some sy =>
          if (sx * sy =? 0)%Z then NaN else signed_infinity (sx * sy)
      | _, _ => NaN
      end
  end.

(** [x / y]: a finite non-zero number over zero is an infinity, zero
    over zero and an infinity over an infinity are [NaN]. *)
Definition div (x y : number) : number :=
  match x, y with
  | NaN, _ | _, NaN => NaN
  | Fin a, Fin b =>
      if Qeq_bool b 0
      then (if Qeq_bool a 0 then NaN else signed_infinity (Z.sgn (Qnum a)))
      else Fin (a / b)
  | Fin _, _ => Fin 0
  | _, Fin b =>
      match sign x with
      | Some sx => signed_infinity (if (Qnum b <? 0)%Z then - sx else sx)
      | None => NaN
      end
  | _, _ => NaN
  end.

(** [+x.toFixed(d)]: the multiple of [10^-d] nearest to [x], the one
    further from zero on a tie; numbers of magnitude [1e21] and more,
    [NaN] and the infinities are printed by [String] and read back
    unchanged. *)
Definition pow10 (d : nat) : Z := (10 ^ Z.of_nat d)%Z.

Definition toFixedQ (d : nat) (a : Q) : Q :=
  if Qle_bool (inject_Z (pow10 21)) (Qabs a) then a
  else
    let n := Qfloor (Qabs a * inject_Z (pow10 d) + (1 # 2)) in
    inject_Z (if Qle_bool 0 a then n else - n) / inject_Z (pow10 d).

Definition toFixed (d : nat) (x : number) : number :=
  match x with
  | Fin a => Fin (toFixedQ d a)
  | _ => x
  end.

(** Numeric equality of the values denoted, on finite numbers up to the
    representation of the rational. *)
Definition equiv (x y : number) : Prop :=
  match x, y with
  | Fin a, Fin b => a == b
  | NaN, NaN | NInf, NInf | PInf, PInf => True
  | _, _ => False
  end.

(** [isFinite(x)] and [x > 0]. *)
Definition isFinite (x : number) : bool :=
  match x with Fin _ => true | _ => false end.

Definition gt0 (x : number) : bool :=
  match x with
  | Fin a => negb (Qle_bool a 0)
  | PInf => true
  | _ => false
  end.

(** [y] is a finite number at distance [tol] at most from the finite
    number [x]. *)
Definition within (tol : Q) (x y : number) : Prop :=
  match x, y with
  | Fin a, Fin b => Qabs (b - a) <= tol
  | _, _ => False
  end.

(** [lo <= x <= hi] for a finite [x]. *)
Definition between (lo hi : Q) (x : number) : Prop :=
  match x with Fin a => lo <= a <= hi | _ => False end.

End JS.

Export JS.

Declare Scope js_scope.
Delimit Scope js_scope with js.
Bind Scope js_scope with number.
Infix "+" := JS.add : js_scope.
Infix "-" := JS.sub : js_scope.
Infix "*" := JS.mul : js_scope.
Infix "/" := JS.div : js_scope.
Notation "- x" := (JS.neg x) : js_scope.
Infix "===" := JS.strict_eq (at level 70, no associativity) : js_scope.
Infix "=~" := JS.equiv (at level 70, no associativity) : js_scope.
Coercion Fin : Q >-> number.

(** ** Path segments *)

(** A segment of an [svgpath] object is an array made of the command
    letter and its numeric parameters; the constructors below are the
    absolute commands, with parameters in the order of the array
    ([segment[1]], [segment[2]], ...).  After [abs()] every command of a
    path is one of these (a relative [z] becomes [Z]). *)
Module Cmd.
Inductive segment : Type :=
| M (x y : number)
| L (x y : number)
| H (x : number)
| V (y : number)
| C (x1 y1 x2 y2 x y : number)
| S (x2 y2 x y : number)
| Q (x1 y1 x y : number)
| T (x y : number)
| A (rx ry rotation large sweep x y : number)
| Z.
End Cmd.

Abbreviation segment := Cmd.segment.

Inductive kind : Type :=
| MoveTo | LineTo | HorizontalLineTo | VerticalLineTo | CubicCurve
| SmoothCubicCurve | QuadraticCurve | SmoothQuadraticCurve | Arc | ClosePath.

Definition kind_of (s : segment) : kind :=
  match s with
  | Cmd.M _ _ => MoveTo
  | Cmd.L _ _ => LineTo
  | Cmd.H _ => HorizontalLineTo
  | Cmd.V _ => VerticalLineTo
  | Cmd.C _ _ _ _ _ _ => CubicCurve
  | Cmd.S _ _ _ _ => SmoothCubicCurve
  | Cmd.Q _ _ _ _ => QuadraticCurve
  | Cmd.T _ _ => SmoothQuadraticCurve
  | Cmd.A _ _ _ _ _ _ _ => Arc
  | Cmd.Z => ClosePath
  end.

(** The x coordinates and the y coordinates a segment carries, control
    points first.  The radii, rotation and flags of an arc are not
    coordinates. *)
Definition xs_of (s : segment) : list number :=
  match s with
  | Cmd.M x _ | Cmd.L x _ | Cmd.T x _ => [x]
  | Cmd.H x => [x]
  | Cmd.V _ => []
  | Cmd.C x1 _ x2 _ x _ => [x1; x2; x]
  | Cmd.S x2 _ x _ => [x2; x]
  | Cmd.Q x1 _ x _ => [x1; x]
  | Cmd.A _ _ _ _ _ x _ => [x]
  | Cmd.Z => []
  end.

Definition ys_of (s : segment) : list number :=
  match s with
  | Cmd.M _ y | Cmd.L _ y | Cmd.T _ y => [y]
  | Cmd.H _ => []
  | Cmd.V y => [y]
  | Cmd.C _ y1 _ y2 _ y => [y1; y2; y]
  | Cmd.S _ y2 _ y => [y2; y]
  | Cmd.Q _ y1 _ y => [y1; y]
  | Cmd.A _ _ _ _ _ _ y => [y]
  | Cmd.Z => []
  end.

Definition xs (p : list segment) : list number := flat_map xs_of p.
Definition ys (p : list segment) : list number := flat_map ys_of p.

(** ** [calculateBounds] *)

Record Bounds : Type := mkBounds {
  minX : number;
  minY : number;
  maxX : number;
  maxY : number
}.

(** The local variables of [calculateBounds]: the box under
    construction and the current point. *)
Record walk : Type := mkWalk {
  box : Bounds;
  currentX : number;
  currentY : number
}.

Definition walk_start : walk :=
  mkWalk (mkBounds PInf PInf NInf NInf) zero zero.

(** One iteration of the [forEach] callback: the [switch] on the
    command letter. *)
Definition visit (w : walk) (s : segment) : walk :=
  let b := box w in
  match s with
  | Cmd.M x y | Cmd.L x y =>
      mkWalk (mkBounds (Math_min (minX b) x) (Math_min (minY b) y)
                       (Math_max (maxX b) x) (Math_max (maxY b) y))
             x y
  | Cmd.H x =>
      mkWalk (mkBounds (Math_min (minX b) x) (minY b)
                       (Math_max (maxX b) x) (maxY b))
             x (currentY w)
  | Cmd.V y =>
      mkWalk (mkBounds (minX b) (Math_min (minY b) y)
                       (maxX b) (Math_max (maxY b) y))
             (currentX w) y
  | Cmd.C x1 y1 x2 y2 x y =>
      mkWalk (mkBounds (Math_min (Math_min (Math_min (minX b) x1) x2) x)
                       (Math_min (Math_min (Math_min (minY b) y1) y2) y)
                       (Math_max (Math_max (Math_max (maxX b) x1) x2) x)
                       (Math_max (Math_max (Math_max (maxY b) y1) y2) y))
             x y
  | Cmd.S x1 y1 x y | Cmd.Q x1 y1 x y =>
      mkWalk (mkBounds (Math_min (Math_min (minX b) x1) x)
                       (Math_min (Math_min (minY b) y1) y)
                       (Math_max (Math_max (maxX b) x1) x)
                       (Math_max (Math_max (maxY b) y1) y))
             x y
  | Cmd.T x y =>
      mkWalk (mkBounds (Math_min (minX b) x) (Math_min (minY b) y)
                       (Math_max (maxX b) x) (Math_max (maxY b) y))
             x y
  | Cmd.A _ _ _ _ _ x y =>
      mkWalk (mkBounds (Math_min (minX b) x) (Math_min (minY b) y)
                       (Math_max (maxX b) x) (Math_max (maxY b) y))
             x y
  | Cmd.Z => w
  end.

Definition traverse (segments : list segment) : walk :=
  fold_left visit segments walk_start.

Definition calculateBounds (segments : list segment) : Bounds :=
  box (traverse segments).

Definition width (b : Bounds) : number := (maxX b - minX b)%js.
Definition height (b : Bounds) : number := (maxY b - minY b)%js.

(** ** Strings *)

(** A string is a sequence of code units below 256.  The white space
    of [String.prototype.trim] in that range: tab, line feed, vertical
    tab, form feed, carriage return, space and no-break space. *)
Definition isWhiteSpace (c : ascii) : bool :=
  let n := nat_of_ascii c in
  ((9 <=? n) && (n <=? 13) || (n =? 32) || (n =? 160))%nat.

Fixpoint trimStart (s : string) : string :=
  match s with
  | EmptyString => EmptyString
  | String c rest => if isWhiteSpace c then trimStart rest else s
  end.

Fixpoint reverse (s acc : string) : string :=
  match s with
  | EmptyString => acc
  | String c rest => reverse rest (String c acc)
  end.

Definition trimEnd (s : string) : string :=
  reverse (trimStart (reverse s EmptyString)) EmptyString.

Definition trim (s : string) : string := trimEnd (trimStart s).

Fixpoint whitespaceOnly (s : string) : bool :=
  match s with
  | EmptyString => true
  | String c rest => isWhiteSpace c && whitespaceOnly rest
  end.

(** ** Coordinate transforms of the path library *)

(** Apply [fx] to every x coordinate and [fy] to every y coordinate of
    a segment.  The radii, rotation and flags of an arc are carried
    through: [unarc()] has replaced every arc by curves before a
    transform is applied, so that case is not exercised by the
    normaliser. *)
Definition map_xy (fx fy : number -> number) (s : segment) : segment :=
  match s with
  | Cmd.M x y => Cmd.M (fx x) (fy y)
  | Cmd.L x y => Cmd.L (fx x) (fy y)
  | Cmd.H x => Cmd.H (fx x)
  | Cmd.V y => Cmd.V (fy y)
  | Cmd.C x1 y1 x2 y2 x y => Cmd.C (fx x1) (fy y1) (fx x2) (fy y2) (fx x) (fy y)
  | Cmd.S x2 y2 x y => Cmd.S (fx x2) (fy y2) (fx x) (fy y)
  | Cmd.Q x1 y1 x y => Cmd.Q (fx x1) (fy y1) (fx x) (fy y)
  | Cmd.T x y => Cmd.T (fx x) (fy y)
  | Cmd.A rx ry rot large sweep x y => Cmd.A rx ry rot large sweep (fx x) (fy y)
  | Cmd.Z => Cmd.Z
  end.

(** Modelled from the spec: [translate] is a method of the svgpath
    library, which is not under src/.  The specification (Data model,
    Transform) has a transform take every coordinate of every segment,
    control points included, to [x + tx] and [y + ty]. *)
Definition translate (tx ty : number) (p : list segment) : list segment :=
  map (map_xy (fun x => x + tx)%js (fun y => y + ty)%js) p.

(** Modelled from the spec: [scale] is a method of the svgpath library,
    which is not under src/.  The specification (Data model, Transform;
    Coordinate Normalizer) has a scaling, applied after the translation,
    take every coordinate of every segment to [x * sx] and [y * sy]. *)
Definition scale (sx sy : number) (p : list segment) : list segment :=
  map (map_xy (fun x => x * sx)%js (fun y => y * sy)%js) p.

(** Modelled from the spec: [round] is a method of the svgpath library,
    which is not under src/.  The specification (Coordinate Normalizer)
    has the final numeric values rounded to a fixed number of decimal
    digits. *)
Definition round (d : nat) (p : list segment) : list segment :=
  map (map_xy (toFixed d) (toFixed d)) p.

(** ** [normalizePathTo01] *)

Section Normalizer.

(** The two ends of the svgpath pipeline are parameters.
    [decompose s] stands for [svgpath(s).abs().unarc().unshort()] and
    yields the [segments] of the resulting path, or [None] when the
    library raises; [toString p] stands for the [toString()] of a
    path whose segments are [p]. *)
Variable decompose : string -> option (list segment).
Variable toString : list segment -> string.

Definition normalizePathTo01 (pathString : string) : string :=
  if (pathString =? "")%string || (trim pathString =? "")%string
  then pathString
  else
    match decompose pathString with
    | None => pathString
    | Some segments =>
        if (List.length segments =? 0)%nat then pathString
        else
          let bounds := calculateBounds segments in
          let width := (maxX bounds - minX bounds)%js in
          let height := (maxY bounds - minY bounds)%js in
          if (width === zero)%js && (height === zero)%js
          then "M0.5,0.5"%string
          else if (width === zero)%js
          then toString
                 (round 6
                    (translate (Fin (1 # 2)) zero
                       (scale one (one / height)%js
                          (translate (- minX bounds)%js (- minY bounds)%js
                             segments))))
          else if (height === zero)%js
          then toString
                 (round 6
                    (translate zero (Fin (1 # 2))
                       (scale (one / width)%js one
                          (translate (- minX bounds)%js (- minY bounds)%js
                             segments))))
          else toString
                 (round 6
                    (scale (one / width)%js (one / height)%js
                       (translate (- minX bounds)%js (- minY bounds)%js
                          segments)))
    end.

End Normalizer.

(** ** Numeric literals *)

Local Open Scope string_scope.

Definition isDigit (c : ascii) : bool :=
  let n := nat_of_ascii c in ((48 <=? n) && (n <=? 57))%nat.

(** The longest run of digits at the head of a string, and what
    follows it. *)
Fixpoint takeDigits (s : string) : string * string :=
  match s with
  | String c rest =>
      if isDigit c
      then let (ds, tl) := takeDigits rest in (String c ds, tl)
      else (EmptyString, s)
  | EmptyString => (EmptyString, EmptyString)
  end.

(** The value of a run of digits read in base ten. *)
Fixpoint digitsValue (acc : Z) (ds : string) : Z :=
  match ds with
  | EmptyString => acc
  | String c rest =>
      digitsValue (10 * acc + Z.of_nat (nat_of_ascii c - 48))%Z rest
  end.

Definition takeSign (s : string) : bool * string :=
  match s with
  | String "-" rest => (true, rest)
  | String "+" rest => (false, rest)
  | _ => (false, s)
  end.

(** An exponent part [e], [e+] or [e-] followed by digits. *)
Definition takeExponent (s : string) : Z * string :=
  match s with
  | String c rest =>
      if (c =? "e")%char || (c =? "E")%char
      then
        let (negative, rest1) := takeSign rest in
        let (ds, rest2) := takeDigits rest1 in
        if (String.length ds =? 0)%nat then (0%Z, s)
        else ((if negative then - digitsValue 0 ds else digitsValue 0 ds)%Z,
              rest2)
      else (0%Z, s)
  | EmptyString => (0%Z, s)
  end.

(** A decimal literal at the head of a string: sign, digits, fraction
    and exponent; its value and the rest of the string. *)
Definition readNumber (s : string) : option (Q * string) :=
  let (negative, s1) := takeSign s in
  let (int, s2) := takeDigits s1 in
  let (frac, s3) :=
    match s2 with
    | String "." rest => takeDigits rest
    | _ => (EmptyString, s2)
    end in
  if ((String.length int =? 0) && (String.length frac =? 0))%nat then None
  else
    let (e, s4) := takeExponent s3 in
    let mantissa :=
      (inject_Z (digitsValue (digitsValue 0 int) frac)
       / inject_Z (10 ^ Z.of_nat (String.length frac)))%Q in
    let magnitude := (mantissa * Qpower 10 e)%Q in
    Some (Qred (if negative then - magnitude else magnitude)%Q, s4).

(** [parseFloat(s)]: leading white space is skipped, the longest
    literal at the head is read, anything after it is ignored. *)
Definition parseFloat (s : string) : number :=
  let s := trimStart s in
  let (negative, s1) := takeSign s in
  if prefix "Infinity" s1 then (if negative then NInf else PInf)
  else
    match readNumber s with
    | Some (q, _) => Fin q
    | None => NaN
    end.

(** ** A reader and a printer of path data *)

(** Modelled from the spec: the parser and the printer of the svgpath
    library are not under src/; [readPath] and [printPath] stand in for
    them in the worked examples.  [readPath] reads path data that is
    already absolute and free of arcs and of shorthand curves, on which
    the Path Command Decomposer of the specification changes nothing,
    every command letter being written out.  Like the parser of the
    library it never raises: at the first thing it cannot read it
    stops and keeps the segments read in full before that point, and a
    path that does not start with a move-to is read as no segment at
    all.  [printPath] writes a path the way the specification shows
    path data: a command letter, coordinate pairs joined by a comma, a
    space between segments, numbers at six decimal digits without
    trailing zeros. *)
Module PathText.

Inductive token : Type :=
| TCmd (c : ascii)
| TNum (q : Q).

Definition isCommand (c : ascii) : bool :=
  existsb (Ascii.eqb c) ["M"; "L"; "H"; "V"; "C"; "Q"; "Z"]%char.

(** The tokens of a text, up to the first character that starts
    neither a command nor a number. *)
Fixpoint tokens (s : string) (skip : nat) : list token :=
  match s with
  | EmptyString => []
  | String c rest =>
      match skip with
      | Datatypes.S k => tokens rest k
      | O =>
          if isWhiteSpace c || (c =? ",")%char then tokens rest 0%nat
          else if isCommand c then TCmd c :: tokens rest 0%nat
          else
            match readNumber s with
            | Some (q, rest') =>
                TNum q
                :: tokens rest (String.length s - String.length rest' - 1)%nat
            | None => []
            end
      end
  end.

Definition build (c : ascii) (args : list Q) : option segment :=
  match args with
  | [] => if (c =? "Z")%char then Some Cmd.Z else None
  | [a] =>
      if (c =? "H")%char then Some (Cmd.H (Fin a))
      else if (c =? "V")%char then Some (Cmd.V (Fin a))
      else None
  | [a; b] =>
      if (c =? "M")%char then Some (Cmd.M (Fin a) (Fin b))
      else if (c =? "L")%char then Some (Cmd.L (Fin a) (Fin b))
      else None
  | [x1; y1; x; y] =>
      if (c =? "Q")%char then Some (Cmd.Q (Fin x1) (Fin y1) (Fin x) (Fin y))
      else None
  | [x1; y1; x2; y2; x; y] =>
      if (c =? "C")%char
      then Some (Cmd.C (Fin x1) (Fin y1) (Fin x2) (Fin y2) (Fin x) (Fin y))
      else None
  | _ => None
  end.

(** Group the tokens into segments: [pending] is the command being
    read, with its parameters so far in reverse.  A command that does
    not have the parameters it needs ends the reading: the segments
    before it are kept. *)
Fixpoint group (ts : list token) (pending : option (ascii * list Q))
  : list segment :=
  let flush (k : list segment) :=
    match pending with
    | None => k
    | Some (c, args) =>
        match build c (rev args) with
        | Some seg => seg :: k
        | None => []
        end
    end in
  match ts with
  | [] => flush []
  | TCmd c :: rest => flush (group rest (Some (c, [])))
  | TNum q :: rest =>
      match pending with
      | Some (c, args) => group rest (Some (c, q :: args))
      | None => []
      end
  end.

Definition startsWithMoveTo (p : list segment) : bool :=
  match p with
  | Cmd.M _ _ :: _ => true
  | _ => false
  end.

Definition readPath (s : string) : option (list segment) :=
  let p := group (tokens s 0) None in
  Some (if startsWithMoveTo p then p else []).

Definition digit (n : Z) : ascii := ascii_of_nat (48 + Z.to_nat n).

(** The last [k] digits of [n], then without the zeros at the end. *)
Fixpoint lastDigits (k : nat) (n : Z) : string :=
  match k with
  | O => EmptyString
  | Datatypes.S k' => lastDigits k' (n / 10) ++ String (digit (n mod 10)) EmptyString
  end.

Fixpoint dropZeros (k : nat) (n : Z) : nat * Z :=
  match k with
  | O => (O, n)
  | Datatypes.S k' => if (n mod 10 =? 0)%Z then dropZeros k' (n / 10) else (k, n)
  end.

Definition printNumber (x : number) : string :=
  match x with
  | NaN => "NaN"
  | PInf => "Infinity"
  | NInf => "-Infinity"
  | Fin a =>
      let n := Qfloor (Qabs a * inject_Z (pow10 6) + (1 # 2)) in
      let whole := NilZero.string_of_uint (N.to_uint (Z.to_N (n / pow10 6))) in
      let (k, f) := dropZeros 6 (n mod pow10 6) in
      (if Qle_bool 0 a || (n =? 0)%Z then "" else "-")
      ++ whole ++ (if (k =? 0)%nat then "" else "." ++ lastDigits k f)
  end.

Definition printPair (x y : number) : string :=
  printNumber x ++ "," ++ printNumber y.

Definition printSegment (s : segment) : string :=
  match s with
  | Cmd.M x y => "M" ++ printPair x y
  | Cmd.L x y => "L" ++ printPair x y
  | Cmd.H x => "H" ++ printNumber x
  | Cmd.V y => "V" ++ printNumber y
  | Cmd.C x1 y1 x2 y2 x y =>
      "C" ++ printPair x1 y1 ++ " " ++ printPair x2 y2 ++ " " ++ printPair x y
  | Cmd.S x2 y2 x y => "S" ++ printPair x2 y2 ++ " " ++ printPair x y
  | Cmd.Q x1 y1 x y => "Q" ++ printPair x1 y1 ++ " " ++ printPair x y
  | Cmd.T x y => "T" ++ printPair x y
  | Cmd.A rx ry rot large sweep x y =>
      "A" ++ printPair rx ry ++ " " ++ printNumber rot ++ " "
      ++ printPair large sweep ++ " " ++ printPair x y
  | Cmd.Z => "Z"
  end.

Definition printPath (p : list segment) : string :=
  String.concat " " (map printSegment p).

End PathText.

(** ** The normaliser of [App.vue]: [normalizePathCoordinates] *)

(** [s.substring(from, to)] and [s.substring(from)]: indices are
    clamped to the string and swapped when out of order. *)
Definition clampIndex (s : string) (i : Z) : nat :=
  Nat.min (Z.to_nat i) (String.length s).

Definition substring2 (from to : Z) (s : string) : string :=
  let a := clampIndex s from in
  let b := clampIndex s to in
  String.substring (Nat.min a b) (Nat.max a b - Nat.min a b) s.

Definition substringFrom (from : Z) (s : string) : string :=
  substring2 from (Z.of_nat (String.length s)) s.

(** The regular expression [-?\d+\.?\d*] tried at the head of a
    string: the text matched, if any. *)
Definition matchNumber (s : string) : option string :=
  let (minus, s1) :=
    match s with
    | String "-" rest => ("-", rest)
    | _ => ("", s)
    end in
  let (int, s2) := takeDigits s1 in
  if (String.length int =? 0)%nat then None
  else
    let (dot, s3) :=
      match s2 with
      | String "." rest => (".", rest)
      | _ => ("", s2)
      end in
    let (frac, _) := takeDigits s3 in
    Some (minus ++ int ++ dot ++ frac).

Record position : Type := mkPosition { start : nat; stop : nat }.

(** The [while] loop over [numberRegex.exec]: every match of the
    expression from left to right, each search resuming where the
    previous match stopped.  [index] is the index of the head of [s] in
    the whole string and [skip] the number of characters of [s] still
    inside the previous match. *)
Fixpoint execAll (s : string) (index skip : nat) : list (string * position) :=
  match s with
  | EmptyString => []
  | String _ rest =>
      match skip with
      | Datatypes.S k => execAll rest (index + 1)%nat k
      | O =>
          match matchNumber s with
          | Some text =>
              (text, mkPosition index (index + String.length text))
              :: execAll rest (index + 1)%nat (String.length text - 1)%nat
          | None => execAll rest (index + 1)%nat 0%nat
          end
      end
  end.

(** [l.filter((_, i) => i % 2 === 0)] and [l.filter((_, i) => i % 2 === 1)]. *)
Fixpoint evenIndexed {A : Type} (l : list A) : list A :=
  match l with
  | [] => []
  | x :: tl => x :: match tl with [] => [] | _ :: tl' => evenIndexed tl' end
  end.

Definition oddIndexed {A : Type} (l : list A) : list A := evenIndexed (tl l).

(** [Math.min(...l)] and [Math.max(...l)]. *)
Definition Math_min_of (l : list number) : number := fold_left Math_min l PInf.
Definition Math_max_of (l : list number) : number := fold_left Math_max l NInf.

Section Legacy.

(** The conversion of a number to a string by the language
    ([String(x)], template literals), a parameter of the model. *)
Variable numberToString : number -> string.

(** [x.toFixed(d)] as a string. *)
Definition toFixedString (d : nat) (x : number) : string :=
  match x with
  | Fin a =>
      if Qle_bool (inject_Z (pow10 21)) (Qabs a) then numberToString x
      else
        let n := Qfloor (Qabs a * inject_Z (pow10 d) + (1 # 2)) in
        (if Qle_bool 0 a then "" else "-")
        ++ NilZero.string_of_uint (N.to_uint (Z.to_N (n / pow10 d)))
        ++ (if (d =? 0)%nat then ""
            else "." ++ PathText.lastDigits d (n mod pow10 d))
  | _ => numberToString x
  end.

(** The callback of [numbers.map]: the quotient that is printed for
    the number at [index]. *)
Definition normalizedValue (minX width minY height : number)
           (index : nat) (num : number) : number :=
  if Nat.even index then ((num - minX) / width)%js
  else ((num - minY) / height)%js.

Fixpoint normalizeFrom (minX width minY height : number)
         (index : nat) (numbers : list number) : list string :=
  match numbers with
  | [] => []
  | num :: rest =>
      toFixedString 6 (normalizedValue minX width minY height index num)
      :: normalizeFrom minX width minY height (Datatypes.S index) rest
  end.

(** The callback of [positions.forEach]: put [newValue] in place of
    the text at [pos], shifted by the [offset] accumulated so far. *)
Definition replaceAt (pathString : string) (state : string * Z)
           (item : position * string) : string * Z :=
  let (result, offset) := state in
  let (pos, newValue) := item in
  let oldValue :=
    substring2 (Z.of_nat (start pos)) (Z.of_nat (stop pos)) pathString in
  let before := substring2 0 (Z.of_nat (start pos) + offset) result in
  let after := substringFrom (Z.of_nat (stop pos) + offset) result in
  (before ++ newValue ++ after,
   (offset + (Z.of_nat (String.length newValue)
              - Z.of_nat (String.length oldValue)))%Z).

Definition normalizePathCoordinates (pathString : string) : string :=
  let matches := execAll pathString 0 0 in
  let numbers := map (fun m => parseFloat (fst m)) matches in
  let positions := map snd matches in
  if (List.length numbers =? 0)%nat then pathString
  else
    let xCoords := evenIndexed numbers in
    let yCoords := oddIndexed numbers in
    let minX := Math_min_of xCoords in
    let maxX := Math_max_of xCoords in
    let minY := Math_min_of yCoords in
    let maxY := Math_max_of yCoords in
    let width := (maxX - minX)%js in
    let height := (maxY - minY)%js in
    if (width === zero)%js || (height === zero)%js then pathString
    else
      let normalizedNumbers := normalizeFrom minX width minY height 0 numbers in
      fst (fold_left (replaceAt pathString)
                     (combine positions normalizedNumbers)
                     (pathString, 0%Z)).

End Legacy.

(** ** The shape converter of [App.vue]: [shapeToPath] *)

(** An element as the converter sees it: its tag name and its
    attributes, [getAttribute] answering [None] for [null]. *)
Record element : Type := mkElement {
  tagName : string;
  getAttribute : string -> option string
}.

(** The result of a call that may raise. *)
Inductive completion (A : Type) : Type :=
| Return (a : A)
| Throw.
Arguments Return {A} a.
Arguments Throw {A}.

(** [c.toLowerCase()] on one code unit below 256. *)
Definition lowerChar (c : ascii) : ascii :=
  let n := nat_of_ascii c in
  if ((65 <=? n) && (n <=? 90)
      || (192 <=? n) && (n <=? 222) && negb (n =? 215))%nat
  then ascii_of_nat (n + 32) else c.

Fixpoint toLowerCase (s : string) : string :=
  match s with
  | EmptyString => EmptyString
  | String c rest => String (lowerChar c) (toLowerCase rest)
  end.

(** [s.split(/[\s,]+/)]: the pieces between runs of white space and
    commas.  [piece] is the piece being read, in reverse, and
    [inSeparator] tells whether the previous character was a
    separator. *)
Fixpoint splitPoints (s : string) (piece : string) (inSeparator : bool)
  : list string :=
  match s with
  | EmptyString => [reverse piece EmptyString]
  | String c rest =>
      if isWhiteSpace c || (c =? ",")%char
      then
        if inSeparator then splitPoints rest piece true
        else reverse piece EmptyString :: splitPoints rest EmptyString true
      else splitPoints rest (String c piece) false
  end.

Section Shapes.

Variable numberToString : number -> string.
Local Abbreviation str := numberToString.

(** [parseFloat(element.getAttribute(name) || 0)]: a missing or empty
    attribute gives way to the number 0, which [parseFloat] reads back
    from its text. *)
Definition numericAttribute (e : element) (name : string) : number :=
  match getAttribute e name with
  | Some text =>
      if (String.length text =? 0)%nat then parseFloat "0"
      else parseFloat text
  | None => parseFloat "0"
  end.

Definition circleToPath (cx cy r : number) : string :=
  "M" ++ str (cx - r)%js ++ "," ++ str cy
  ++ " A" ++ str r ++ "," ++ str r ++ " 0 1,0 "
  ++ str (cx + r)%js ++ "," ++ str cy
  ++ " A" ++ str r ++ "," ++ str r ++ " 0 1,0 "
  ++ str (cx - r)%js ++ "," ++ str cy ++ " Z".

Definition ellipseToPath (cx cy rx ry : number) : string :=
  "M" ++ str (cx - rx)%js ++ "," ++ str cy
  ++ " A" ++ str rx ++ "," ++ str ry ++ " 0 1,0 "
  ++ str (cx + rx)%js ++ "," ++ str cy
  ++ " A" ++ str rx ++ "," ++ str ry ++ " 0 1,0 "
  ++ str (cx - rx)%js ++ "," ++ str cy ++ " Z".

(** The text of the rectangle case of [shapeToPath]. *)
Definition rectPath (x y width height : number) : string :=
  "M" ++ str x ++ "," ++ str y
  ++ " L" ++ str (x + width)%js ++ "," ++ str y
  ++ " L" ++ str (x + width)%js ++ "," ++ str (y + height)%js
  ++ " L" ++ str x ++ "," ++ str (y + height)%js ++ " Z".

(** [points[i]] inside a template literal: a missing element prints
    as [undefined]. *)
Definition pointAt (points : list string) (i : nat) : string :=
  nth i points "undefined".

(** The [for] loop of the polygon case, from index [i]; [rest] is
    [points] from that index on. *)
Fixpoint lineTos (rest : list string) : string :=
  match rest with
  | [] => ""
  | px :: tl =>
      " L" ++ px ++ "," ++ pointAt tl 0
      ++ match tl with [] => "" | _ :: tl' => lineTos tl' end
  end.

Definition shapeToPath (e : element) : completion (option string) :=
  let tag := toLowerCase (tagName e) in
  if (tag =? "path")%string then Return (getAttribute e "d")
  else if (tag =? "circle")%string then
    Return (Some (circleToPath (numericAttribute e "cx")
                               (numericAttribute e "cy")
                               (numericAttribute e "r")))
  else if (tag =? "rect")%string then
    Return (Some (rectPath (numericAttribute e "x") (numericAttribute e "y")
                           (numericAttribute e "width")
                           (numericAttribute e "height")))
  else if (tag =? "ellipse")%string then
    Return (Some (ellipseToPath (numericAttribute e "cx")
                                (numericAttribute e "cy")
                                (numericAttribute e "rx")
                                (numericAttribute e "ry")))
  else if (tag =? "polygon")%string || (tag =? "polyline")%string then
    match getAttribute e "points" with
    | None => Throw
    | Some text =>
        let points := splitPoints (trim text) EmptyString false in
        let path :=
          "M" ++ pointAt points 0 ++ "," ++ pointAt points 1
          ++ lineTos (skipn 2 points) in
        Return (Some (if (tag =? "polygon")%string then path ++ " Z" else path))
    end
  else Return None.

End Shapes.

(** ** Notions used to state the properties *)

(** The current point of [calculateBounds] after a walk. *)
Definition currentPoint (w : walk) : number * number :=
  (currentX w, currentY w).

(** The final coordinate pair of a segment drawn from the point [from]:
    its end point, a horizontal or vertical line keeping the other
    coordinate of [from], and a close-path staying where it is. *)
Definition finalPoint (from : number * number) (s : segment)
  : number * number :=
  match s with
  | Cmd.M x y | Cmd.L x y | Cmd.T x y => (x, y)
  | Cmd.H x => (x, snd from)
  | Cmd.V y => (fst from, y)
  | Cmd.C _ _ _ _ x y => (x, y)
  | Cmd.S _ _ x y | Cmd.Q _ _ x y => (x, y)
  | Cmd.A _ _ _ _ _ x y => (x, y)
  | Cmd.Z => from
  end.

(** The current point as the specification words it: every segment
    moves it to its final coordinate pair, and a close-path returns it
    to the coordinate of the most recent move-to.  The state is the
    current point and the start of the current subpath. *)
Definition specStep (st : (number * number) * (number * number))
           (s : segment) : (number * number) * (number * number) :=
  let (current, subpathStart) := st in
  match s with
  | Cmd.M x y => ((x, y), (x, y))
  | Cmd.Z => (subpathStart, subpathStart)
  | _ => (finalPoint current s, subpathStart)
  end.

Definition specCurrentPoint (p : list segment) : number * number :=
  fst (fold_left specStep p ((zero, zero), (zero, zero))).

(** The coordinate map of [normalizePathTo01]: [toUnit] takes the
    extent that starts at [lo] onto the unit interval. *)
Definition toUnit (lo extent : number) (v : number) : number :=
  toFixed 6 ((v - lo) * (one / extent))%js.

(** Normalisation keeps the kinds of the segments of [s], in order:
    the text returned is the printed form of a path with as many
    segments as the decomposition of [s], of the same kinds. *)
Definition keepsKinds (decompose : string -> option (list segment))
           (toString : list segment -> string) (s : string) : Prop :=
  forall p, decompose s = Some p ->
    exists out,
      normalizePathTo01 decompose toString s = toString out /\
      map kind_of out = map kind_of p.

(** The extent of a list of numbers: its least and its greatest
    element. *)
Record extent (l : list number) (lo hi : Q) : Prop := mkExtent {
  extent_min : Math_min_of l = Fin lo;
  extent_max : Math_max_of l = Fin hi;
  extent_lo_in : In (Fin lo) l;
  extent_hi_in : In (Fin hi) l;
  extent_bounds : forall q, In (Fin q) l -> lo <= q <= hi
}.

(** Half a unit of the sixth decimal digit. *)
Definition tolerance : Q := 1 # 2000000.

(** The box that [normalizePathCoordinates] computes from the numbers
    of a string, numbers at even indices read as x and numbers at odd
    indices as y. *)
Definition boxOfNumbers (numbers : list number) : Bounds :=
  mkBounds (Math_min_of (evenIndexed numbers)) (Math_min_of (oddIndexed numbers))
           (Math_max_of (evenIndexed numbers)) (Math_max_of (oddIndexed numbers)).

(** The segments written by the rectangle case of [shapeToPath] and by
    [circleToPath], read command by command before any arc is
    expanded. *)
Definition rectSegments (x y w h : number) : list segment :=
  [Cmd.M x y; Cmd.L (x + w)%js y; Cmd.L (x + w)%js (y + h)%js;
   Cmd.L x (y + h)%js; Cmd.Z].

Definition circleSegments (cx cy r : number) : list segment :=
  [Cmd.M (cx - r)%js cy;
   Cmd.A r r zero one zero (cx + r)%js cy;
   Cmd.A r r zero one zero (cx - r)%js cy;
   Cmd.Z].

(** An element given by the list of its attributes. *)
Definition elementOf (tag : string) (attributes : list (string * string))
  : element :=
  mkElement tag
    (fun name =>
       option_map snd
         (find (fun a => (fst a =? name)%string) attributes)).

(** Paths of the worked examples. *)
Definition rectangle : list segment :=
  [Cmd.M (Fin 10) (Fin 10); Cmd.L (Fin 110) (Fin 10);
   Cmd.L (Fin 110) (Fin 60); Cmd.L (Fin 10) (Fin 60); Cmd.Z].

Definition unitTriangle : list segment :=
  [Cmd.M (Fin 0) (Fin 0); Cmd.L (Fin 1) (Fin (1 # 4));
   Cmd.L (Fin (1 # 2)) (Fin 1); Cmd.Z].

(** Two boxes with the same four numbers, and the least box around two
    boxes, computed the way [calculateBounds] folds a coordinate. *)
Definition sameBox (b1 b2 : Bounds) : Prop :=
  (minX b1 =~ minX b2)%js /\ (minY b1 =~ minY b2)%js /\
  (maxX b1 =~ maxX b2)%js /\ (maxY b1 =~ maxY b2)%js.

Definition unionBox (b1 b2 : Bounds) : Bounds :=
  mkBounds (Math_min (minX b1) (minX b2)) (Math_min (minY b1) (minY b2))
           (Math_max (maxX b1) (maxX b2)) (Math_max (maxY b1) (maxY b2)).

(** Every coordinate of the path is a finite number. *)
Definition finitePath (p : list segment) : bool :=
  forallb isFinite (xs p) && forallb isFinite (ys p).

(** Matches listed from left to right without overlap: each starts at
    or after [from], is not empty, and the next one starts at or after
    its end. *)
Fixpoint ordered (from : nat) (l : list (string * position)) : Prop :=
  match l with
  | [] => True
  | (_, pos) :: rest =>
      (from <= start pos)%nat /\ (start pos < stop pos)%nat /\
      ordered (stop pos) rest
  end.

(** A string without white space and without comma, and the text of
    the line-to of one coordinate pair of a polygon. *)
Fixpoint separatorFree (s : string) : bool :=
  match s with
  | EmptyString => true
  | String c rest =>
      negb (isWhiteSpace c || (c =? ",")%char) && separatorFree rest
  end.

Definition lineToText (pair : string * string) : string :=
  " L" ++ fst pair ++ "," ++ snd pair.

Definition flattenPairs (pairs : list (string * string)) : list string :=
  flat_map (fun pair => [fst pair; snd pair]) pairs.

(** A string without its white space and commas. *)
Fixpoint dropSeparators (s : string) : string :=
  match s with
  | EmptyString => EmptyString
  | String c rest =>
      if isWhiteSpace c || (c =? ",")%char then dropSeparators rest
      else String c (dropSeparators rest)
  end.

(** ** [prettifySVG] *)

Definition lineFeed : string := String (ascii_of_nat 10) EmptyString.

(** Insert [ins] after the first [>] of [s]. *)
Fixpoint afterFirstGt (ins s : string) : option string :=
  match s with
  | EmptyString => None
  | String c rest =>
      if (c =? ">")%char then Some (String c (ins ++ rest))
      else option_map (String c) (afterFirstGt ins rest)
  end.

(** [s.replace(/(tag[^>]*>)/, '$1' + ins)] for a literal [tag] without
    [>]: the first place where [tag] is followed, after any characters
    other than [>], by a [>], gets [ins] after that [>]. *)
Fixpoint insertAfterOpenTag (tag ins s : string) : string :=
  match s with
  | EmptyString => EmptyString
  | String c rest =>
      if prefix tag s
      then match afterFirstGt ins s with
           | Some s' => s'
           | None => s
           end
      else String c (insertAfterOpenTag tag ins rest)
  end.

(** [s.replace(/lit/, ins + lit)] for a literal [lit]: its first
    occurrence gets [ins] in front. *)
Fixpoint insertBefore (lit ins s : string) : string :=
  match s with
  | EmptyString => EmptyString
  | String c rest =>
      if prefix lit s then ins ++ s
      else String c (insertBefore lit ins rest)
  end.

(** The length of the text up to the first [>], when a [/] comes just
    before that [>]. *)
Fixpoint selfClosingEnd (s : string) (afterSlash : bool) : option nat :=
  match s with
  | EmptyString => None
  | String c rest =>
      if (c =? ">")%char then (if afterSlash then Some 1%nat else None)
      else option_map Datatypes.S (selfClosingEnd rest (c =? "/")%char)
  end.

(** The expression [(<path[^>]*\/>)] tried at the head of a string:
    the length of the match. *)
Definition pathTagLength (s : string) : option nat :=
  if prefix "<path" s then selfClosingEnd s false else None.

(** [s.replace(/(<path[^>]*\/>)/g, '$1' + ins)], and the same without
    the [g] flag when [all] is false.  [pending] counts the characters
    of the current match still to be copied, [enabled] tells whether a
    match may still start. *)
Fixpoint insertAfterPathTags (all : bool) (ins s : string)
         (pending : nat) (enabled : bool) : string :=
  match s with
  | EmptyString => EmptyString
  | String c rest =>
      let left :=
        match pending with
        | O => if enabled
               then match pathTagLength s with Some n => n | None => O end
               else O
        | _ => pending
        end in
      match left with
      | O => String c (insertAfterPathTags all ins rest 0 enabled)
      | Datatypes.S O =>
          String c (ins ++ insertAfterPathTags all ins rest 0 (enabled && all))
      | Datatypes.S left' =>
          String c (insertAfterPathTags all ins rest left' (enabled && all))
      end
  end.

Definition isLineTerminator (c : ascii) : bool :=
  let n := nat_of_ascii c in ((n =? 10) || (n =? 13))%nat.

(** The expression [\s*[\r\n]] tried at the head of a string: the
    length of the match, the white space up to its last line
    terminator, or 0 when there is none. *)
Fixpoint blankRun (s : string) : nat :=
  match s with
  | EmptyString => O
  | String c rest =>
      if isWhiteSpace c
      then match blankRun rest with
           | O => if isLineTerminator c then 1%nat else O
           | Datatypes.S n => Datatypes.S (Datatypes.S n)
           end
      else O
  end.

(** [s.replace(/^\s*[\r\n]/gm, '')]: at the start of the string and
    after every line terminator, the white space up to the last line
    terminator that it holds is removed.  [lineStart] tells whether the
    previous character is a line terminator, [drop] counts the
    characters of the current match still to be removed. *)
Fixpoint removeBlankLines (s : string) (lineStart : bool) (drop : nat)
  : string :=
  match s with
  | EmptyString => EmptyString
  | String c rest =>
      match drop with
      | Datatypes.S k => removeBlankLines rest (isLineTerminator c) k
      | O =>
          if lineStart
          then match blankRun s with
               | O => String c (removeBlankLines rest (isLineTerminator c) 0)
               | Datatypes.S n => removeBlankLines rest (isLineTerminator c) n
               end
          else String c (removeBlankLines rest (isLineTerminator c) 0)
      end
  end.

(** [prettifySVG] of the svgpath-based component. *)
Definition prettifySVG (svgString : string) : string :=
  removeBlankLines
    (insertBefore "</svg>" lineFeed
       (insertBefore "</clipPath>" (lineFeed ++ "  ")
          (insertAfterPathTags true (lineFeed ++ "    ")
             (insertAfterOpenTag "<clipPath" (lineFeed ++ "    ")
                (insertAfterOpenTag "<svg" (lineFeed ++ "  ") svgString))
             0 true)))
    true 0.

(** A string without its white space. *)
Fixpoint stripWhiteSpace (s : string) : string :=
  match s with
  | EmptyString => EmptyString
  | String c rest =>
      if isWhiteSpace c then stripWhiteSpace rest
      else String c (stripWhiteSpace rest)
  end.

(** The first [n] characters of [s], as far as it goes, are white
    space. *)
Fixpoint whitePrefix (n : nat) (s : string) : bool :=
  match n, s with
  | Datatypes.S k, String c rest => isWhiteSpace c && whitePrefix k rest
  | _, _ => true
  end.

(** ** The document and [convertToNormalizedClipPath] *)

(** A node of the parsed document: an element, with its tag name, its
    attributes in order and its children, or any other node (text,
    comment), which the converter never looks into.  Elements carry no
    namespace prefix, so that a selector and [tagName] see the same
    name. *)
#[local] Set Warnings "-register-all".

Inductive node : Type :=
| Elem (name : string) (attributes : list (string * string))
       (children : list node)
| Leaf (text : string).

Definition childrenOf (n : node) : list node :=
  match n with
  | Elem _ _ children => children
  | Leaf _ => []
  end.

Definition attributesOf (n : node) : list (string * string) :=
  match n with
  | Elem _ attributes _ => attributes
  | Leaf _ => []
  end.

Definition named (name : string) (n : node) : bool :=
  match n with
  | Elem name' _ _ => (name' =? name)%string
  | Leaf _ => false
  end.

(** The element [n] and the elements below it, in document order. *)
Fixpoint elements (n : node) : list node :=
  match n with
  | Elem _ _ children => n :: flat_map elements children
  | Leaf _ => []
  end.

(** [n.querySelectorAll(selector)] for a list of tag names: the
    elements below [n] with one of these names, in document order;
    [n.querySelector(name)] is the first of them. *)
Definition querySelectorAll (names : list string) (n : node) : list node :=
  filter (fun e => existsb (fun name => named name e) names)
         (flat_map elements (childrenOf n)).

Definition querySelector (name : string) (n : node) : option node :=
  hd_error (querySelectorAll [name] n).

(** [e.getAttribute(name)], [e.setAttribute(name, value)] and
    [e.removeAttribute(name)] on the list of attributes. *)
Definition lookup (name : string) (attributes : list (string * string))
  : option string :=
  option_map snd (find (fun a => (fst a =? name)%string) attributes).

Fixpoint setAttribute (name value : string)
         (attributes : list (string * string)) : list (string * string) :=
  match attributes with
  | [] => [(name, value)]
  | (k, v) :: rest =>
      if (k =? name)%string then (k, value) :: rest
      else (k, v) :: setAttribute name value rest
  end.

Definition removeAttribute (name : string)
           (attributes : list (string * string)) : list (string * string) :=
  filter (fun a => negb (fst a =? name)%string) attributes.

(** The element as [shapeToPath] reads it. *)
Definition asElement (n : node) : element :=
  match n with
  | Elem name attributes _ => mkElement name (fun k => lookup k attributes)
  | Leaf _ => mkElement EmptyString (fun _ => None)
  end.

Section FirstMatch.

Variable A : Type.
Variable change : A -> option A.

(** Change the first element of a list that can be changed. *)
Fixpoint changeFirst (l : list A) : option (list A) :=
  match l with
  | [] => None
  | x :: rest =>
      match change x with
      | Some x' => Some (x' :: rest)
      | None => option_map (cons x) (changeFirst rest)
      end
  end.

End FirstMatch.
Arguments changeFirst {A} change l.

(** Apply [f] to the first element named [name] at or below [n], in
    document order; [None] when there is none. *)
Fixpoint updateFirst (name : string) (f : node -> node) (n : node)
  : option node :=
  match n with
  | Elem name' attributes children =>
      if (name' =? name)%string then Some (f n)
      else option_map (Elem name' attributes)
                      (changeFirst (updateFirst name f) children)
  | Leaf _ => None
  end.

(** The nodes left of [n] once every element for which [gone] holds is
    removed from its parent, with all that is below it. *)
Fixpoint prune (gone : node -> bool) (n : node) : list node :=
  match n with
  | Elem name attributes children =>
      if gone n then []
      else [Elem name attributes (flat_map (prune gone) children)]
  | Leaf _ => [n]
  end.

(** A value handed back for a [null] attribute is [null] itself, which
    [setAttribute] writes as the text [null]. *)
Definition onAttribute (normalise : string -> string) (d : option string)
  : string :=
  match d with
  | Some text => normalise text
  | None => "null"
  end.

(** A value that counts as true in a condition: neither [null] nor the
    empty string. *)
Definition truthy (d : option string) : list string :=
  match d with
  | Some text => if (String.length text =? 0)%nat then [] else [text]
  | None => []
  end.

Definition newPath (d : string) : node := Elem "path" [("d", d)] [].

Definition objectBoundingBox : string * string :=
  ("clipPathUnits", "objectBoundingBox").

(** The result of a conversion: a value, or the message of the
    [Error] raised, or the [TypeError] of a call on [null]. *)
Inductive result (A : Type) : Type :=
| Done (a : A)
| Failed (message : string)
| TypeError.
Arguments Done {A} a.
Arguments Failed {A} message.
Arguments TypeError {A}.

(** The number of white-space characters at the head of a string, and
    a string without its first [n] characters. *)
Fixpoint whiteRun (s : string) : nat :=
  match s with
  | String c rest => if isWhiteSpace c then Datatypes.S (whiteRun rest) else O
  | EmptyString => O
  end.

Fixpoint dropChars (n : nat) (s : string) : string :=
  match n, s with
  | Datatypes.S k, String _ rest => dropChars k rest
  | _, _ => s
  end.

(** A lazy run up to the first [close], then [\s*]: the length of the
    whole.  With [sameLine] the run is made of [.], which no line
    terminator matches; without it, of [[\s\S]]. *)
Fixpoint closingEnd (close : string) (sameLine : bool) (s : string)
  : option nat :=
  match s with
  | EmptyString => None
  | String c rest =>
      if prefix close s
      then Some (String.length close
                 + whiteRun (dropChars (String.length close) s))%nat
      else if sameLine && isLineTerminator c then None
      else option_map Datatypes.S (closingEnd close sameLine rest)
  end.

(** The expression [open(run)*?close\s*] tried at the head of a
    string: the length of the match. *)
Definition delimitedLength (open close : string) (sameLine : bool)
           (s : string) : option nat :=
  if prefix open s
  then option_map (fun n => String.length open + n)%nat
                  (closingEnd close sameLine (dropChars (String.length open) s))
  else None.

(** [s.replace(/open(run)*?close\s*/g, '')]: [drop] counts the
    characters of the current match still to be removed. *)
Fixpoint removeDelimited (open close : string) (sameLine : bool)
         (s : string) (drop : nat) : string :=
  match s with
  | EmptyString => EmptyString
  | String c rest =>
      match drop with
      | Datatypes.S k => removeDelimited open close sameLine rest k
      | O =>
          match delimitedLength open close sameLine s with
          | Some (Datatypes.S n) => removeDelimited open close sameLine rest n
          | _ => String c (removeDelimited open close sameLine rest 0)
          end
      end
  end.

(** The three replacements that clean the text of the file: the XML
    declaration, the [defs] sections and the comments. *)
Definition cleanSvgString (svgString : string) : string :=
  removeDelimited "<!--" "-->" false
    (removeDelimited "<defs" "</defs>" false
       (removeDelimited "<?xml" "?>" true svgString 0) 0) 0.

(** [s.replace(/lit/, '')] for a literal [lit]. *)
Fixpoint removeFirst (lit s : string) : string :=
  match s with
  | EmptyString => EmptyString
  | String c rest =>
      if prefix lit s then dropChars (String.length lit) s
      else String c (removeFirst lit rest)
  end.

Definition doubleQuote : string := String (ascii_of_nat 34) EmptyString.

Definition xmlnsAttribute : string :=
  " xmlns=" ++ doubleQuote ++ "http://www.w3.org/2000/svg" ++ doubleQuote.

(** A loop [clipPath.querySelectorAll('path').forEach(...)] that
    rewrites the attributes of each path: it reaches every path below
    the element it is given, [change] being the effect of its body on
    the attributes of one path. *)
Fixpoint onPaths (change : list (string * string) -> list (string * string))
         (n : node) : node :=
  match n with
  | Elem name attributes children =>
      Elem name
           (if (name =? "path")%string then change attributes else attributes)
           (map (onPaths change) children)
  | Leaf _ => n
  end.

(** Names, text and nesting of a tree, without the attributes. *)
Fixpoint skeleton (n : node) : node :=
  match n with
  | Elem name _ children => Elem name [] (map skeleton children)
  | Leaf _ => n
  end.

(** Whether [lit] occurs in [s]. *)
Fixpoint occurs (lit s : string) : bool :=
  match s with
  | EmptyString => prefix lit s
  | String _ rest => prefix lit s || occurs lit rest
  end.

Definition withUnits (clipPath : node) : node :=
  match clipPath with
  | Elem name attributes children =>
      Elem name
           (setAttribute (fst objectBoundingBox) (snd objectBoundingBox) attributes)
           children
  | Leaf _ => clipPath
  end.

Section Converter.

Variable decompose : string -> option (list segment).
Variable toString : list segment -> string.

(** The parser and the serialiser of the browser are parameters:
    [parseFromString s] is the document, as a node whose children are
    the nodes at the top of the document. *)
Variable parseFromString : string -> node.
Variable serializeToString : node -> string.

(** The body of the last loop on the attributes of one path: [d] is
    normalised and every other attribute removed. *)
Definition normalizePath (attributes : list (string * string))
  : list (string * string) :=
  filter (fun a => (fst a =? "d")%string)
         (setAttribute "d"
            (onAttribute (normalizePathTo01 decompose toString)
                         (lookup "d" attributes))
            attributes).

Definition finishClipPath (clipPath : node) : node :=
  match clipPath with
  | Elem name attributes children =>
      Elem name attributes (map (onPaths normalizePath) children)
  | Leaf _ => clipPath
  end.

(** The work of [convertToNormalizedClipPath] on the [svg] element. *)
Definition convertSvg (svg : node) : result node :=
  match svg with
  | Leaf _ => Done svg
  | Elem name _ children =>
      let svg := Elem name [] children in
      match querySelector "clipPath" svg with
      | None =>
          let paths := querySelectorAll ["path"] svg in
          if (List.length paths =? 0)%nat
          then Failed "No path elements found in SVG"
          else
            let clipPath :=
              Elem "clipPath" [objectBoundingBox]
                   (map newPath
                        (flat_map (fun path => truthy (lookup "d" (attributesOf path)))
                                  paths)) in
            Done (Elem name []
                       (finishClipPath clipPath
                        :: flat_map (prune (named "path")) children))
      | Some _ =>
          match changeFirst
                  (updateFirst "clipPath"
                     (fun clipPath => finishClipPath (withUnits clipPath)))
                  children with
          | Some children' => Done (Elem name [] children')
          | None => Done svg
          end
      end
  end.

Definition convertToNormalizedClipPath (svgString : string) : result string :=
  let doc := parseFromString (cleanSvgString svgString) in
  match querySelector "svg" doc with
  | None => Failed "Invalid SVG content"
  | Some svg =>
      match convertSvg svg with
      | Done svg' =>
          Done (prettifySVG
                  (removeFirst xmlnsAttribute (serializeToString svg')))
      | Failed message => Failed message
      | TypeError => TypeError
      end
  end.

End Converter.

(** The component of [App.vue]. *)
Module App.

(** The third replacement has no [g] flag and puts the match back as
    it is. *)
Definition prettifySVG (svgString : string) : string :=
  removeBlankLines
    (insertBefore "</svg>" lineFeed
       (insertBefore "</clipPath>" (lineFeed ++ "  ")
          (insertAfterPathTags false EmptyString
             (insertAfterOpenTag "<clipPath" (lineFeed ++ "    ")
                (insertAfterOpenTag "<svg" (lineFeed ++ "  ") svgString))
             0 true)))
    true 0.

Definition shapeNames : list string :=
  ["path"; "circle"; "rect"; "ellipse"; "polygon"; "polyline"].

Section Converter.

Variable numberToString : number -> string.
Variable parseFromString : string -> node.
Variable serializeToString : node -> string.

(** The path data of a shape that is moved to the clip path: the
    result of [shapeToPath] when it counts as true. *)
Definition pathDataOf (shape : node) : list string :=
  match shapeToPath numberToString (asElement shape) with
  | Return d => truthy d
  | Throw => []
  end.

Definition raises (shape : node) : bool :=
  match shapeToPath numberToString (asElement shape) with
  | Throw => true
  | Return _ => false
  end.

Definition moved (n : node) : bool :=
  existsb (fun name => named name n) shapeNames
  && negb (List.length (pathDataOf n) =? 0)%nat.

(** The body of the last loop on the attributes of one path: [d] is
    normalised and the [transform] attribute removed. *)
Definition normalizePath (attributes : list (string * string))
  : list (string * string) :=
  removeAttribute "transform"
    (setAttribute "d"
       (onAttribute (normalizePathCoordinates numberToString)
                    (lookup "d" attributes))
       attributes).

Definition finishClipPath (clipPath : node) : node :=
  match clipPath with
  | Elem name attributes children =>
      Elem name attributes (map (onPaths normalizePath) children)
  | Leaf _ => clipPath
  end.

Definition convertSvg (svg : node) : result node :=
  match svg with
  | Leaf _ => Done svg
  | Elem name _ children =>
      let svg := Elem name [] children in
      match querySelector "clipPath" svg with
      | None =>
          let shapes := querySelectorAll shapeNames svg in
          if existsb raises shapes then TypeError
          else
            let clipPath :=
              Elem "clipPath" [objectBoundingBox]
                   (map newPath (flat_map pathDataOf shapes)) in
            Done (Elem name []
                       (finishClipPath clipPath
                        :: flat_map (prune moved) children))
      | Some _ =>
          match changeFirst
                  (updateFirst "clipPath"
                     (fun clipPath => finishClipPath (withUnits clipPath)))
                  children with
          | Some children' => Done (Elem name [] children')
          | None => Done svg
          end
      end
  end.

Definition convertToNormalizedClipPath (svgString : string) : result string :=
  let doc := parseFromString (cleanSvgString svgString) in
  match querySelector "svg" doc with
  | None => Failed "Invalid SVG content"
  | Some svg =>
      match convertSvg svg with
      | Done svg' =>
          Done (prettifySVG
                  (removeFirst xmlnsAttribute (serializeToString svg')))
      | Failed message => Failed message
      | TypeError => TypeError
      end
  end.

End Converter.

End App.

(** What [updateFirst name f] does to the elements of a tree in which
    it finds one: the first element named [name] is replaced by its
    image by [f]. *)
Definition updated (name : string) (f : node -> node)
           (before after : list node) : Prop :=
  exists e,
    hd_error (filter (named name) before) = Some e
    /\ (named name (f e) = true ->
        hd_error (filter (named name) after) = Some (f e)).


(** A drawing without a clip path and one with a clip path. *)
Definition drawing : node :=
  Elem "svg" [("viewBox", "0 0 100 50")]
       [Leaf " ";
        Elem "g" [("fill", "red")]
             [Elem "path" [("d", "M0,0 L100,0 L100,50 Z"); ("fill", "red")] [];
              Elem "path" [("id", "empty")] []];
        Elem "circle" [("r", "5")] []].

Definition clipped : node :=
  Elem "svg" [("width", "10")]
       [Elem "path" [("d", "M0,0 L4,4")] [];
        Elem "clipPath" [("id", "c")]
             [Elem "path" [("d", "M0,0 L100,0 L100,50 Z");
                           ("transform", "scale(2)"); ("fill", "red")] []]].

(** ** Binary64 arithmetic *)

(** The numbers of the engine are IEEE 754 doubles: the result of an
    arithmetic operation is the exact result rounded to the nearest
    double, to the one with an even significand on a tie, and to an
    infinity when it is out of range.  The definitions above compute
    on exact rationals; the module below rounds, and holds the
    functions of the two normalisers with that arithmetic.  A finite
    number is still written [Fin q], with [q] the exact value of the
    double.  The sign of zero is not represented. *)
Module Binary64.

Definition pow2 (e : Z) : Q := 2 ^ e.

(** The integer [e] with [2^e <= q < 2^(e+1)], for a positive [q]. *)
Definition ilog2 (q : Q) : Z :=
  let e := (Z.log2 (Qnum q) - Z.log2 (Z.pos (Qden q)))%Z in
  if Qle_bool (pow2 e) q then e else (e - 1)%Z.

(** The nearest integer, the even one on a tie. *)
Definition roundHalfEven (q : Q) : Z :=
  let f := Qfloor q in
  match Qcompare (q - inject_Z f) (1 # 2) with
  | Lt => f
  | Gt => (f + 1)%Z
  | Eq => if Z.even f then f else (f + 1)%Z
  end.

(** The exponent of the unit in the last place of the doubles around
    a positive [q]: 53 significant bits, and the spacing of the
    subnormal numbers below [2^-1022]. *)
Definition ulpExponent (q : Q) : Z := (Z.max (ilog2 q) (-1022) - 52)%Z.

Definition nearestPositive (q : Q) : Q :=
  let e := ulpExponent q in
  inject_Z (roundHalfEven (q / pow2 e)) * pow2 e.

(** The multiple of the unit in the last place nearest to [q], before
    the range is looked at. *)
Definition nearest (q : Q) : Q :=
  match Qcompare 0 q with
  | Eq => 0
  | Lt => nearestPositive q
  | Gt => - nearestPositive (- q)
  end.

(** The double that an operation of exact result [q] returns. *)
Definition fl (q : Q) : number :=
  let r := Qred (nearest q) in
  if Qle_bool (pow2 1024) (Qabs r)
  then (if Qle_bool 0 r then PInf else NInf)
  else Fin r.

(** The double nearest to a number. *)
Definition double (x : number) : number :=
  match x with
  | Fin a => fl a
  | _ => x
  end.

(** [x + y], [x - y], [x * y] and [x / y]: on finite operands the
    exact result rounded; an operand that is not finite is handled as
    before. *)
Definition add (x y : number) : number :=
  match x, y with
  | Fin a, Fin b => fl (a + b)
  | _, _ => JS.add x y
  end.

Definition sub (x y : number) : number := add x (JS.neg y).

Definition mul (x y : number) : number :=
  match x, y with
  | Fin a, Fin b => fl (a * b)
  | _, _ => JS.mul x y
  end.

Definition div (x y : number) : number :=
  match x, y with
  | Fin a, Fin b => if Qeq_bool b 0 then JS.div x y else fl (a / b)
  | _, _ => JS.div x y
  end.

(** [+x.toFixed(d)]: the decimal that [toFixed] writes, read back as
    a double. *)
Definition toFixed (d : nat) (x : number) : number :=
  match x with
  | Fin a => fl (toFixedQ d a)
  | _ => x
  end.

(** [parseFloat(s)]: the double nearest to the literal. *)
Definition parseFloat (s : string) : number := double (parseFloat s).

Definition width (b : Bounds) : number := sub (maxX b) (minX b).
Definition height (b : Bounds) : number := sub (maxY b) (minY b).

(** Modelled from the spec: [translate] is a method of the svgpath
    library, which is not under src/.  The specification (Data model,
    Transform) has a transform take every coordinate of every segment,
    control points included, to [x + tx] and [y + ty]. *)
Definition translate (tx ty : number) (p : list segment) : list segment :=
  map (map_xy (fun x => add x tx) (fun y => add y ty)) p.

(** Modelled from the spec: [scale] is a method of the svgpath library,
    which is not under src/.  The specification (Data model, Transform;
    Coordinate Normalizer) has a scaling, applied after the translation,
    take every coordinate of every segment to [x * sx] and [y * sy]. *)
Definition scale (sx sy : number) (p : list segment) : list segment :=
  map (map_xy (fun x => mul x sx) (fun y => mul y sy)) p.

(** Modelled from the spec: [round] is a method of the svgpath library,
    which is not under src/.  The specification (Coordinate Normalizer)
    has the final numeric values rounded to a fixed number of decimal
    digits. *)
Definition round (d : nat) (p : list segment) : list segment :=
  map (map_xy (toFixed d) (toFixed d)) p.

Section Normalizer.

Variable decompose : string -> option (list segment).
Variable toString : list segment -> string.

Definition normalizePathTo01 (pathString : string) : string :=
  if (pathString =? "")%string || (trim pathString =? "")%string
  then pathString
  else
    match decompose pathString with
    | None => pathString
    | Some segments =>
        if (List.length segments =? 0)%nat then pathString
        else
          let bounds := calculateBounds segments in
          let width := sub (maxX bounds) (minX bounds) in
          let height := sub (maxY bounds) (minY bounds) in
          if (width === zero)%js && (height === zero)%js
          then "M0.5,0.5"%string
          else if (width === zero)%js
          then toString
                 (round 6
                    (translate (Fin (1 # 2)) zero
                       (scale one (div one height)
                          (translate (- minX bounds)%js (- minY bounds)%js
                             segments))))
          else if (height === zero)%js
          then toString
                 (round 6
                    (translate zero (Fin (1 # 2))
                       (scale (div one width) one
                          (translate (- minX bounds)%js (- minY bounds)%js
                             segments))))
          else toString
                 (round 6
                    (scale (div one width) (div one height)
                       (translate (- minX bounds)%js (- minY bounds)%js
                          segments)))
    end.

End Normalizer.

Section Legacy.

Variable numberToString : number -> string.

Definition normalizedValue (minX width minY height : number)
           (index : nat) (num : number) : number :=
  if Nat.even index then div (sub num minX) width
  else div (sub num minY) height.

Fixpoint normalizeFrom (minX width minY height : number)
         (index : nat) (numbers : list number) : list string :=
  match numbers with
  | [] => []
  | num :: rest =>
      toFixedString numberToString 6
                    (normalizedValue minX width minY height index num)
      :: normalizeFrom minX width minY height (Datatypes.S index) rest
  end.

Definition normalizePathCoordinates (pathString : string) : string :=
  let matches := execAll pathString 0 0 in
  let numbers := map (fun m => parseFloat (fst m)) matches in
  let positions := map snd matches in
  if (List.length numbers =? 0)%nat then pathString
  else
    let xCoords := evenIndexed numbers in
    let yCoords := oddIndexed numbers in
    let minX := Math_min_of xCoords in
    let maxX := Math_max_of xCoords in
    let minY := Math_min_of yCoords in
    let maxY := Math_max_of yCoords in
    let width := sub maxX minX in
    let height := sub maxY minY in
    if (width === zero)%js || (height === zero)%js then pathString
    else
      let normalizedNumbers := normalizeFrom minX width minY height 0 numbers in
      fst (fold_left (replaceAt pathString)
                     (combine positions normalizedNumbers)
                     (pathString, 0%Z)).

End Legacy.

(** The stand-in reader with every number rounded to a double, as
    the parser of the library holds them. *)
Definition readPath (s : string) : option (list segment) :=
  option_map (map (map_xy double double)) (PathText.readPath s).

(** The numbers [normalizePathCoordinates] finds in a string. *)
Definition extractNumbers (s : string) : list number :=
  map (fun m => parseFloat (fst m)) (execAll s 0 0).

(** The coordinate maps of [normalizePathTo01]. *)
Definition toUnit (lo extent : number) (v : number) : number :=
  toFixed 6 (mul (sub v lo) (div one extent)).

Definition shifted (lo factor shift : number) (v : number) : number :=
  toFixed 6 (add (mul (sub v lo) factor) shift).

(** A finite number above zero. *)
Definition positive (x : number) : bool :=
  match x with
  | Fin a => negb (Qle_bool a 0)
  | _ => false
  end.

(** An extent that the normaliser can handle: zero, or a number whose
    reciprocal is finite. *)
Definition scalable (extent : number) : bool :=
  (extent === zero)%js || isFinite (div one extent).

(** The doubles next to 1 on both sides at a distance of [2^-51]. *)
Definition belowOne : Q := 2251799813685247 # 2251799813685248.
Definition aboveOne : Q := 2251799813685249 # 2251799813685248.

End Binary64.

(** * Properties *)

Local Open Scope list_scope.

(** ** Minimum and maximum of finite numbers *)

Lemma Math_min_Fin (a b : Q) :
  exists m, Math_min (Fin a) (Fin b) = Fin m /\
            (m = a \/ m = b) /\ m <= a /\ m <= b.
Proof.
  simpl. destruct (Qle_bool a b) eqn:E.
  - apply Qle_bool_iff in E. exists a. repeat split; auto. apply Qle_refl.
  - exists b. repeat split; auto; try apply Qle_refl.
    destruct (Qlt_le_dec b a) as [Hlt | Hle].
    + apply Qlt_le_weak; exact Hlt.
    + apply Qle_bool_iff in Hle. congruence.
Qed.

Lemma Math_max_Fin (a b : Q) :
  exists m, Math_max (Fin a) (Fin b) = Fin m /\
            (m = a \/ m = b) /\ a <= m /\ b <= m.
Proof.
  simpl. destruct (Qle_bool b a) eqn:E.
  - apply Qle_bool_iff in E. exists a. repeat split; auto. apply Qle_refl.
  - exists b. repeat split; auto; try apply Qle_refl.
    destruct (Qlt_le_dec a b) as [Hlt | Hle].
    + apply Qlt_le_weak; exact Hlt.
    + apply Qle_bool_iff in Hle. congruence.
Qed.

Lemma isFinite_Fin (x : number) :
  isFinite x = true -> exists a, x = Fin a.
Proof. destruct x; simpl; try discriminate. intros _. eexists; reflexivity. Qed.

(** Folding [Math.min] over finite numbers from a finite start yields
    an element of the list (or the start) that is below all of them. *)
Lemma fold_Math_min_Fin (l : list number) :
  forallb isFinite l = true ->
  forall a, exists m,
    fold_left Math_min l (Fin a) = Fin m /\
    In (Fin m) (Fin a :: l) /\
    forall q, In (Fin q) (Fin a :: l) -> m <= q.
Proof.
  induction l as [| x l IH]; intros Hfin a.
  - exists a. simpl. repeat split; auto.
    intros q [Hq | []]. injection Hq as ->. apply Qle_refl.
  - simpl in Hfin. apply andb_prop in Hfin as [Hx Hl].
    destruct (isFinite_Fin _ Hx) as [b ->].
    destruct (Math_min_Fin a b) as (m0 & Hm0 & Hor & Ha & Hb).
    destruct (IH Hl m0) as (m & Hm & Hin & Hlow).
    exists m. cbn [fold_left]. rewrite Hm0. split; [exact Hm |]. split.
    + destruct Hin as [Hin | Hin].
      * injection Hin as <-. destruct Hor as [-> | ->]; simpl; auto.
      * simpl; auto.
    + assert (Hmm0 : m <= m0) by (apply Hlow; simpl; auto).
      intros q [Hq | [Hq | Hq]].
      * injection Hq as <-. eapply Qle_trans; eauto.
      * injection Hq as <-. eapply Qle_trans; eauto.
      * apply Hlow. simpl; auto.
Qed.

Lemma fold_Math_max_Fin (l : list number) :
  forallb isFinite l = true ->
  forall a, exists m,
    fold_left Math_max l (Fin a) = Fin m /\
    In (Fin m) (Fin a :: l) /\
    forall q, In (Fin q) (Fin a :: l) -> q <= m.
Proof.
  induction l as [| x l IH]; intros Hfin a.
  - exists a. simpl. repeat split; auto.
    intros q [Hq | []]. injection Hq as ->. apply Qle_refl.
  - simpl in Hfin. apply andb_prop in Hfin as [Hx Hl].
    destruct (isFinite_Fin _ Hx) as [b ->].
    destruct (Math_max_Fin a b) as (m0 & Hm0 & Hor & Ha & Hb).
    destruct (IH Hl m0) as (m & Hm & Hin & Hup).
    exists m. cbn [fold_left]. rewrite Hm0. split; [exact Hm |]. split.
    + destruct Hin as [Hin | Hin].
      * injection Hin as <-. destruct Hor as [-> | ->]; simpl; auto.
      * simpl; auto.
    + assert (Hmm0 : m0 <= m) by (apply Hup; simpl; auto).
      intros q [Hq | [Hq | Hq]].
      * injection Hq as <-. eapply Qle_trans; eauto.
      * injection Hq as <-. eapply Qle_trans; eauto.
      * apply Hup. simpl; auto.
Qed.

(** [Math.min(...l)] of a non-empty list of finite numbers is its
    least element; of the empty list it is [Infinity]. *)
Lemma Math_min_of_Fin (l : list number) :
  forallb isFinite l = true -> l <> [] ->
  exists m, Math_min_of l = Fin m /\ In (Fin m) l /\
            forall q, In (Fin q) l -> m <= q.
Proof.
  destruct l as [| x l]; [congruence |]. intros Hfin _.
  simpl in Hfin. apply andb_prop in Hfin as [Hx Hl].
  destruct (isFinite_Fin _ Hx) as [a ->].
  destruct (fold_Math_min_Fin l Hl a) as (m & Hm & Hin & Hlow).
  exists m. unfold Math_min_of. cbn [fold_left Math_min]. auto.
Qed.

Lemma Math_max_of_Fin (l : list number) :
  forallb isFinite l = true -> l <> [] ->
  exists m, Math_max_of l = Fin m /\ In (Fin m) l /\
            forall q, In (Fin q) l -> q <= m.
Proof.
  destruct l as [| x l]; [congruence |]. intros Hfin _.
  simpl in Hfin. apply andb_prop in Hfin as [Hx Hl].
  destruct (isFinite_Fin _ Hx) as [a ->].
  destruct (fold_Math_max_Fin l Hl a) as (m & Hm & Hin & Hup).
  exists m. unfold Math_max_of. cbn [fold_left Math_max]. auto.
Qed.

Lemma extent_of_finite (l : list number) :
  forallb isFinite l = true -> l <> [] -> exists lo hi, extent l lo hi.
Proof.
  intros Hfin Hne.
  destruct (Math_min_of_Fin l Hfin Hne) as (lo & H1 & H2 & H3).
  destruct (Math_max_of_Fin l Hfin Hne) as (hi & H4 & H5 & H6).
  exists lo, hi. constructor; auto.
Qed.

(** ** The box is the extent of the coordinates *)

Lemma visit_fold (p : list segment) :
  forall w,
    let b := box (fold_left visit p w) in
    minX b = fold_left Math_min (xs p) (minX (box w)) /\
    maxX b = fold_left Math_max (xs p) (maxX (box w)) /\
    minY b = fold_left Math_min (ys p) (minY (box w)) /\
    maxY b = fold_left Math_max (ys p) (maxY (box w)).
Proof.
  induction p as [| s p IH]; intros w; cbn zeta.
  - simpl. auto.
  - cbn [fold_left]. specialize (IH (visit w s)). cbn zeta in IH.
    destruct IH as (H1 & H2 & H3 & H4).
    rewrite H1, H2, H3, H4. unfold xs, ys. cbn [flat_map].
    rewrite !fold_left_app.
    destruct s; simpl; auto.
Qed.

Lemma calculateBounds_extent (p : list segment) :
  minX (calculateBounds p) = Math_min_of (xs p) /\
  maxX (calculateBounds p) = Math_max_of (xs p) /\
  minY (calculateBounds p) = Math_min_of (ys p) /\
  maxY (calculateBounds p) = Math_max_of (ys p).
Proof. exact (visit_fold p walk_start). Qed.

Lemma xs_app (p q : list segment) : xs (p ++ q) = xs p ++ xs q.
Proof. unfold xs. apply flat_map_app. Qed.

Lemma ys_app (p q : list segment) : ys (p ++ q) = ys p ++ ys q.
Proof. unfold ys. apply flat_map_app. Qed.

(** ** Transforms act on coordinates only *)

Lemma xs_map_xy (fx fy : number -> number) (p : list segment) :
  xs (map (map_xy fx fy) p) = map fx (xs p).
Proof.
  induction p as [| s p IH]; [reflexivity |].
  unfold xs in *. cbn [map flat_map]. rewrite IH, map_app.
  destruct s; reflexivity.
Qed.

Lemma ys_map_xy (fx fy : number -> number) (p : list segment) :
  ys (map (map_xy fx fy) p) = map fy (ys p).
Proof.
  induction p as [| s p IH]; [reflexivity |].
  unfold ys in *. cbn [map flat_map]. rewrite IH, map_app.
  destruct s; reflexivity.
Qed.

Lemma kinds_map_xy (fx fy : number -> number) (p : list segment) :
  map kind_of (map (map_xy fx fy) p) = map kind_of p.
Proof.
  rewrite map_map. apply map_ext. intros s. destruct s; reflexivity.
Qed.

Lemma kinds_transformed (d : nat) (tx ty sx sy ux uy : number)
      (p : list segment) :
  map kind_of (round d (translate ux uy (scale sx sy (translate tx ty p))))
  = map kind_of p.
Proof. unfold round, translate, scale. now rewrite !kinds_map_xy. Qed.

Lemma kinds_length (p q : list segment) :
  map kind_of p = map kind_of q -> List.length p = List.length q.
Proof.
  intros E. rewrite <- (length_map kind_of p), E. apply length_map.
Qed.

(** ** Rounding to a fixed number of digits *)

Lemma pow10_pos (d : nat) : (0 < pow10 d)%Z.
Proof. unfold pow10. apply Z.pow_pos_nonneg; lia. Qed.

Lemma inject_pow10_pos (d : nat) : 0 < inject_Z (pow10 d).
Proof.
  replace 0 with (inject_Z 0) by reflexivity.
  rewrite <- Zlt_Qlt. apply pow10_pos.
Qed.

Lemma toFixedQ_comp (d : nat) (a b : Q) :
  a == b -> toFixedQ d a == toFixedQ d b.
Proof.
  intros E. unfold toFixedQ.
  rewrite (Qleb_comp _ _ (Qeq_refl _) _ _ (Qabs_wd _ _ E)).
  destruct (Qle_bool (inject_Z (pow10 21)) (Qabs b)); [exact E |].
  rewrite (Qleb_comp _ _ (Qeq_refl 0) _ _ E).
  assert (F : Qfloor (Qabs a * inject_Z (pow10 d) + (1 # 2))
              = Qfloor (Qabs b * inject_Z (pow10 d) + (1 # 2))).
  { apply Qfloor_comp. rewrite (Qabs_wd _ _ E). reflexivity. }
  rewrite F. reflexivity.
Qed.

(** Rounding moves a number by half a unit of the last digit at most. *)
Lemma toFixedQ_close (d : nat) (a : Q) :
  Qabs (toFixedQ d a - a) <= 1 / (2 * inject_Z (pow10 d)).
Proof.
  pose proof (inject_pow10_pos d) as Hs.
  set (s := inject_Z (pow10 d)) in *.
  assert (Htol : 0 <= 1 / (2 * s)).
  { apply Qlt_le_weak, Qlt_shift_div_l; lra. }
  unfold toFixedQ. fold s.
  destruct (Qle_bool (inject_Z (pow10 21)) (Qabs a)).
  { setoid_replace (a - a) with 0 by ring. exact Htol. }
  set (n := Qfloor (Qabs a * s + (1 # 2))).
  pose proof (Qfloor_le (Qabs a * s + (1 # 2))) as Hlo.
  pose proof (Qlt_floor (Qabs a * s + (1 # 2))) as Hhi.
  fold n in Hlo, Hhi. rewrite inject_Z_plus in Hhi.
  change (inject_Z 1) with 1 in Hhi.
  assert (Hn : - (1 # 2) <= inject_Z n - Qabs a * s <= 1 # 2) by lra.
  assert (Hdiv : Qabs (inject_Z n / s - Qabs a) <= 1 / (2 * s)).
  { apply Qabs_Qle_condition. split.
    - setoid_replace (inject_Z n / s - Qabs a)
        with ((inject_Z n - Qabs a * s) / s) by (field; lra).
      setoid_replace (- (1 / (2 * s))) with ((- (1 # 2)) / s) by (field; lra).
      apply Qmult_le_compat_r; [lra |]. apply Qlt_le_weak, Qinv_lt_0_compat, Hs.
    - setoid_replace (inject_Z n / s - Qabs a)
        with ((inject_Z n - Qabs a * s) / s) by (field; lra).
      setoid_replace (1 / (2 * s)) with ((1 # 2) / s) by (field; lra).
      apply Qmult_le_compat_r; [lra |]. apply Qlt_le_weak, Qinv_lt_0_compat, Hs. }
  destruct (Qle_bool 0 a) eqn:Ea.
  - apply Qle_bool_iff in Ea. rewrite (Qabs_pos a Ea) in Hdiv. exact Hdiv.
  - assert (Hneg : a <= 0).
    { destruct (Qlt_le_dec 0 a) as [H | H]; [| exact H].
      apply Qlt_le_weak, Qle_bool_iff in H. congruence. }
    rewrite (Qabs_neg a Hneg) in Hdiv.
    rewrite inject_Z_opp.
    setoid_replace (- inject_Z n / s - a) with (- (inject_Z n / s - - a))
      by (field; lra).
    rewrite Qabs_opp. exact Hdiv.
Qed.

(** ** Arithmetic on finite numbers *)

Lemma gt0_Fin (a : Q) : gt0 (Fin a) = true <-> 0 < a.
Proof.
  simpl. rewrite negb_true_iff. split.
  - intros E. destruct (Qlt_le_dec 0 a) as [H | H]; [exact H |].
    apply Qle_bool_iff in H. congruence.
  - intros H. destruct (Qle_bool a 0) eqn:E; [| reflexivity].
    apply Qle_bool_iff in E. lra.
Qed.

Lemma div_one_Fin (w : Q) : ~ w == 0 -> (one / Fin w)%js = Fin (1 / w).
Proof.
  intros Hw. simpl. destruct (Qeq_bool w 0) eqn:E; [| reflexivity].
  apply Qeq_bool_iff in E. contradiction.
Qed.

(** ** One axis of the box *)

Lemma finite_In (l : list number) (x : number) :
  forallb isFinite l = true -> In x l -> exists a, x = Fin a.
Proof.
  intros Hfin Hin. rewrite forallb_forall in Hfin.
  apply isFinite_Fin, Hfin, Hin.
Qed.

(** The two maps of the normaliser that scale an axis are of that
    form. *)
Lemma toUnit_value (lo hi a : Q) :
  lo < hi ->
  exists r, toUnit (Fin lo) (Fin hi - Fin lo)%js (Fin a) = Fin (toFixedQ 6 r) /\
            r == (a - lo) / (hi - lo).
Proof.
  intros Hlt. unfold toUnit.
  change (Fin hi - Fin lo)%js with (Fin (hi + - lo)).
  rewrite div_one_Fin by lra.
  eexists. split; [reflexivity |]. field. lra.
Qed.

Lemma Forall2_map_self {A B : Type} (R : A -> B -> Prop) (f : A -> B)
      (l : list A) :
  (forall x, In x l -> R x (f x)) -> Forall2 R l (map f l).
Proof.
  induction l as [| x l IH]; intros H; simpl; constructor.
  - apply H. simpl; auto.
  - apply IH. intros y Hy. apply H. simpl; auto.
Qed.

(** ** Blank strings *)

Lemma trimStart_whitespaceOnly (s : string) :
  whitespaceOnly s = true -> trimStart s = EmptyString.
Proof.
  induction s as [| c s IH]; simpl; [reflexivity |].
  intros H. apply andb_prop in H as [Hc Hs]. rewrite Hc. auto.
Qed.

Lemma trim_whitespaceOnly (s : string) :
  whitespaceOnly s = true -> trim s = EmptyString.
Proof.
  intros H. unfold trim. rewrite (trimStart_whitespaceOnly s H). reflexivity.
Qed.

Lemma not_blank (s : string) :
  trim s <> EmptyString ->
  (s =? "")%string || (trim s =? "")%string = false.
Proof.
  intros H. apply orb_false_iff. split; apply String.eqb_neq; [| exact H].
  intros ->. apply H. reflexivity.
Qed.

(** ** The normaliser, branch by branch *)

Section NormalizerProperties.

Variable decompose : string -> option (list segment).
Variable toString : list segment -> string.

Lemma empty_box_width : (width (calculateBounds []) === zero)%js = false.
Proof. reflexivity. Qed.

Ltac enter Hs Hp :=
  unfold normalizePathTo01; rewrite (not_blank _ Hs), Hp;
  match goal with
  | |- context [(List.length ?p =? 0)%nat] =>
      destruct p; [try discriminate; try congruence |]
  end;
  cbn [List.length Nat.eqb]; cbv zeta.

Lemma normalize_point (s : string) (p : list segment) :
  trim s <> EmptyString -> decompose s = Some p ->
  (width (calculateBounds p) === zero)%js = true ->
  (height (calculateBounds p) === zero)%js = true ->
  normalizePathTo01 decompose toString s = "M0.5,0.5"%string.
Proof.
  intros Hs Hp Hw Hh. enter Hs Hp.
  fold (width (calculateBounds (s0 :: p))).
  fold (height (calculateBounds (s0 :: p))).
  rewrite Hw, Hh. reflexivity.
Qed.

Lemma normalize_vertical (s : string) (p : list segment) :
  trim s <> EmptyString -> decompose s = Some p ->
  (width (calculateBounds p) === zero)%js = true ->
  (height (calculateBounds p) === zero)%js = false ->
  let b := calculateBounds p in
  normalizePathTo01 decompose toString s
  = toString (round 6 (translate (Fin (1 # 2)) zero
               (scale one (one / height b)%js
                  (translate (- minX b)%js (- minY b)%js p)))).
Proof.
  intros Hs Hp Hw Hh. enter Hs Hp.
  fold (width (calculateBounds (s0 :: p))).
  fold (height (calculateBounds (s0 :: p))).
  rewrite Hw, Hh. reflexivity.
Qed.

Lemma normalize_horizontal (s : string) (p : list segment) :
  trim s <> EmptyString -> decompose s = Some p ->
  (width (calculateBounds p) === zero)%js = false ->
  (height (calculateBounds p) === zero)%js = true ->
  let b := calculateBounds p in
  normalizePathTo01 decompose toString s
  = toString (round 6 (translate zero (Fin (1 # 2))
               (scale (one / width b)%js one
                  (translate (- minX b)%js (- minY b)%js p)))).
Proof.
  intros Hs Hp Hw Hh. enter Hs Hp.
  fold (width (calculateBounds (s0 :: p))).
  fold (height (calculateBounds (s0 :: p))).
  rewrite Hw, Hh. reflexivity.
Qed.

Lemma normalize_normal (s : string) (p : list segment) :
  trim s <> EmptyString -> decompose s = Some p -> p <> [] ->
  (width (calculateBounds p) === zero)%js = false ->
  (height (calculateBounds p) === zero)%js = false ->
  let b := calculateBounds p in
  normalizePathTo01 decompose toString s
  = toString (round 6 (scale (one / width b)%js (one / height b)%js
                         (translate (- minX b)%js (- minY b)%js p))).
Proof.
  intros Hs Hp Hne Hw Hh. enter Hs Hp.
  fold (width (calculateBounds (s0 :: p))).
  fold (height (calculateBounds (s0 :: p))).
  rewrite Hw, Hh. reflexivity.
Qed.

Lemma positive_not_zero (v : number) :
  gt0 v = true -> (v === zero)%js = false.
Proof.
  destruct v as [| | a |]; simpl; try reflexivity; try discriminate.
  intros H. apply (gt0_Fin a) in H.
  destruct (Qeq_bool a 0) eqn:E; [| reflexivity].
  apply Qeq_bool_iff in E. lra.
Qed.

Lemma positive_width_not_empty (p : list segment) :
  gt0 (width (calculateBounds p)) = true -> p <> [].
Proof. intros H ->. discriminate H. Qed.

(** C2. When the box of the decomposed path has width 0 and height 0,
    the normaliser returns the text [M0.5,0.5]; no transform, and so
    no division by the width or the height, is computed on that
    branch. *)
Theorem normalizePathTo01_single_point (s : string) (p : list segment) :
  trim s <> EmptyString ->
  decompose s = Some p ->
  (width (calculateBounds p) === zero)%js = true ->
  (height (calculateBounds p) === zero)%js = true ->
  normalizePathTo01 decompose toString s = "M0.5,0.5"%string.
Proof. exact (normalize_point s p). Qed.

Lemma normalize_no_segments (s : string) :
  decompose s = None \/ decompose s = Some [] -> normalizePathTo01 decompose toString s = s.
Proof.
  intros H. unfold normalizePathTo01.
  destruct ((s =? "")%string || (trim s =? "")%string); [reflexivity |].
  destruct H as [-> | ->]; reflexivity.
Qed.

(** C10. On the empty string, on a string of white space only, and on
    a string whose decomposition has no segment, the normaliser
    returns the string it was given. *)
Theorem normalizePathTo01_blank (s : string) :
  s = EmptyString \/ whitespaceOnly s = true \/ decompose s = Some [] ->
  normalizePathTo01 decompose toString s = s.
Proof.
  intros [-> | [H | H]].
  - reflexivity.
  - unfold normalizePathTo01. rewrite (trim_whitespaceOnly s H).
    rewrite orb_true_r. reflexivity.
  - apply normalize_no_segments. right. exact H.
Qed.

(** On an axis that already spans 0 to 1 the map onto the unit
    interval only rounds. *)
Lemma unit_axis (l : list number) (lo hi : Q) :
  forallb isFinite l = true -> lo == 0 -> hi == 1 ->
  Forall2 (within tolerance) l (map (toUnit (Fin lo) (Fin hi - Fin lo)%js) l)
  /\
  Forall2 (fun v v' => toFixed 6 v =~ v -> v' =~ v)%js
          l (map (toUnit (Fin lo) (Fin hi - Fin lo)%js) l).
Proof.
  intros Hfin Hlo Hhi.
  assert (Hlt : lo < hi) by lra.
  assert (Hval : forall a, exists r,
             toUnit (Fin lo) (Fin hi - Fin lo)%js (Fin a)
             = Fin (toFixedQ 6 r) /\ r == a).
  { intros a. destruct (toUnit_value lo hi a Hlt) as (r & E & Hr).
    exists r. split; [exact E |]. rewrite Hr, Hlo, Hhi. field. }
  split; apply Forall2_map_self; intros x Hx;
    destruct (finite_In l x Hfin Hx) as [a ->];
    destruct (Hval a) as (r & -> & Hr); cbn [within JS.equiv toFixed].
  - rewrite (toFixedQ_comp 6 r a Hr).
    eapply Qle_trans; [apply toFixedQ_close |].
    unfold tolerance. apply Qle_lteq. right. reflexivity.
  - intros Hfix. rewrite (toFixedQ_comp 6 r a Hr). exact Hfix.
Qed.

Lemma equiv_Fin (v : number) (c : Q) :
  (v =~ Fin c)%js -> exists a, v = Fin a /\ a == c.
Proof.
  destruct v as [| | a |]; simpl; try contradiction.
  intros H. exists a. auto.
Qed.

(** C8. Normalising a path whose box is already the unit square
    changes no number beyond rounding: the result has the same
    segment kinds, every coordinate of the result is within half a
    unit of the sixth decimal digit of the coordinate it comes from,
    and a coordinate that already has six decimal digits at most is
    returned as it is. *)
Theorem normalizePathTo01_idempotent (s : string) (p : list segment) :
  trim s <> EmptyString ->
  decompose s = Some p ->
  forallb isFinite (xs p) = true ->
  forallb isFinite (ys p) = true ->
  let b := calculateBounds p in
  (minX b =~ zero)%js -> (minY b =~ zero)%js ->
  (maxX b =~ one)%js -> (maxY b =~ one)%js ->
  exists out,
    normalizePathTo01 decompose toString s = toString out /\
    map kind_of out = map kind_of p /\
    Forall2 (within tolerance) (xs p) (xs out) /\
    Forall2 (within tolerance) (ys p) (ys out) /\
    Forall2 (fun v v' => toFixed 6 v =~ v -> v' =~ v)%js (xs p) (xs out) /\
    Forall2 (fun v v' => toFixed 6 v =~ v -> v' =~ v)%js (ys p) (ys out).
Proof.
  intros Hs Hp Hfx Hfy b Hx0 Hy0 Hx1 Hy1.
  destruct (equiv_Fin _ _ Hx0) as (xlo & Exlo & Hxlo).
  destruct (equiv_Fin _ _ Hy0) as (ylo & Eylo & Hylo).
  destruct (equiv_Fin _ _ Hx1) as (xhi & Exhi & Hxhi).
  destruct (equiv_Fin _ _ Hy1) as (yhi & Eyhi & Hyhi).
  assert (Hw : gt0 (width b) = true).
  { unfold width. rewrite Exlo, Exhi. apply (gt0_Fin (xhi + - xlo)). lra. }
  assert (Hh : gt0 (height b) = true).
  { unfold height. rewrite Eylo, Eyhi. apply (gt0_Fin (yhi + - ylo)). lra. }
  pose proof (positive_width_not_empty p Hw) as Hne.
  rewrite (normalize_normal s p Hs Hp Hne
             (positive_not_zero _ Hw) (positive_not_zero _ Hh)).
  cbv zeta. fold b.
  eexists. split; [reflexivity |].
  unfold round, scale, translate.
  rewrite !kinds_map_xy, !xs_map_xy, !ys_map_xy, !map_map.
  split; [reflexivity |].
  change (fun x => toFixed 6 ((x + - minX b) * (one / width b))%js)
    with (toUnit (minX b) (width b)).
  change (fun x => toFixed 6 ((x + - minY b) * (one / height b))%js)
    with (toUnit (minY b) (height b)).
  unfold width, height. rewrite Exlo, Exhi, Eylo, Eyhi.
  destruct (unit_axis (xs p) xlo xhi Hfx Hxlo Hxhi) as [X1 X2].
  destruct (unit_axis (ys p) ylo yhi Hfy Hylo Hyhi) as [Y1 Y2].
  repeat split; assumption.
Qed.

(** C9, as amended.  Unless the box of the decomposed path is a
    single point, the normaliser returns the printed form of a path
    with the same number of segments, of the same kinds in the same
    order, as the decomposition of its input. *)
Theorem normalizePathTo01_keeps_kinds (s : string) (p : list segment) :
  trim s <> EmptyString ->
  decompose s = Some p ->
  p <> [] ->
  (width (calculateBounds p) === zero)%js
  && (height (calculateBounds p) === zero)%js = false ->
  keepsKinds decompose toString s /\
  exists out, normalizePathTo01 decompose toString s = toString out /\
              List.length out = List.length p.
Proof.
  intros Hs Hp Hne Hpoint.
  assert (H : exists out, normalizePathTo01 decompose toString s = toString out /\
                          map kind_of out = map kind_of p).
  { destruct (width (calculateBounds p) === zero)%js eqn:Hw;
      destruct (height (calculateBounds p) === zero)%js eqn:Hh;
      try discriminate.
    - rewrite (normalize_vertical s p Hs Hp Hw Hh).
      eexists. split; [reflexivity |]. apply kinds_transformed.
    - rewrite (normalize_horizontal s p Hs Hp Hw Hh).
      eexists. split; [reflexivity |]. apply kinds_transformed.
    - rewrite (normalize_normal s p Hs Hp Hne Hw Hh).
      eexists. split; [reflexivity |].
      unfold round, scale, translate. now rewrite !kinds_map_xy. }
  destruct H as (out & E & K). split.
  - intros p' Hp'. rewrite Hp in Hp'. injection Hp' as <-.
    exists out. auto.
  - exists out. split; [exact E |]. apply kinds_length, K.
Qed.

End NormalizerProperties.

(** ** The walk of [calculateBounds] *)

Lemma traverse_snoc (p : list segment) (s : segment) :
  traverse (p ++ [s]) = visit (traverse p) s.
Proof. unfold traverse. rewrite fold_left_app. reflexivity. Qed.

Lemma traverse_without_close (pre post : list segment) :
  traverse (pre ++ Cmd.Z :: post) = traverse (pre ++ post).
Proof. unfold traverse. rewrite !fold_left_app. reflexivity. Qed.

(** C5. A horizontal line folds its x into the box and leaves the y
    extent as it was; a vertical line folds its y and leaves the x
    extent as it was; a close-path leaves the whole walk as it was.
    Hence a horizontal line never contributes to the y extent of a
    path, a vertical line never contributes to its x extent, and a
    close-path contributes to neither: taking such a segment out of a
    path does not change that part of the box. *)
Theorem calculateBounds_single_axis :
  (forall p x,
      let b := box (traverse p) in
      box (traverse (p ++ [Cmd.H x]))
      = mkBounds (Math_min (minX b) x) (minY b)
                 (Math_max (maxX b) x) (maxY b)) /\
  (forall p y,
      let b := box (traverse p) in
      box (traverse (p ++ [Cmd.V y]))
      = mkBounds (minX b) (Math_min (minY b) y)
                 (maxX b) (Math_max (maxY b) y)) /\
  (forall p, traverse (p ++ [Cmd.Z]) = traverse p) /\
  (forall pre post x,
      minY (calculateBounds (pre ++ Cmd.H x :: post))
      = minY (calculateBounds (pre ++ post)) /\
      maxY (calculateBounds (pre ++ Cmd.H x :: post))
      = maxY (calculateBounds (pre ++ post))) /\
  (forall pre post y,
      minX (calculateBounds (pre ++ Cmd.V y :: post))
      = minX (calculateBounds (pre ++ post)) /\
      maxX (calculateBounds (pre ++ Cmd.V y :: post))
      = maxX (calculateBounds (pre ++ post))) /\
  (forall pre post,
      calculateBounds (pre ++ Cmd.Z :: post) = calculateBounds (pre ++ post)).
Proof.
  repeat split.
  - intros p x. rewrite traverse_snoc. reflexivity.
  - intros p y. rewrite traverse_snoc. reflexivity.
  - intros p. rewrite traverse_snoc. reflexivity.
  - destruct (calculateBounds_extent (pre ++ Cmd.H x :: post)) as (_ & _ & E & _).
    destruct (calculateBounds_extent (pre ++ post)) as (_ & _ & F & _).
    rewrite E, F, !ys_app. reflexivity.
  - destruct (calculateBounds_extent (pre ++ Cmd.H x :: post)) as (_ & _ & _ & E).
    destruct (calculateBounds_extent (pre ++ post)) as (_ & _ & _ & F).
    rewrite E, F, !ys_app. reflexivity.
  - destruct (calculateBounds_extent (pre ++ Cmd.V y :: post)) as (E & _).
    destruct (calculateBounds_extent (pre ++ post)) as (F & _).
    rewrite E, F, !xs_app. reflexivity.
  - destruct (calculateBounds_extent (pre ++ Cmd.V y :: post)) as (_ & E & _).
    destruct (calculateBounds_extent (pre ++ post)) as (_ & F & _).
    rewrite E, F, !xs_app. reflexivity.
  - intros pre post. unfold calculateBounds.
    rewrite traverse_without_close. reflexivity.
Qed.

(** C6, as amended.  Every segment moves the current point of the walk
    to its final coordinate pair, a horizontal or a vertical line
    changing one coordinate only; a close-path leaves the current point
    where it was. *)
Theorem traverse_current_point :
  (forall p s,
      currentPoint (traverse (p ++ [s]))
      = finalPoint (currentPoint (traverse p)) s) /\
  (forall p,
      currentPoint (traverse (p ++ [Cmd.Z])) = currentPoint (traverse p)).
Proof.
  split.
  - intros p s. rewrite traverse_snoc. destruct s; reflexivity.
  - intros p. rewrite traverse_snoc. reflexivity.
Qed.

(** C6, as stated, fails: after [M1,2 L3,4 Z] the current point of the
    walk is (3,4), not the coordinate (1,2) of the move-to. *)
Lemma close_path_keeps_current_point :
  currentPoint (traverse [Cmd.M (Fin 1) (Fin 2); Cmd.L (Fin 3) (Fin 4); Cmd.Z])
  = (Fin 3, Fin 4) /\
  specCurrentPoint [Cmd.M (Fin 1) (Fin 2); Cmd.L (Fin 3) (Fin 4); Cmd.Z]
  = (Fin 1, Fin 2) /\
  currentPoint (traverse [Cmd.M (Fin 1) (Fin 2); Cmd.L (Fin 3) (Fin 4); Cmd.Z])
  <> specCurrentPoint [Cmd.M (Fin 1) (Fin 2); Cmd.L (Fin 3) (Fin 4); Cmd.Z].
Proof.
  split; [reflexivity |]. split; [reflexivity |].
  vm_compute. discriminate.
Qed.

(** ** Worked examples with the reader and the printer *)

Import PathText.

Lemma length_append (a b : string) :
  String.length (a ++ b)%string = (String.length a + String.length b)%nat.
Proof. induction a as [| c a IH]; simpl; [reflexivity | now rewrite IH]. Qed.

Lemma string_of_uint_not_empty (u : Decimal.uint) :
  (1 <= String.length (NilZero.string_of_uint u))%nat.
Proof. destruct u; simpl; lia. Qed.

Lemma printNumber_not_empty (x : number) :
  (1 <= String.length (printNumber x))%nat.
Proof.
  destruct x as [| | a |]; [simpl; lia | simpl; lia | | simpl; lia].
  unfold printNumber.
  match goal with
  | |- context [dropZeros ?k ?n] => destruct (dropZeros k n) as [k' f]
  end.
  rewrite !length_append.
  match goal with
  | |- context [NilZero.string_of_uint ?u] =>
      pose proof (string_of_uint_not_empty u)
  end.
  lia.
Qed.

Lemma printPair_length (x y : number) :
  (3 <= String.length (printPair x y))%nat.
Proof.
  unfold printPair. rewrite !length_append.
  pose proof (printNumber_not_empty x). pose proof (printNumber_not_empty y).
  simpl. lia.
Qed.

(** C9, as stated, fails: [M5,5 L5,5] decomposes into two segments, a
    move-to and a line-to, and is normalised to [M0.5,0.5], which is
    not the printed form of any path made of a move-to and a
    line-to. *)
Lemma single_point_drops_segments :
  ~ keepsKinds readPath printPath "M5,5 L5,5".
Proof.
  intros H.
  destruct (H [Cmd.M (Fin 5) (Fin 5); Cmd.L (Fin 5) (Fin 5)] eq_refl)
    as (out & E & K).
  assert (N : normalizePathTo01 readPath printPath "M5,5 L5,5"
              = "M0.5,0.5"%string) by (vm_compute; reflexivity).
  rewrite N in E. clear N H.
  destruct out as [| s1 [| s2 [| s3 out]]]; try discriminate K.
  destruct s1; try discriminate K. destruct s2; try discriminate K.
  apply (f_equal String.length) in E.
  unfold printPath in E. cbn [map String.concat printSegment] in E.
  rewrite !length_append in E.
  pose proof (printPair_length x y). pose proof (printPair_length x0 y0).
  simpl in E. lia.
Qed.

(** ** The theorems at concrete paths *)

Lemma normalizePathTo01_single_point_witness :
  trim "M5,5 L5,5" <> EmptyString /\
  readPath "M5,5 L5,5" = Some [Cmd.M (Fin 5) (Fin 5); Cmd.L (Fin 5) (Fin 5)] /\
  normalizePathTo01 readPath printPath "M5,5 L5,5" = "M0.5,0.5"%string.
Proof.
  assert (Hs : trim "M5,5 L5,5" <> EmptyString) by (vm_compute; discriminate).
  split; [exact Hs |]. split; [reflexivity |].
  exact (normalizePathTo01_single_point readPath printPath "M5,5 L5,5"
           [Cmd.M (Fin 5) (Fin 5); Cmd.L (Fin 5) (Fin 5)]
           Hs eq_refl eq_refl eq_refl).
Defined.

Lemma normalizePathTo01_blank_witness :
  whitespaceOnly "   " = true /\
  normalizePathTo01 readPath printPath "   " = "   "%string.
Proof.
  split; [reflexivity |].
  apply (normalizePathTo01_blank readPath printPath "   ").
  right. left. reflexivity.
Defined.

Lemma normalizePathTo01_idempotent_witness :
  trim "M0,0 L1,0.25 L0.5,1 Z" <> EmptyString /\
  readPath "M0,0 L1,0.25 L0.5,1 Z" = Some unitTriangle /\
  calculateBounds unitTriangle = mkBounds (Fin 0) (Fin 0) (Fin 1) (Fin 1) /\
  exists out,
    normalizePathTo01 readPath printPath "M0,0 L1,0.25 L0.5,1 Z"
    = printPath out /\
    Forall2 (within tolerance) (xs unitTriangle) (xs out) /\
    Forall2 (within tolerance) (ys unitTriangle) (ys out).
Proof.
  assert (Hs : trim "M0,0 L1,0.25 L0.5,1 Z" <> EmptyString)
    by (vm_compute; discriminate).
  split; [exact Hs |]. split; [reflexivity |]. split; [reflexivity |].
  destruct (normalizePathTo01_idempotent readPath printPath
              "M0,0 L1,0.25 L0.5,1 Z" unitTriangle
              Hs eq_refl eq_refl eq_refl
              (Qeq_refl 0) (Qeq_refl 0) (Qeq_refl 1) (Qeq_refl 1))
    as (out & E & _ & X & Y & _).
  exists out. repeat split; assumption.
Defined.

Lemma normalizePathTo01_keeps_kinds_witness :
  trim "M0,7 L30,7" <> EmptyString /\
  readPath "M0,7 L30,7" = Some [Cmd.M (Fin 0) (Fin 7); Cmd.L (Fin 30) (Fin 7)] /\
  keepsKinds readPath printPath "M0,7 L30,7".
Proof.
  assert (Hs : trim "M0,7 L30,7" <> EmptyString) by (vm_compute; discriminate).
  split; [exact Hs |]. split; [reflexivity |].
  apply (normalizePathTo01_keeps_kinds readPath printPath "M0,7 L30,7"
           [Cmd.M (Fin 0) (Fin 7); Cmd.L (Fin 30) (Fin 7)] Hs eq_refl).
  - discriminate.
  - reflexivity.
Defined.

(** ** Shapes *)

(** Case analysis on a comparison of rationals in the goal. *)
Ltac split_le :=
  match goal with
  | |- context [Qle_bool ?a ?b] =>
      let E := fresh "E" in
      destruct (Qle_bool a b) eqn:E;
      [apply Qle_bool_iff in E
      | assert (b < a)
          by (destruct (Qlt_le_dec b a) as [? | F];
              [assumption | apply Qle_bool_iff in F; congruence]);
        clear E]
  end.

(** The box of the segments of a rectangle of non-negative width and
    height is the rectangle. *)
Lemma rect_box (x y w h : Q) :
  0 <= w -> 0 <= h ->
  let b := calculateBounds (rectSegments (Fin x) (Fin y) (Fin w) (Fin h)) in
  (minX b =~ Fin x)%js /\ (minY b =~ Fin y)%js /\
  (maxX b =~ Fin (x + w))%js /\ (maxY b =~ Fin (y + h))%js.
Proof.
  intros Hw Hh. cbv zeta. unfold calculateBounds, traverse, rectSegments.
  cbn [fold_left visit box minX minY maxX maxY walk_start JS.add].
  repeat (cbn [Math_min Math_max]; split_le).
  all: cbn [Math_min Math_max JS.equiv]; repeat split; lra.
Qed.

(** Left unexpanded, the two arcs of a circle contribute their end
    points only: the box of the segments of [circleToPath] has no
    height.  The normaliser never computes this box, since [unarc()]
    replaces the arcs by curves first. *)
Lemma circle_box_unexpanded (cx cy r : Q) :
  0 <= r ->
  let b := calculateBounds (circleSegments (Fin cx) (Fin cy) (Fin r)) in
  (minX b =~ Fin (cx - r))%js /\ (maxX b =~ Fin (cx + r))%js /\
  (minY b =~ Fin cy)%js /\ (maxY b =~ Fin cy)%js.
Proof.
  intros Hr. cbv zeta. unfold calculateBounds, traverse, circleSegments.
  cbn [fold_left visit box minX minY maxX maxY walk_start JS.add JS.sub JS.neg].
  repeat (cbn [Math_min Math_max]; split_le).
  all: cbn [Math_min Math_max JS.equiv]; repeat split; lra.
Qed.

(** The rectangle scenario of the specification. *)
Example rect_scenario :
  shapeToPath printNumber
    (elementOf "rect" [("x", "0"); ("y", "0"); ("width", "50"); ("height", "50")])
  = Return (Some "M0,0 L50,0 L50,50 L0,50 Z")%string
  /\ readPath "M0,0 L50,0 L50,50 L0,50 Z"
     = Some (rectSegments (Fin 0) (Fin 0) (Fin 50) (Fin 50))
  /\ calculateBounds (rectSegments (Fin 0) (Fin 0) (Fin 50) (Fin 50))
     = mkBounds (Fin 0) (Fin 0) (Fin 50) (Fin 50)
  /\ normalizePathTo01 readPath printPath "M0,0 L50,0 L50,50 L0,50 Z"
     = "M0,0 L1,0 L1,1 L0,1 Z"%string.
Proof. repeat split; vm_compute; reflexivity. Qed.

Example circle_scenario :
  shapeToPath printNumber (elementOf "circle" [("cx", "10"); ("r", "2.5")])
  = Return (Some "M7.5,0 A2.5,2.5 0 1,0 12.5,0 A2.5,2.5 0 1,0 7.5,0 Z")%string.
Proof. vm_compute. reflexivity. Qed.

(** * Further properties of the code *)

(** ** [calculateBounds] on whole paths *)

Lemma equiv_refl (v : number) : (v =~ v)%js.
Proof. destruct v; simpl; auto. apply Qeq_refl. Qed.

Lemma Math_min_of_nil_or_Fin (l : list number) :
  forallb isFinite l = true ->
  (l = [] /\ Math_min_of l = PInf) \/ exists lo hi, extent l lo hi.
Proof.
  intros Hfin. destruct l as [| x l]; [left; auto |].
  right. apply extent_of_finite; [exact Hfin | discriminate].
Qed.

Lemma extent_ordered (l : list number) (lo hi : Q) :
  extent l lo hi -> lo <= hi.
Proof.
  intros E. destruct (extent_bounds _ _ _ E lo (extent_lo_in _ _ _ E)). assumption.
Qed.

(** X1. The box of a path with finite coordinates is tight on them: on
    an axis that has a coordinate, the minimum and the maximum are
    finite, each is a coordinate of the path (control points count as
    coordinates), the minimum is not above the maximum, and every
    coordinate of that axis lies between the two. *)
Theorem calculateBounds_encloses (p : list segment) :
  (forallb isFinite (xs p) = true -> xs p <> [] ->
   exists lo hi,
     minX (calculateBounds p) = Fin lo /\ maxX (calculateBounds p) = Fin hi /\
     lo <= hi /\ In (Fin lo) (xs p) /\ In (Fin hi) (xs p) /\
     forall q, In (Fin q) (xs p) -> lo <= q <= hi) /\
  (forallb isFinite (ys p) = true -> ys p <> [] ->
   exists lo hi,
     minY (calculateBounds p) = Fin lo /\ maxY (calculateBounds p) = Fin hi /\
     lo <= hi /\ In (Fin lo) (ys p) /\ In (Fin hi) (ys p) /\
     forall q, In (Fin q) (ys p) -> lo <= q <= hi).
Proof.
  destruct (calculateBounds_extent p) as (E1 & E2 & E3 & E4).
  split; intros Hfin Hne.
  - destruct (extent_of_finite _ Hfin Hne) as (lo & hi & E).
    exists lo, hi. rewrite E1, E2.
    split; [apply (extent_min _ _ _ E) |]. split; [apply (extent_max _ _ _ E) |].
    split; [apply (extent_ordered _ _ _ E) |].
    split; [apply (extent_lo_in _ _ _ E) |].
    split; [apply (extent_hi_in _ _ _ E) | apply (extent_bounds _ _ _ E)].
  - destruct (extent_of_finite _ Hfin Hne) as (lo & hi & E).
    exists lo, hi. rewrite E3, E4.
    split; [apply (extent_min _ _ _ E) |]. split; [apply (extent_max _ _ _ E) |].
    split; [apply (extent_ordered _ _ _ E) |].
    split; [apply (extent_lo_in _ _ _ E) |].
    split; [apply (extent_hi_in _ _ _ E) | apply (extent_bounds _ _ _ E)].
Qed.

Lemma calculateBounds_encloses_witness :
  forallb isFinite (xs rectangle) = true /\ xs rectangle <> [] /\
  exists lo hi,
    minX (calculateBounds rectangle) = Fin lo /\
    maxX (calculateBounds rectangle) = Fin hi /\ lo <= hi.
Proof.
  split; [reflexivity |]. split; [discriminate |].
  destruct (proj1 (calculateBounds_encloses rectangle) eq_refl)
    as (lo & hi & H1 & H2 & H3 & _); [discriminate |].
  exists lo, hi. auto.
Defined.

(** X2. On an axis for which the path has no coordinate at all (an
    empty path, close-paths only, vertical lines only for x, horizontal
    lines only for y) the box keeps the values it starts from,
    [Infinity] and [-Infinity], and its extent is [-Infinity]: neither
    zero nor positive. *)
Theorem calculateBounds_no_coordinate (p : list segment) :
  (xs p = [] ->
   minX (calculateBounds p) = PInf /\ maxX (calculateBounds p) = NInf /\
   width (calculateBounds p) = NInf) /\
  (ys p = [] ->
   minY (calculateBounds p) = PInf /\ maxY (calculateBounds p) = NInf /\
   height (calculateBounds p) = NInf).
Proof.
  destruct (calculateBounds_extent p) as (E1 & E2 & E3 & E4).
  unfold width, height. rewrite E1, E2, E3, E4.
  split; intros ->; repeat split; reflexivity.
Qed.

Lemma calculateBounds_no_coordinate_witness :
  xs [Cmd.V (Fin 3); Cmd.Z] = [] /\
  minX (calculateBounds [Cmd.V (Fin 3); Cmd.Z]) = PInf /\
  maxX (calculateBounds [Cmd.V (Fin 3); Cmd.Z]) = NInf.
Proof.
  split; [reflexivity |].
  destruct (proj1 (calculateBounds_no_coordinate [Cmd.V (Fin 3); Cmd.Z]) eq_refl)
    as (H1 & H2 & _).
  split; assumption.
Defined.

Lemma extreme_unique (l : list number) (lo hi lo' hi' : Q) :
  extent l lo hi ->
  In (Fin lo') l -> In (Fin hi') l ->
  (forall q, In (Fin q) l -> lo' <= q <= hi') ->
  lo == lo' /\ hi == hi'.
Proof.
  intros E Hlo Hhi Hb.
  destruct (extent_bounds _ _ _ E lo' Hlo), (extent_bounds _ _ _ E hi' Hhi).
  destruct (Hb lo (extent_lo_in _ _ _ E)), (Hb hi (extent_hi_in _ _ _ E)).
  split; apply Qle_antisym; assumption.
Qed.

Lemma Math_min_max_of_app (l1 l2 : list number) :
  forallb isFinite l1 = true -> forallb isFinite l2 = true ->
  (Math_min_of (l1 ++ l2) =~ Math_min (Math_min_of l1) (Math_min_of l2))%js /\
  (Math_max_of (l1 ++ l2) =~ Math_max (Math_max_of l1) (Math_max_of l2))%js.
Proof.
  intros H1 H2.
  destruct l1 as [| x1 l1].
  { cbn [app]. change (Math_min_of []) with PInf. change (Math_max_of []) with NInf.
    destruct l2 as [| x2 l2]; [split; exact I |].
    destruct (extent_of_finite _ H2) as (lo & hi & E); [discriminate |].
    rewrite (extent_min _ _ _ E), (extent_max _ _ _ E).
    split; apply Qeq_refl. }
  destruct (extent_of_finite _ H1) as (lo1 & hi1 & E1); [discriminate |].
  destruct l2 as [| x2 l2].
  { rewrite app_nil_r, (extent_min _ _ _ E1), (extent_max _ _ _ E1).
    split; apply Qeq_refl. }
  destruct (extent_of_finite _ H2) as (lo2 & hi2 & E2); [discriminate |].
  assert (H12 : forallb isFinite ((x1 :: l1) ++ x2 :: l2) = true)
    by (rewrite forallb_app, H1, H2; reflexivity).
  destruct (extent_of_finite _ H12) as (lo & hi & E); [discriminate |].
  rewrite (extent_min _ _ _ E), (extent_max _ _ _ E),
    (extent_min _ _ _ E1), (extent_max _ _ _ E1),
    (extent_min _ _ _ E2), (extent_max _ _ _ E2).
  destruct (Math_min_Fin lo1 lo2) as (m & -> & Hm & Hm1 & Hm2).
  destruct (Math_max_Fin hi1 hi2) as (n & -> & Hn & Hn1 & Hn2).
  cbn [JS.equiv].
  refine (extreme_unique _ lo hi m n E _ _ _).
  - apply in_or_app. destruct Hm as [-> | ->];
      [left; apply (extent_lo_in _ _ _ E1) | right; apply (extent_lo_in _ _ _ E2)].
  - apply in_or_app. destruct Hn as [-> | ->];
      [left; apply (extent_hi_in _ _ _ E1) | right; apply (extent_hi_in _ _ _ E2)].
  - intros q Hq. apply in_app_or in Hq as [Hq | Hq].
    + destruct (extent_bounds _ _ _ E1 q Hq).
      split; [apply (Qle_trans _ lo1) | apply (Qle_trans _ hi1)]; assumption.
    + destruct (extent_bounds _ _ _ E2 q Hq).
      split; [apply (Qle_trans _ lo2) | apply (Qle_trans _ hi2)]; assumption.
Qed.

Lemma finitePath_axes (p : list segment) :
  finitePath p = true ->
  forallb isFinite (xs p) = true /\ forallb isFinite (ys p) = true.
Proof. unfold finitePath. intros H. apply andb_prop in H. exact H. Qed.

(** X3. The box of two paths put end to end is the least box around
    the boxes of the two: each minimum is the lesser of the two minima
    and each maximum the greater of the two maxima, for paths with
    finite coordinates, an empty axis counting for nothing. *)
Theorem calculateBounds_app (p q : list segment) :
  finitePath p = true -> finitePath q = true ->
  sameBox (calculateBounds (p ++ q))
          (unionBox (calculateBounds p) (calculateBounds q)).
Proof.
  intros Hp Hq.
  destruct (finitePath_axes p Hp) as [Hpx Hpy].
  destruct (finitePath_axes q Hq) as [Hqx Hqy].
  destruct (calculateBounds_extent (p ++ q)) as (A1 & A2 & A3 & A4).
  destruct (calculateBounds_extent p) as (B1 & B2 & B3 & B4).
  destruct (calculateBounds_extent q) as (C1 & C2 & C3 & C4).
  unfold sameBox, unionBox. cbn [minX minY maxX maxY].
  rewrite A1, A2, A3, A4, B1, B2, B3, B4, C1, C2, C3, C4, xs_app, ys_app.
  destruct (Math_min_max_of_app (xs p) (xs q) Hpx Hqx) as [X1 X2].
  destruct (Math_min_max_of_app (ys p) (ys q) Hpy Hqy) as [Y1 Y2].
  repeat split; assumption.
Qed.

Lemma calculateBounds_app_witness :
  finitePath rectangle = true /\ finitePath unitTriangle = true /\
  sameBox (calculateBounds (rectangle ++ unitTriangle))
          (unionBox (calculateBounds rectangle) (calculateBounds unitTriangle)).
Proof.
  split; [reflexivity |]. split; [reflexivity |].
  exact (calculateBounds_app rectangle unitTriangle eq_refl eq_refl).
Defined.

Lemma Math_min_max_of_perm (l l' : list number) :
  Permutation l l' -> forallb isFinite l = true ->
  (Math_min_of l =~ Math_min_of l')%js /\ (Math_max_of l =~ Math_max_of l')%js.
Proof.
  intros P Hfin.
  assert (Hfin' : forallb isFinite l' = true).
  { rewrite forallb_forall in *. intros x Hx. apply Hfin.
    apply (Permutation_in x (Permutation_sym P) Hx). }
  destruct l as [| x l].
  { rewrite (Permutation_nil P). split; exact I. }
  destruct l' as [| x' l'].
  { apply Permutation_sym, Permutation_nil in P. discriminate. }
  destruct (extent_of_finite _ Hfin) as (lo & hi & E); [discriminate |].
  destruct (extent_of_finite _ Hfin') as (lo' & hi' & E'); [discriminate |].
  rewrite (extent_min _ _ _ E), (extent_max _ _ _ E),
    (extent_min _ _ _ E'), (extent_max _ _ _ E').
  cbn [JS.equiv].
  refine (extreme_unique _ lo hi lo' hi' E _ _ _).
  - apply (Permutation_in _ (Permutation_sym P)), (extent_lo_in _ _ _ E').
  - apply (Permutation_in _ (Permutation_sym P)), (extent_hi_in _ _ _ E').
  - intros q Hq. apply (extent_bounds _ _ _ E').
    apply (Permutation_in _ P Hq).
Qed.

(** X4. The box does not depend on the order of the segments: two
    paths with finite coordinates made of the same segments in any
    order have the same box. *)
Theorem calculateBounds_order (p q : list segment) :
  Permutation p q -> finitePath p = true ->
  sameBox (calculateBounds p) (calculateBounds q).
Proof.
  intros P Hp. destruct (finitePath_axes p Hp) as [Hpx Hpy].
  destruct (calculateBounds_extent p) as (B1 & B2 & B3 & B4).
  destruct (calculateBounds_extent q) as (C1 & C2 & C3 & C4).
  unfold sameBox. rewrite B1, B2, B3, B4, C1, C2, C3, C4.
  destruct (Math_min_max_of_perm (xs p) (xs q)
              (Permutation_flat_map xs_of P) Hpx) as [X1 X2].
  destruct (Math_min_max_of_perm (ys p) (ys q)
              (Permutation_flat_map ys_of P) Hpy) as [Y1 Y2].
  repeat split; assumption.
Qed.

Lemma calculateBounds_order_witness :
  Permutation rectangle (rev rectangle) /\ finitePath rectangle = true /\
  sameBox (calculateBounds rectangle) (calculateBounds (rev rectangle)).
Proof.
  split; [apply Permutation_rev |]. split; [reflexivity |].
  exact (calculateBounds_order rectangle (rev rectangle)
           (Permutation_rev rectangle) eq_refl).
Defined.

(** ** Strings and alternate elements *)

Lemma append_assoc (a b c : string) :
  ((a ++ b) ++ c)%string = (a ++ (b ++ c))%string.
Proof. induction a as [| x a IH]; simpl; [reflexivity | now rewrite IH]. Qed.


(** ** [shapeToPath] *)

Section ShapeProperties.

Variable numberToString : number -> string.

(** X11. [shapeToPath] raises only for a polygon or polyline without a
    [points] attribute, answers [null] only for a tag it does not know
    or for a path without [d], and every text it builds itself, for a
    circle, a rectangle, an ellipse, a polygon or a polyline, starts
    with the command [M]. *)
Theorem shapeToPath_outcomes (e : element) :
  let tag := toLowerCase (tagName e) in
  (shapeToPath numberToString e = Throw <->
   (tag = "polygon" \/ tag = "polyline")%string /\
   getAttribute e "points" = None) /\
  (shapeToPath numberToString e = Return None <->
   (tag = "path"%string /\ getAttribute e "d" = None) \/
   ~ In tag ["path"; "circle"; "rect"; "ellipse"; "polygon"; "polyline"]%string) /\
  (forall d, shapeToPath numberToString e = Return (Some d) ->
             tag <> "path"%string -> exists rest, d = String "M" rest).
Proof.
  cbv zeta. unfold shapeToPath.
  destruct (String.eqb_spec (toLowerCase (tagName e)) "path") as [-> | N1].
  { split; [| split].
    - split; [discriminate |]. intros [[H | H] _]; discriminate H.
    - split.
      + intros [= H]. left. auto.
      + intros [[_ H] | H]; [rewrite H; reflexivity |].
        exfalso. apply H. simpl. auto.
    - intros d _ H. congruence. }
  destruct (String.eqb_spec (toLowerCase (tagName e)) "circle") as [E2 | N2].
  { rewrite E2. split; [| split].
    - split; [discriminate |]. intros [[H | H] _]; discriminate H.
    - split; [discriminate |]. intros [[H _] | H]; [discriminate H |].
      exfalso. apply H. simpl. auto.
    - intros d [= <-] _. eexists. reflexivity. }
  destruct (String.eqb_spec (toLowerCase (tagName e)) "rect") as [E3 | N3].
  { rewrite E3. split; [| split].
    - split; [discriminate |]. intros [[H | H] _]; discriminate H.
    - split; [discriminate |]. intros [[H _] | H]; [discriminate H |].
      exfalso. apply H. simpl. auto.
    - intros d [= <-] _. eexists. reflexivity. }
  destruct (String.eqb_spec (toLowerCase (tagName e)) "ellipse") as [E4 | N4].
  { rewrite E4. split; [| split].
    - split; [discriminate |]. intros [[H | H] _]; discriminate H.
    - split; [discriminate |]. intros [[H _] | H]; [discriminate H |].
      exfalso. apply H. simpl. auto.
    - intros d [= <-] _. eexists. reflexivity. }
  destruct (String.eqb_spec (toLowerCase (tagName e)) "polygon") as [E5 | N5].
  { rewrite E5. cbn [orb].
    destruct (getAttribute e "points") as [text |]; split; [| split | | split].
    - split; [discriminate |]. intros [_ H]. discriminate H.
    - split; [discriminate |]. intros [[H _] | H]; [discriminate H |].
      exfalso. apply H. simpl. auto 10.
    - intros d [= <-] _. eexists. reflexivity.
    - split; auto.
    - split; [discriminate |]. intros [[H _] | H]; [discriminate H |].
      exfalso. apply H. simpl. auto 10.
    - intros d H. discriminate H. }
  destruct (String.eqb_spec (toLowerCase (tagName e)) "polyline") as [E6 | N6].
  { rewrite E6. cbn [orb].
    destruct (getAttribute e "points") as [text |]; split; [| split | | split].
    - split; [discriminate |]. intros [_ H]. discriminate H.
    - split; [discriminate |]. intros [[H _] | H]; [discriminate H |].
      exfalso. apply H. simpl. auto 10.
    - intros d [= <-] _. eexists. reflexivity.
    - split; auto.
    - split; [discriminate |]. intros [[H _] | H]; [discriminate H |].
      exfalso. apply H. simpl. auto 10.
    - intros d H. discriminate H. }
  cbn [orb]. split; [| split].
  - split; [discriminate |]. intros [[H | H] _]; contradiction.
  - split; [| reflexivity]. intros _. right.
    simpl. intros [H | [H | [H | [H | [H | [H | []]]]]]]; congruence.
  - intros d H. discriminate H.
Qed.

(** X12. A polygon is the polyline of the same points, closed: for the
    same attributes the text of a polygon is the text of the polyline
    followed by [ Z], and the two raise or not together. *)
Theorem shapeToPath_polygon (attributes : string -> option string) :
  shapeToPath numberToString (mkElement "polygon" attributes)
  = match shapeToPath numberToString (mkElement "polyline" attributes) with
    | Return (Some d) => Return (Some (d ++ " Z")%string)
    | other => other
    end.
Proof.
  unfold shapeToPath. cbn [tagName getAttribute].
  change (toLowerCase "polygon") with "polygon"%string.
  change (toLowerCase "polyline") with "polyline"%string.
  cbn [String.eqb Ascii.eqb Bool.eqb orb andb].
  destruct (attributes "points"); reflexivity.
Qed.

Lemma append_nil_r (s : string) : (s ++ "")%string = s.
Proof. induction s as [| c s IH]; simpl; [reflexivity | now rewrite IH]. Qed.

Lemma lineToText_app (x y z : string) :
  (lineToText (x, y) ++ z)%string = (" L" ++ x ++ "," ++ y ++ z)%string.
Proof.
  unfold lineToText. cbn [fst snd append].
  rewrite append_assoc. reflexivity.
Qed.

Lemma lineTos_pairs (pairs : list (string * string)) :
  lineTos (flattenPairs pairs) = String.concat "" (map lineToText pairs).
Proof.
  induction pairs as [| [x y] pairs IH]; [reflexivity |].
  change (lineTos (flattenPairs ((x, y) :: pairs)))
    with (" L" ++ x ++ "," ++ y ++ lineTos (flattenPairs pairs))%string.
  rewrite IH, <- lineToText_app.
  destruct pairs as [| q pairs].
  - cbn [map String.concat]. apply append_nil_r.
  - reflexivity.
Qed.

(** X13. When the [points] of a polyline split into complete pairs, a
    first pair and [pairs], its text is a move to the first pair and
    one line-to per further pair, in order; no [undefined] is
    written. *)
Theorem shapeToPath_polyline_pairs
        (e : element) (text x0 y0 : string) (pairs : list (string * string)) :
  toLowerCase (tagName e) = "polyline"%string ->
  getAttribute e "points" = Some text ->
  splitPoints (trim text) EmptyString false = x0 :: y0 :: flattenPairs pairs ->
  shapeToPath numberToString e
  = Return (Some ("M" ++ x0 ++ "," ++ y0
                  ++ String.concat "" (map lineToText pairs))%string).
Proof.
  intros Htag Hpoints Hsplit. unfold shapeToPath.
  rewrite Htag, Hpoints, Hsplit.
  cbn [String.eqb Ascii.eqb Bool.eqb orb andb skipn pointAt nth].
  rewrite lineTos_pairs. reflexivity.
Qed.

End ShapeProperties.

Lemma shapeToPath_polyline_pairs_witness :
  splitPoints (trim " 1,2 3,4  5 , 6 ") EmptyString false
  = "1" :: "2" :: flattenPairs [("3", "4"); ("5", "6")]%string /\
  shapeToPath printNumber (elementOf "polyline" [("points", " 1,2 3,4  5 , 6 ")])
  = Return (Some "M1,2 L3,4 L5,6")%string.
Proof.
  split; [reflexivity |].
  exact (shapeToPath_polyline_pairs printNumber
           (elementOf "polyline" [("points", " 1,2 3,4  5 , 6 ")])
           " 1,2 3,4  5 , 6 " "1" "2" [("3", "4"); ("5", "6")]%string
           eq_refl eq_refl eq_refl).
Defined.

Lemma concat_cons (x : string) (l : list string) :
  String.concat "" (x :: l) = (x ++ String.concat "" l)%string.
Proof.
  destruct l as [| y l]; cbn [String.concat];
    [symmetry; apply append_nil_r | reflexivity].
Qed.

Lemma reverse_app (s acc : string) :
  reverse s acc = (reverse s EmptyString ++ acc)%string.
Proof.
  revert acc. induction s as [| c s IH]; intros acc; [reflexivity |].
  cbn [reverse]. rewrite (IH (String c acc)), (IH (String c EmptyString)).
  rewrite append_assoc. reflexivity.
Qed.

Lemma separatorFree_app (a b : string) :
  separatorFree (a ++ b) = separatorFree a && separatorFree b.
Proof.
  induction a as [| c a IH]; [reflexivity |].
  cbn [append separatorFree]. rewrite IH, andb_assoc. reflexivity.
Qed.

Lemma separatorFree_reverse (s : string) :
  separatorFree s = true -> separatorFree (reverse s EmptyString) = true.
Proof.
  induction s as [| c s IH]; [reflexivity |].
  cbn [separatorFree reverse]. intros H. apply andb_prop in H as [Hc Hs].
  rewrite reverse_app, separatorFree_app, (IH Hs).
  cbn [separatorFree]. rewrite Hc. reflexivity.
Qed.

Lemma splitPoints_general (s : string) :
  forall piece inSeparator,
    separatorFree piece = true ->
    Forall (fun t => separatorFree t = true) (splitPoints s piece inSeparator) /\
    String.concat "" (splitPoints s piece inSeparator)
    = (reverse piece EmptyString ++ dropSeparators s)%string.
Proof.
  induction s as [| c s IH]; intros piece inSep Hp.
  - cbn [splitPoints dropSeparators String.concat]. split.
    + constructor; [apply separatorFree_reverse, Hp | constructor].
    + symmetry. apply append_nil_r.
  - cbn [splitPoints dropSeparators].
    destruct (isWhiteSpace c || (c =? ",")%char) eqn:Ec.
    + destruct inSep.
      * exact (IH piece true Hp).
      * destruct (IH EmptyString true eq_refl) as [HF HC]. split.
        -- constructor; [apply separatorFree_reverse, Hp | exact HF].
        -- rewrite concat_cons, HC. reflexivity.
    + assert (Hp' : separatorFree (String c piece) = true)
        by (cbn [separatorFree]; rewrite Ec, Hp; reflexivity).
      destruct (IH (String c piece) false Hp') as [HF HC]. split; [exact HF |].
      rewrite HC. cbn [reverse]. rewrite (reverse_app piece).
      rewrite append_assoc. reflexivity.
Qed.

(** X14. Splitting the [points] of a polygon loses nothing but the
    separators: no piece holds white space or a comma, and the pieces
    put together again are the text without its white space and
    commas. *)
Theorem splitPoints_pieces (s : string) :
  Forall (fun t => separatorFree t = true) (splitPoints s EmptyString false) /\
  String.concat "" (splitPoints s EmptyString false) = dropSeparators s.
Proof. exact (splitPoints_general s EmptyString false eq_refl). Qed.

(** ** [prettifySVG] *)

Lemma strip_app (a b : string) :
  stripWhiteSpace (a ++ b) = (stripWhiteSpace a ++ stripWhiteSpace b)%string.
Proof.
  induction a as [| c a IH]; [reflexivity |].
  cbn [append stripWhiteSpace]. rewrite IH.
  destruct (isWhiteSpace c); reflexivity.
Qed.

Lemma strip_cons (c : ascii) (a b : string) :
  stripWhiteSpace a = stripWhiteSpace b ->
  stripWhiteSpace (String c a) = stripWhiteSpace (String c b).
Proof. intros H. cbn [stripWhiteSpace]. now rewrite H. Qed.

Lemma strip_afterFirstGt (ins s s' : string) :
  stripWhiteSpace ins = EmptyString ->
  afterFirstGt ins s = Some s' -> stripWhiteSpace s' = stripWhiteSpace s.
Proof.
  intros Hins. revert s'. induction s as [| c s IH]; intros s'; [discriminate |].
  cbn [afterFirstGt]. destruct (c =? ">")%char.
  - intros [= <-]. apply strip_cons. rewrite strip_app, Hins. reflexivity.
  - destruct (afterFirstGt ins s) as [t |]; [| discriminate].
    intros [= <-]. apply strip_cons. apply IH. reflexivity.
Qed.

Lemma strip_insertAfterOpenTag (tag ins s : string) :
  stripWhiteSpace ins = EmptyString ->
  stripWhiteSpace (insertAfterOpenTag tag ins s) = stripWhiteSpace s.
Proof.
  intros Hins. induction s as [| c s IH]; [reflexivity |].
  cbn [insertAfterOpenTag]. destruct (prefix tag (String c s)).
  - destruct (afterFirstGt ins (String c s)) as [t |] eqn:E; [| reflexivity].
    exact (strip_afterFirstGt ins _ _ Hins E).
  - apply strip_cons, IH.
Qed.

Lemma strip_insertBefore (lit ins s : string) :
  stripWhiteSpace ins = EmptyString ->
  stripWhiteSpace (insertBefore lit ins s) = stripWhiteSpace s.
Proof.
  intros Hins. induction s as [| c s IH]; [reflexivity |].
  cbn [insertBefore]. destruct (prefix lit (String c s)).
  - rewrite strip_app, Hins. reflexivity.
  - apply strip_cons, IH.
Qed.

Lemma strip_insertAfterPathTags (all : bool) (ins s : string) :
  stripWhiteSpace ins = EmptyString ->
  forall pending enabled,
    stripWhiteSpace (insertAfterPathTags all ins s pending enabled)
    = stripWhiteSpace s.
Proof.
  intros Hins. induction s as [| c s IH]; intros pending enabled; [reflexivity |].
  cbn [insertAfterPathTags].
  destruct (match pending with
            | O => if enabled
                   then match pathTagLength (String c s) with
                        | Some n => n
                        | None => O
                        end
                   else O
            | Datatypes.S _ => pending
            end) as [| [| left]].
  - apply strip_cons, IH.
  - apply strip_cons. rewrite strip_app, Hins. apply IH.
  - apply strip_cons, IH.
Qed.

Lemma blankRun_white (s : string) : whitePrefix (blankRun s) s = true.
Proof.
  induction s as [| c s IH]; [reflexivity |].
  cbn [blankRun]. destruct (isWhiteSpace c) eqn:Ec; [| reflexivity].
  destruct (blankRun s) as [| n].
  - destruct (isLineTerminator c); [| reflexivity].
    cbn [whitePrefix]. rewrite Ec. destruct s; reflexivity.
  - cbn [whitePrefix] in *. rewrite Ec. exact IH.
Qed.

Lemma strip_removeBlankLines (s : string) :
  forall lineStart drop,
    whitePrefix drop s = true ->
    stripWhiteSpace (removeBlankLines s lineStart drop) = stripWhiteSpace s.
Proof.
  induction s as [| c s IH]; intros lineStart drop Hdrop; [reflexivity |].
  cbn [removeBlankLines]. destruct drop as [| k].
  - assert (Hkeep : stripWhiteSpace
                      (String c (removeBlankLines s (isLineTerminator c) 0))
                    = stripWhiteSpace (String c s))
      by (apply strip_cons, IH; destruct s; reflexivity).
    destruct lineStart; [| exact Hkeep].
    pose proof (blankRun_white (String c s)) as Hw.
    destruct (blankRun (String c s)) as [| n]; [exact Hkeep |].
    cbn [whitePrefix] in Hw. apply andb_prop in Hw as [Hc Hn].
    cbn [stripWhiteSpace]. rewrite Hc. apply IH, Hn.
  - cbn [whitePrefix] in Hdrop. apply andb_prop in Hdrop as [Hc Hk].
    cbn [stripWhiteSpace]. rewrite Hc. apply IH, Hk.
Qed.

(** X15. [prettifySVG] changes nothing but white space: its result and
    its argument are the same text once white space is taken out. *)
Theorem prettifySVG_white_space_only (svgString : string) :
  stripWhiteSpace (prettifySVG svgString) = stripWhiteSpace svgString.
Proof.
  unfold prettifySVG.
  rewrite strip_removeBlankLines by reflexivity.
  rewrite !strip_insertBefore by reflexivity.
  rewrite strip_insertAfterPathTags by reflexivity.
  rewrite !strip_insertAfterOpenTag by reflexivity.
  reflexivity.
Qed.

Lemma insertAfterPathTags_nothing (all : bool) (s : string) :
  forall pending enabled,
    insertAfterPathTags all EmptyString s pending enabled = s.
Proof.
  induction s as [| c s IH]; intros pending enabled; [reflexivity |].
  cbn [insertAfterPathTags].
  destruct (match pending with
            | O => if enabled
                   then match pathTagLength (String c s) with
                        | Some n => n
                        | None => O
                        end
                   else O
            | Datatypes.S _ => pending
            end) as [| [| left]]; cbn [append]; now rewrite IH.
Qed.

(** X16. [prettifySVG] of [App.vue] changes nothing but white space
    either, and its replacement of the first self-closing path tag by
    itself has no effect: the function is the other four replacements
    and the removal of blank lines. *)
Theorem App_prettifySVG_white_space_only (svgString : string) :
  stripWhiteSpace (App.prettifySVG svgString) = stripWhiteSpace svgString /\
  App.prettifySVG svgString
  = removeBlankLines
      (insertBefore "</svg>" lineFeed
         (insertBefore "</clipPath>" (lineFeed ++ "  ")
            (insertAfterOpenTag "<clipPath" (lineFeed ++ "    ")
               (insertAfterOpenTag "<svg" (lineFeed ++ "  ") svgString))))
      true 0.
Proof.
  unfold App.prettifySVG. rewrite insertAfterPathTags_nothing.
  split; [| reflexivity].
  rewrite strip_removeBlankLines by reflexivity.
  rewrite !strip_insertBefore by reflexivity.
  rewrite !strip_insertAfterOpenTag by reflexivity.
  reflexivity.
Qed.


(** ** The document *)

Lemma node_induction (P : node -> Prop) :
  (forall name attributes children,
      Forall P children -> P (Elem name attributes children)) ->
  (forall text, P (Leaf text)) ->
  forall n, P n.
Proof.
  intros HE HL. fix IH 1. intros [name attributes children | text].
  - apply HE. induction children as [| c rest IHrest].
    + constructor.
    + constructor; [apply IH | exact IHrest].
  - apply HL.
Qed.

Lemma filter_map_comm {A B : Type} (p : B -> bool) (q : A -> bool)
      (f : A -> B) (l : list A) :
  (forall a, p (f a) = q a) ->
  filter p (map f l) = map f (filter q l).
Proof.
  intros H. induction l as [| a l IH]; cbn; [reflexivity |].
  rewrite H. destruct (q a); cbn; rewrite IH; reflexivity.
Qed.

Lemma flat_map_map {A B C : Type} (f : A -> B) (g : B -> list C)
      (l : list A) :
  flat_map g (map f l) = flat_map (fun a => g (f a)) l.
Proof.
  induction l as [| a l IH]; cbn; [reflexivity | rewrite IH; reflexivity].
Qed.

Lemma flat_map_map_out {A B C : Type} (f : B -> C) (g : A -> list B)
      (l : list A) :
  flat_map (fun a => map f (g a)) l = map f (flat_map g l).
Proof.
  induction l as [| a l IH]; cbn; [reflexivity |].
  rewrite IH, map_app. reflexivity.
Qed.

Lemma flat_map_Forall_ext {A B : Type} (f g : A -> list B) (l : list A) :
  Forall (fun a => f a = g a) l -> flat_map f l = flat_map g l.
Proof.
  induction 1 as [| a l Ha _ IH]; cbn; [reflexivity |].
  rewrite Ha, IH. reflexivity.
Qed.

Lemma map_Forall_ext {A B : Type} (f g : A -> B) (l : list A) :
  Forall (fun a => f a = g a) l -> map f l = map g l.
Proof.
  induction 1 as [| a l Ha _ IH]; cbn; [reflexivity |].
  rewrite Ha, IH. reflexivity.
Qed.

Lemma hd_error_app_some {A : Type} (l l' : list A) (a : A) :
  hd_error l = Some a -> hd_error (l ++ l') = Some a.
Proof. destruct l; [discriminate | trivial]. Qed.

Lemma hd_error_In {A : Type} (l : list A) (a : A) :
  hd_error l = Some a -> In a l.
Proof. destruct l; [discriminate |]. intros [= ->]. left. reflexivity. Qed.

(** *** Attributes *)

Lemma lookup_setAttribute (k v : string) (attributes : list (string * string)) :
  lookup k (setAttribute k v attributes) = Some v.
Proof.
  unfold lookup.
  induction attributes as [| [k' v'] rest IH]; cbn.
  - rewrite String.eqb_refl. reflexivity.
  - destruct (k' =? k)%string eqn:E; cbn; rewrite E; [reflexivity | exact IH].
Qed.




(** *** Selectors *)

Lemma querySelectorAll_named (names : list string) (n e : node) :
  In e (querySelectorAll names n) ->
  existsb (fun name => named name e) names = true.
Proof. unfold querySelectorAll. intros H. apply filter_In in H. apply H. Qed.

Lemma querySelector_named (name : string) (n e : node) :
  querySelector name n = Some e -> named name e = true.
Proof.
  intros H. apply hd_error_In, querySelectorAll_named in H.
  cbn in H. rewrite orb_false_r in H. exact H.
Qed.

Lemma querySelectorAll_one (name : string) (n : node) :
  querySelectorAll [name] n
  = filter (named name) (flat_map elements (childrenOf n)).
Proof.
  unfold querySelectorAll. apply filter_ext. intros e. cbn.
  apply orb_false_r.
Qed.

Lemma elements_onPaths change (n : node) :
  elements (onPaths change n) = map (onPaths change) (elements n).
Proof.
  induction n as [name attributes children IH | text] using node_induction;
    [| reflexivity].
  cbn. f_equal. rewrite flat_map_map.
  rewrite (flat_map_Forall_ext _ _ _ IH).
  apply flat_map_map_out.
Qed.

Lemma named_onPaths change name (n : node) :
  named name (onPaths change n) = named name n.
Proof. destruct n; reflexivity. Qed.


Lemma skeleton_onPaths change (n : node) :
  skeleton (onPaths change n) = skeleton n.
Proof.
  induction n as [name attributes children IH | text] using node_induction;
    [| reflexivity].
  cbn. f_equal. rewrite map_map. apply map_Forall_ext, IH.
Qed.

Lemma querySelectorAll_onPaths change names name attributes attributes'
      children :
  querySelectorAll names
    (Elem name attributes (map (onPaths change) children))
  = map (onPaths change)
        (querySelectorAll names (Elem name attributes' children)).
Proof.
  unfold querySelectorAll. cbn [childrenOf].
  rewrite flat_map_map.
  rewrite (flat_map_Forall_ext _ (fun a => map (onPaths change) (elements a))).
  - rewrite flat_map_map_out. apply filter_map_comm.
    intros a. induction names as [| k names IH]; cbn; [reflexivity |].
    rewrite named_onPaths, IH. reflexivity.
  - apply Forall_forall. intros a _. apply elements_onPaths.
Qed.

(** *** The first element of a name *)

Lemma changeFirst_none_from name f (l : list node) :
  Forall (fun n => updateFirst name f n = None ->
                   filter (named name) (elements n) = []) l ->
  changeFirst (updateFirst name f) l = None ->
  filter (named name) (flat_map elements l) = [].
Proof.
  induction 1 as [| n l Hn _ IH]; cbn; [reflexivity |].
  destruct (updateFirst name f n) as [n' |]; [discriminate |].
  destruct (changeFirst (updateFirst name f) l); [discriminate |].
  intros _. rewrite filter_app, (Hn eq_refl), (IH eq_refl). reflexivity.
Qed.

Lemma updateFirst_none name f (n : node) :
  updateFirst name f n = None -> filter (named name) (elements n) = [].
Proof.
  induction n as [name' attributes children IH | text] using node_induction;
    [| reflexivity].
  cbn. destruct (name' =? name)%string; [discriminate |].
  destruct (changeFirst (updateFirst name f) children) eqn:E; [discriminate |].
  intros _. apply (changeFirst_none_from name f); assumption.
Qed.

Lemma changeFirst_none name f (l : list node) :
  changeFirst (updateFirst name f) l = None ->
  filter (named name) (flat_map elements l) = [].
Proof.
  apply changeFirst_none_from, Forall_forall.
  intros n _. apply updateFirst_none.
Qed.

Lemma changeFirst_some_from name f (l l' : list node) :
  Forall (fun n => forall n',
              updateFirst name f n = Some n' ->
              updated name f (elements n) (elements n')
              /\ ((forall e, named name e = true ->
                             skeleton (f e) = skeleton e) ->
                  skeleton n' = skeleton n)) l ->
  changeFirst (updateFirst name f) l = Some l' ->
  updated name f (flat_map elements l) (flat_map elements l')
  /\ ((forall e, named name e = true -> skeleton (f e) = skeleton e) ->
      map skeleton l' = map skeleton l).
Proof.
  intros H. revert l'.
  induction H as [| c rest Hc _ IHrest]; intros l' E; [discriminate |].
  cbn in E. destruct (updateFirst name f c) as [c' |] eqn:U.
  - injection E as <-. destruct (Hc c' eq_refl) as [[e [H1 H2]] H3].
    split.
    + exists e. cbn. rewrite !filter_app. split.
      * apply hd_error_app_some, H1.
      * intros Hf. apply hd_error_app_some, H2, Hf.
    + intros Hs. cbn. rewrite (H3 Hs). reflexivity.
  - destruct (changeFirst (updateFirst name f) rest) as [rest' |] eqn:R;
      [| discriminate].
    injection E as <-.
    destruct (IHrest rest' eq_refl) as [[e [H1 H2]] H3].
    pose proof (updateFirst_none name f c U) as Z.
    split.
    + exists e. cbn. rewrite !filter_app, Z. cbn. split; assumption.
    + intros Hs. cbn. rewrite (H3 Hs). reflexivity.
Qed.

Lemma updateFirst_some name f (n n' : node) :
  updateFirst name f n = Some n' ->
  updated name f (elements n) (elements n')
  /\ ((forall e, named name e = true -> skeleton (f e) = skeleton e) ->
      skeleton n' = skeleton n).
Proof.
  revert n'.
  induction n as [name' attributes children IH | text] using node_induction;
    [| discriminate].
  intros n'. cbn [updateFirst].
  destruct (name' =? name)%string eqn:N.
  - intros [= <-]. split.
    + exists (Elem name' attributes children). cbn. rewrite N. split.
      * reflexivity.
      * intros Hf. destruct (f (Elem name' attributes children)) eqn:F;
          [| discriminate]. cbn in *. rewrite Hf. reflexivity.
    + intros Hs. apply Hs. cbn. exact N.
  - destruct (changeFirst (updateFirst name f) children) as [children' |] eqn:E;
      [| discriminate].
    intros [= <-].
    destruct (changeFirst_some_from name f children children' IH E)
      as [[e [H1 H2]] H3].
    split.
    + exists e. cbn. rewrite N. split; assumption.
    + intros Hs. cbn. rewrite (H3 Hs). reflexivity.
Qed.

(** With an element of the name below [svg], the first one is changed
    where it is: no element is added, moved or removed. *)
Lemma changeFirst_found name f svgName attributes children e :
  (forall e, named name e = true ->
             named name (f e) = true /\ skeleton (f e) = skeleton e) ->
  querySelector name (Elem svgName attributes children) = Some e ->
  exists children',
    changeFirst (updateFirst name f) children = Some children'
    /\ map skeleton children' = map skeleton children
    /\ querySelector name (Elem svgName [] children') = Some (f e).
Proof.
  intros Hf Q. unfold querySelector in *. rewrite querySelectorAll_one in *.
  cbn [childrenOf] in *.
  destruct (changeFirst (updateFirst name f) children) as [children' |] eqn:E.
  - exists children'. split; [reflexivity |].
    assert (F : Forall (fun n => forall n',
              updateFirst name f n = Some n' ->
              updated name f (elements n) (elements n')
              /\ ((forall e, named name e = true ->
                             skeleton (f e) = skeleton e) ->
                  skeleton n' = skeleton n)) children).
    { apply Forall_forall. intros n _ n'. apply updateFirst_some. }
    destruct (changeFirst_some_from name f children children' F E)
      as [[e' [H1 H2]] H3].
    rewrite H1 in Q. injection Q as ->. split.
    + apply H3. intros e0 H0. apply Hf, H0.
    + rewrite querySelectorAll_one. cbn [childrenOf]. apply H2.
      apply Hf. apply hd_error_In, filter_In in H1. apply H1.
  - rewrite (changeFirst_none name f children E) in Q. discriminate.
Qed.




Lemma clipPath_finished change (finish : node -> node) (e : node) :
  (forall name attributes children,
      finish (Elem name attributes children)
      = Elem name attributes (map (onPaths change) children)) ->
  named "clipPath" e = true ->
  named "clipPath" (finish (withUnits e)) = true
  /\ skeleton (finish (withUnits e)) = skeleton e
  /\ lookup "clipPathUnits" (attributesOf (finish (withUnits e)))
     = Some "objectBoundingBox"%string
  /\ querySelectorAll ["path"] (finish (withUnits e))
     = map (onPaths change) (querySelectorAll ["path"] e).
Proof.
  intros F.
  destruct e as [name attributes children | text]; [| discriminate].
  cbn [withUnits]. rewrite F. cbn. intros N. repeat split.
  - exact N.
  - f_equal. rewrite map_map. apply map_Forall_ext, Forall_forall.
    intros n _. apply skeleton_onPaths.
  - apply lookup_setAttribute.
  - exact (querySelectorAll_onPaths change ["path"] name attributes attributes
                                    children).
Qed.

Section ConverterProperties.

Variable decompose : string -> option (list segment).
Variable toString : list segment -> string.
Variable parseFromString : string -> node.
Variable serializeToString : node -> string.


Lemma convertSvg_found name attributes children clipPath :
  querySelector "clipPath" (Elem name attributes children) = Some clipPath ->
  exists children',
    changeFirst
      (updateFirst "clipPath"
         (fun e => finishClipPath decompose toString (withUnits e)))
      children = Some children'
    /\ convertSvg decompose toString (Elem name attributes children)
       = Done (Elem name [] children').
Proof.
  intros Q.
  assert (Hf : forall e, named "clipPath" e = true ->
                         named "clipPath"
                               (finishClipPath decompose toString (withUnits e))
                         = true
                         /\ skeleton (finishClipPath decompose toString
                                                     (withUnits e))
                            = skeleton e).
  { intros e He.
    destruct (clipPath_finished (normalizePath decompose toString)
                                (finishClipPath decompose toString) e
                                (fun _ _ _ => eq_refl) He)
      as [H1 [H2 _]]. split; assumption. }
  destruct (changeFirst_found "clipPath" _ name attributes children clipPath
                              Hf Q) as [children' [E _]].
  exists children'. split; [exact E |].
  unfold convertSvg.
  change (querySelector "clipPath" (Elem name [] children))
    with (querySelector "clipPath" (Elem name attributes children)).
  rewrite Q, E. reflexivity.
Qed.



(** X19. How [convertToNormalizedClipPath] of [part_000] ends: with
    the error [Invalid SVG content] exactly when the document has no
    [svg] element, with [No path elements found in SVG] exactly when
    its [svg] element has neither a [clipPath] nor a path below it,
    and with a text otherwise; a drawing with a clip path is accepted
    even without any path. *)
Theorem convertToNormalizedClipPath_outcomes (svgString : string) :
  let doc := parseFromString (cleanSvgString svgString) in
  match convertToNormalizedClipPath decompose toString parseFromString
          serializeToString svgString with
  | Failed message =>
      (message = "Invalid SVG content"%string
       /\ querySelector "svg" doc = None)
      \/ (message = "No path elements found in SVG"%string
          /\ exists svg,
               querySelector "svg" doc = Some svg
               /\ querySelector "clipPath" svg = None
               /\ querySelectorAll ["path"] svg = [])
  | TypeError => False
  | Done _ =>
      exists svg,
        querySelector "svg" doc = Some svg
        /\ (querySelector "clipPath" svg <> None
            \/ querySelectorAll ["path"] svg <> [])
  end.
Proof.
  cbv zeta. unfold convertToNormalizedClipPath.
  destruct (querySelector "svg" (parseFromString (cleanSvgString svgString)))
    as [svg |] eqn:S; [| left; split; reflexivity].
  pose proof (querySelector_named _ _ _ S) as N.
  destruct svg as [name attributes children | text]; [| discriminate].
  destruct (querySelector "clipPath" (Elem name attributes children))
    as [clipPath |] eqn:Q.
  - destruct (convertSvg_found name attributes children clipPath Q)
      as [children' [_ E]].
    rewrite E. eexists. split; [reflexivity |]. left. rewrite Q. discriminate.
  - unfold convertSvg.
    change (querySelector "clipPath" (Elem name [] children))
      with (querySelector "clipPath" (Elem name attributes children)).
    rewrite Q.
    change (querySelectorAll ["path"] (Elem name [] children))
      with (querySelectorAll ["path"] (Elem name attributes children)).
    destruct (querySelectorAll ["path"] (Elem name attributes children))
      as [| p ps] eqn:P; cbn [List.length Nat.eqb].
    + right. split; [reflexivity |]. eexists. repeat split; eauto.
    + eexists. split; [reflexivity |]. right. rewrite P. discriminate.
Qed.

End ConverterProperties.


(** ** The document in [App.vue] *)


Section AppConverterProperties.

Variable numberToString : number -> string.
Variable parseFromString : string -> node.
Variable serializeToString : node -> string.


(** The name of a shape that the conversion looks for. *)
Lemma shape_name (n : node) :
  existsb (fun name => named name n) App.shapeNames = true ->
  exists attributes children name,
    n = Elem name attributes children
    /\ In name App.shapeNames.
Proof.
  destruct n as [name attributes children | text]; [| discriminate].
  intros H. exists attributes, children, name. split; [reflexivity |].
  apply existsb_exists in H. destruct H as [k [Hk E]].
  apply String.eqb_eq in E. subst. exact Hk.
Qed.

(** What [shapeToPath] makes of the shapes that the conversion looks
    for: it raises on a polygon or polyline without [points], gives
    nothing for a path without [d] (or with an empty one), and path
    data in every other case. *)
Lemma shape_cases (n : node) :
  existsb (fun name => named name n) App.shapeNames = true ->
  (App.raises numberToString n = true
   /\ (named "polygon" n || named "polyline" n) = true
   /\ lookup "points" (attributesOf n) = None)
  \/ (App.raises numberToString n = false
      /\ ((named "polygon" n || named "polyline" n) = true ->
          lookup "points" (attributesOf n) <> None)
      /\ (App.pathDataOf numberToString n = [] ->
          named "path" n = true
          /\ truthy (lookup "d" (attributesOf n)) = [])).
Proof.
  intros H. destruct (shape_name n H) as [attributes [children [name [-> I]]]].
  unfold App.raises, App.pathDataOf, shapeToPath.
  cbn in I.
  destruct I as [<- | [<- | [<- | [<- | [<- | [<- | []]]]]]];
    cbn [asElement tagName getAttribute];
    match goal with
    | |- context [toLowerCase ?s] =>
        let v := eval vm_compute in (toLowerCase s) in
        change (toLowerCase s) with v
    end;
    cbn -[truthy circleToPath ellipseToPath rectPath splitPoints trim lineTos
          pointAt numericAttribute lookup].
  - right. repeat split; [discriminate | auto].
  - right. repeat split; [discriminate | discriminate | discriminate].
  - right. repeat split; [discriminate | discriminate | discriminate].
  - right. repeat split; [discriminate | discriminate | discriminate].
  - destruct (lookup "points" attributes) as [text |] eqn:E.
    + right. repeat split; [discriminate | discriminate | discriminate].
    + left. repeat split.
  - destruct (lookup "points" attributes) as [text |] eqn:E.
    + right. repeat split; [discriminate | discriminate | discriminate].
    + left. repeat split.
Qed.


(** No shape raises when every polygon and polyline has its
    [points]. *)
Lemma no_shape_raises (shapes : list node) :
  Forall (fun shape =>
            existsb (fun name => named name shape) App.shapeNames = true)
         shapes ->
  (existsb (App.raises numberToString) shapes = false
   <-> Forall (fun shape =>
                 (named "polygon" shape || named "polyline" shape) = true ->
                 lookup "points" (attributesOf shape) <> None) shapes).
Proof.
  induction 1 as [| shape shapes Hs _ IH]; cbn.
  - split; [constructor | reflexivity].
  - destruct (shape_cases shape Hs) as [[R [K P]] | [R [K _]]]; rewrite R; cbn.
    + split; [discriminate |]. intros F. apply Forall_cons_iff in F.
      destruct F as [F _]. exfalso. apply (F K P).
    + rewrite IH. split.
      * intros F. constructor; assumption.
      * intros F. apply Forall_cons_iff in F. apply F.
Qed.

Lemma shapes_named (n : node) :
  Forall (fun shape =>
            existsb (fun name => named name shape) App.shapeNames = true)
         (querySelectorAll App.shapeNames n).
Proof. apply Forall_forall. intros e. apply querySelectorAll_named. Qed.

Lemma App_convertSvg_found name attributes children clipPath :
  querySelector "clipPath" (Elem name attributes children) = Some clipPath ->
  exists children',
    changeFirst
      (updateFirst "clipPath"
         (fun e => App.finishClipPath numberToString (withUnits e)))
      children = Some children'
    /\ App.convertSvg numberToString (Elem name attributes children)
       = Done (Elem name [] children').
Proof.
  intros Q.
  assert (Hf : forall e, named "clipPath" e = true ->
                         named "clipPath"
                               (App.finishClipPath numberToString (withUnits e))
                         = true
                         /\ skeleton (App.finishClipPath numberToString
                                                         (withUnits e))
                            = skeleton e).
  { intros e He.
    destruct (clipPath_finished (App.normalizePath numberToString)
                                (App.finishClipPath numberToString) e
                                (fun _ _ _ => eq_refl) He)
      as [H1 [H2 _]]. split; assumption. }
  destruct (changeFirst_found "clipPath" _ name attributes children clipPath
                              Hf Q) as [children' [E _]].
  exists children'. split; [exact E |].
  unfold App.convertSvg.
  change (querySelector "clipPath" (Elem name [] children))
    with (querySelector "clipPath" (Elem name attributes children)).
  rewrite Q, E. reflexivity.
Qed.


(** X21. How [convertToNormalizedClipPath] of [App.vue] ends: with
    the error [Invalid SVG content] exactly when the document has no
    [svg] element; with the [TypeError] of a call on [null] exactly
    when the [svg] element has no [clipPath] and has a polygon or a
    polyline without [points]; with a text otherwise.  The error
    [No path elements found in SVG] is never raised: a drawing without
    any shape gives a text. *)
Theorem App_convertToNormalizedClipPath_outcomes (svgString : string) :
  let doc := parseFromString (cleanSvgString svgString) in
  let complete svg :=
    Forall (fun shape =>
              (named "polygon" shape || named "polyline" shape) = true ->
              lookup "points" (attributesOf shape) <> None)
           (querySelectorAll App.shapeNames svg) in
  match App.convertToNormalizedClipPath numberToString parseFromString
          serializeToString svgString with
  | Failed message =>
      message = "Invalid SVG content"%string
      /\ querySelector "svg" doc = None
  | TypeError =>
      exists svg,
        querySelector "svg" doc = Some svg
        /\ querySelector "clipPath" svg = None
        /\ ~ complete svg
  | Done _ =>
      exists svg,
        querySelector "svg" doc = Some svg
        /\ (querySelector "clipPath" svg <> None \/ complete svg)
  end.
Proof.
  cbv zeta. unfold App.convertToNormalizedClipPath.
  destruct (querySelector "svg" (parseFromString (cleanSvgString svgString)))
    as [svg |] eqn:S; [| split; reflexivity].
  pose proof (querySelector_named _ _ _ S) as N.
  destruct svg as [name attributes children | text]; [| discriminate].
  destruct (querySelector "clipPath" (Elem name attributes children))
    as [clipPath |] eqn:Q.
  - destruct (App_convertSvg_found name attributes children clipPath Q)
      as [children' [_ E]].
    rewrite E. eexists. split; [reflexivity |]. left. rewrite Q. discriminate.
  - unfold App.convertSvg.
    change (querySelector "clipPath" (Elem name [] children))
      with (querySelector "clipPath" (Elem name attributes children)).
    rewrite Q.
    change (querySelectorAll App.shapeNames (Elem name [] children))
      with (querySelectorAll App.shapeNames (Elem name attributes children)).
    pose proof (no_shape_raises _ (shapes_named (Elem name attributes children)))
      as R.
    destruct (existsb (App.raises numberToString)
                      (querySelectorAll App.shapeNames
                                        (Elem name attributes children))).
    + eexists. split; [reflexivity |]. split; [exact Q |].
      intros C. apply R in C. discriminate.
    + eexists. split; [reflexivity |]. right. apply R. reflexivity.
Qed.


End AppConverterProperties.






(** The two drawings, converted. *)
Example convertSvg_drawing :
  convertSvg readPath printPath drawing
  = Done (Elem "svg" []
            [Elem "clipPath" [objectBoundingBox]
                  [Elem "path" [("d", "M0,0 L1,0 L1,1 Z")] []];
             Leaf " ";
             Elem "g" [("fill", "red")] [];
             Elem "circle" [("r", "5")] []]).
Proof. vm_compute. reflexivity. Qed.

Example App_convertSvg_clipped :
  App.convertSvg printNumber clipped
  = Done (Elem "svg" []
            [Elem "path" [("d", "M0,0 L4,4")] [];
             Elem "clipPath" [("id", "c"); objectBoundingBox]
                  [Elem "path"
                        [("d", "M0.000000,0.000000 L1.000000,0.000000 L1.000000,1.000000 Z");
                         ("fill", "red")] []]]).
Proof. vm_compute. reflexivity. Qed.

(** ** Cleaning the text of the file *)

Lemma occurs_tail (lit : string) (c : ascii) (s : string) :
  occurs lit (String c s) = false -> occurs lit s = false.
Proof. cbn [occurs]. intros H. apply orb_false_iff in H. apply H. Qed.

Lemma occurs_head (lit s : string) :
  occurs lit s = false -> prefix lit s = false.
Proof.
  destruct s; cbn [occurs]; [trivial |].
  intros H. apply orb_false_iff in H. apply H.
Qed.

Lemma occurs_dropChars (lit : string) (n : nat) (s : string) :
  occurs lit s = false -> occurs lit (dropChars n s) = false.
Proof.
  revert s. induction n as [| n IH]; intros s H; [destruct s; exact H |].
  destruct s as [| c s]; [exact H |]. cbn. apply IH.
  apply (occurs_tail lit c), H.
Qed.

Lemma closingEnd_none (close : string) (sameLine : bool) (s : string) :
  occurs close s = false -> closingEnd close sameLine s = None.
Proof.
  induction s as [| c s IH]; intros H; [reflexivity |].
  cbn [closingEnd]. rewrite (occurs_head _ _ H).
  destruct (sameLine && isLineTerminator c); [reflexivity |].
  rewrite (IH (occurs_tail _ _ _ H)). reflexivity.
Qed.

(** A text in which the opening or the closing of a section does not
    occur is left as it is. *)
Lemma removeDelimited_unchanged (open close : string) (sameLine : bool)
      (s : string) :
  occurs open s = false \/ occurs close s = false ->
  removeDelimited open close sameLine s 0 = s.
Proof.
  induction s as [| c s IH]; intros H; [reflexivity |].
  cbn [removeDelimited].
  assert (D : delimitedLength open close sameLine (String c s) = None).
  { unfold delimitedLength. destruct H as [H | H].
    - rewrite (occurs_head _ _ H). reflexivity.
    - destruct (prefix open (String c s)); [| reflexivity].
      rewrite (closingEnd_none close sameLine); [reflexivity |].
      apply occurs_dropChars, H. }
  rewrite D. f_equal. apply IH.
  destruct H as [H | H]; [left | right]; apply (occurs_tail _ c), H.
Qed.

(** X23. The cleaning of [convertToNormalizedClipPath] (both files)
    leaves the text as it is when, for each of the XML declaration,
    the [defs] sections and the comments, the opening or the closing
    does not occur in it: in particular an unterminated comment or
    [defs] section is not removed. *)
Theorem cleanSvgString_unchanged (svgString : string) :
  occurs "<?xml" svgString = false \/ occurs "?>" svgString = false ->
  occurs "<defs" svgString = false \/ occurs "</defs>" svgString = false ->
  occurs "<!--" svgString = false \/ occurs "-->" svgString = false ->
  cleanSvgString svgString = svgString.
Proof.
  intros H1 H2 H3. unfold cleanSvgString.
  rewrite (removeDelimited_unchanged "<?xml" "?>" true svgString H1).
  rewrite (removeDelimited_unchanged "<defs" "</defs>" false svgString H2).
  apply removeDelimited_unchanged, H3.
Qed.

Lemma cleanSvgString_unchanged_witness :
  cleanSvgString "<svg><!-- <path d='M0,0 L1,1'/></svg>"
  = "<svg><!-- <path d='M0,0 L1,1'/></svg>"%string.
Proof.
  apply cleanSvgString_unchanged;
    [left; reflexivity | left; reflexivity | right; reflexivity].
Defined.


(** * Properties of the binary64 embedding *)

(** ** Rounding *)

(** *** Powers of two *)
Lemma pow2_pos (e : Z) : 0 < Binary64.pow2 e.
Proof. apply Qpower_0_lt. reflexivity. Qed.

Lemma pow2_add (a b : Z) : Binary64.pow2 (a + b) == Binary64.pow2 a * Binary64.pow2 b.
Proof. apply Qpower_plus. discriminate. Qed.

Lemma pow2_le (a b : Z) : (a <= b)%Z -> Binary64.pow2 a <= Binary64.pow2 b.
Proof. intros H. apply Qpower_le_compat_l; [exact H | discriminate]. Qed.

Lemma pow2_lt_inv (a b : Z) : Binary64.pow2 a < Binary64.pow2 b -> (a < b)%Z.
Proof. intros H. apply (Qpower_lt_compat_l_inv 2); [exact H | reflexivity]. Qed.

Lemma pow2_Z (n : Z) : (0 <= n)%Z -> inject_Z (2 ^ n) == Binary64.pow2 n.
Proof. intros H. apply Zpower_Qpower, H. Qed.

Lemma pow2_succ (a : Z) : Binary64.pow2 (a + 1) == 2 * Binary64.pow2 a.
Proof. rewrite pow2_add. unfold Binary64.pow2 at 2. rewrite Qpower_1_r. ring. Qed.

Lemma ilog2_spec (q : Q) :
  0 < q -> Binary64.pow2 (Binary64.ilog2 q) <= q /\ q < Binary64.pow2 (Binary64.ilog2 q + 1).
Proof.
  intros Hq. destruct q as [n d]. unfold Binary64.ilog2. cbn [Qnum Qden].
  assert (Hn : (0 < n)%Z) by (unfold Qlt in Hq; cbn in Hq; lia).
  set (ln := Z.log2 n). set (ld := Z.log2 (Z.pos d)).
  destruct (Z.log2_spec n Hn) as [N1 N2]. fold ln in N1, N2.
  destruct (Z.log2_spec (Z.pos d) (Pos2Z.is_pos d)) as [D1 D2]. fold ld in D1, D2.
  assert (Ln : (0 <= ln)%Z) by apply Z.log2_nonneg.
  assert (Ld : (0 <= ld)%Z) by apply Z.log2_nonneg.
  assert (A1 : Binary64.pow2 ln <= inject_Z n).
  { rewrite <- pow2_Z by exact Ln. rewrite <- Zle_Qle. exact N1. }
  assert (A2 : inject_Z n < Binary64.pow2 (ln + 1)).
  { rewrite <- pow2_Z by lia. rewrite <- Zlt_Qlt. exact N2. }
  assert (B1 : Binary64.pow2 ld <= inject_Z (Z.pos d)).
  { rewrite <- pow2_Z by exact Ld. rewrite <- Zle_Qle. exact D1. }
  assert (B2 : inject_Z (Z.pos d) < Binary64.pow2 (ld + 1)).
  { rewrite <- pow2_Z by lia. rewrite <- Zlt_Qlt. exact D2. }
  rewrite pow2_succ in A2, B2.
  assert (E : n # d == inject_Z n / inject_Z (Z.pos d)) by apply Qmake_Qdiv.
  assert (Dp : 0 < inject_Z (Z.pos d)) by reflexivity.
  pose proof (pow2_pos ln) as Pn. pose proof (pow2_pos ld) as Pd.
  assert (P : forall e, (e = ln - ld)%Z -> Binary64.pow2 e * Binary64.pow2 ld == Binary64.pow2 ln).
  { intros e ->. rewrite <- pow2_add. replace (ln - ld + ld)%Z with ln by lia.
    reflexivity. }
  destruct (Qle_bool (Binary64.pow2 (ln - ld)) (n # d)) eqn:T.
  - apply Qle_bool_iff in T. split; [exact T |].
    rewrite pow2_succ, E. apply Qlt_shift_div_r; [exact Dp |].
    pose proof (P _ eq_refl) as P0.
    set (x := Binary64.pow2 (ln - ld)) in *. 
    assert (X : 0 < x) by apply pow2_pos.
    nra.
  - assert (T' : n # d < Binary64.pow2 (ln - ld)).
    { apply Qnot_le_lt. intros C. apply Qle_bool_iff in C. congruence. }
    replace (ln - ld - 1 + 1)%Z with (ln - ld)%Z by lia.
    split; [| exact T'].
    rewrite E. apply Qle_shift_div_l; [exact Dp |].
    assert (P1 : Binary64.pow2 (ln - ld - 1) * (2 * Binary64.pow2 ld) == Binary64.pow2 ln).
    { rewrite <- pow2_succ, <- pow2_add.
      replace (ln - ld - 1 + (ld + 1))%Z with ln by lia. reflexivity. }
    set (x := Binary64.pow2 (ln - ld - 1)) in *.
    assert (X : 0 < x) by apply pow2_pos.
    nra.
Qed.

Lemma ilog2_mono (a b : Q) : 0 < a -> a <= b -> (Binary64.ilog2 a <= Binary64.ilog2 b)%Z.
Proof.
  intros Ha Hab.
  destruct (ilog2_spec a Ha) as [A1 _].
  destruct (ilog2_spec b) as [_ B2]; [lra |].
  assert (L : Binary64.pow2 (Binary64.ilog2 a) < Binary64.pow2 (Binary64.ilog2 b + 1)) by lra.
  apply pow2_lt_inv in L. lia.
Qed.

(** *** Rounding to an integer *)
Lemma roundHalfEven_error (q : Q) :
  inject_Z (Binary64.roundHalfEven q) - q <= 1 # 2 /\
  q - inject_Z (Binary64.roundHalfEven q) <= 1 # 2.
Proof.
  unfold Binary64.roundHalfEven.
  pose proof (Qfloor_le q) as F1. pose proof (Qlt_floor q) as F2.
  rewrite inject_Z_plus in F2. change (inject_Z 1) with 1 in F2.
  destruct (Qcompare_spec (q - inject_Z (Qfloor q)) (1 # 2)) as [E | L | G].
  - cbv iota. destruct (Z.even (Qfloor q)); rewrite ?inject_Z_plus;
      change (inject_Z 1) with 1; lra.
  - cbv iota. lra.
  - cbv iota. rewrite inject_Z_plus. change (inject_Z 1) with 1. lra.
Qed.

Lemma roundHalfEven_mono (a b : Q) :
  a <= b -> (Binary64.roundHalfEven a <= Binary64.roundHalfEven b)%Z.
Proof.
  intros Hab. unfold Binary64.roundHalfEven.
  pose proof (Qfloor_resp_le a b Hab) as F.
  pose proof (Qfloor_le a) as A1. pose proof (Qlt_floor a) as A2.
  pose proof (Qfloor_le b) as B1. pose proof (Qlt_floor b) as B2.
  rewrite inject_Z_plus in A2, B2. change (inject_Z 1) with 1 in A2, B2.
  destruct (Z.eq_dec (Qfloor a) (Qfloor b)) as [E | N].
  - rewrite E in *.
    destruct (Qcompare_spec (a - inject_Z (Qfloor b)) (1 # 2)) as [Ea | La | Ga];
      destruct (Qcompare_spec (b - inject_Z (Qfloor b)) (1 # 2)) as [Eb | Lb | Gb];
      cbv iota; try destruct (Z.even (Qfloor b)); try lia; exfalso; lra.
  - assert (F' : (Qfloor a + 1 <= Qfloor b)%Z) by lia.
    destruct (Qcompare (a - inject_Z (Qfloor a)) (1 # 2));
      destruct (Qcompare (b - inject_Z (Qfloor b)) (1 # 2));
      try destruct (Z.even (Qfloor a)); try destruct (Z.even (Qfloor b)); lia.
Qed.

Lemma roundHalfEven_Z (n : Z) : Binary64.roundHalfEven (inject_Z n) = n.
Proof.
  unfold Binary64.roundHalfEven. rewrite Qfloor_Z.
  destruct (Qcompare_spec (inject_Z n - inject_Z n) (1 # 2)) as [E | L | G];
    [exfalso; lra | reflexivity | exfalso; lra].
Qed.

(** *** Rounding of a positive number *)
Lemma ulpExponent_mono (a b : Q) :
  0 < a -> a <= b -> (Binary64.ulpExponent a <= Binary64.ulpExponent b)%Z.
Proof.
  intros Ha Hab. unfold Binary64.ulpExponent. pose proof (ilog2_mono a b Ha Hab). lia.
Qed.

Lemma nearestPositive_error (q : Q) :
  Binary64.nearestPositive q - q <= Binary64.pow2 (Binary64.ulpExponent q) * (1 # 2) /\
  q - Binary64.nearestPositive q <= Binary64.pow2 (Binary64.ulpExponent q) * (1 # 2).
Proof.
  unfold Binary64.nearestPositive; cbv zeta. set (e := Binary64.ulpExponent q).
  pose proof (pow2_pos e) as P.
  destruct (roundHalfEven_error (q / Binary64.pow2 e)) as [E1 E2].
  set (r := inject_Z (Binary64.roundHalfEven (q / Binary64.pow2 e))) in *.
  assert (D : q / Binary64.pow2 e * Binary64.pow2 e == q) by (field; lra).
  set (y := q / Binary64.pow2 e) in *. set (p := Binary64.pow2 e) in *.
  assert (M1 : (r - y) * p <= (1 # 2) * p)
    by (apply Qmult_le_compat_r; lra).
  assert (M2 : (y - r) * p <= (1 # 2) * p)
    by (apply Qmult_le_compat_r; lra).
  clearbody r y p. split; nra.
Qed.

Lemma below_top (q : Q) :
  0 < q -> q < Binary64.pow2 (Binary64.ulpExponent q + 53).
Proof.
  intros Hq. destruct (ilog2_spec q Hq) as [_ U].
  eapply Qlt_le_trans; [exact U |]. apply pow2_le. unfold Binary64.ulpExponent. lia.
Qed.

Lemma nearestPositive_le_top (q : Q) :
  0 < q -> Binary64.nearestPositive q <= Binary64.pow2 (Binary64.ulpExponent q + 53).
Proof.
  intros Hq. pose proof (below_top q Hq) as U.
  unfold Binary64.nearestPositive; cbv zeta. set (e := Binary64.ulpExponent q) in *.
  pose proof (pow2_pos e) as P.
  rewrite pow2_add in U |- *.
  assert (Y : q / Binary64.pow2 e <= inject_Z (2 ^ 53)).
  { rewrite pow2_Z by lia. apply Qle_shift_div_r; [exact P |]. lra. }
  apply roundHalfEven_mono in Y. rewrite roundHalfEven_Z in Y.
  rewrite Zle_Qle in Y. rewrite pow2_Z in Y by lia.
  set (r := inject_Z (Binary64.roundHalfEven (q / Binary64.pow2 e))) in *. clearbody r.
  rewrite (Qmult_comm (Binary64.pow2 e)). apply Qmult_le_compat_r; lra.
Qed.

Lemma nearestPositive_ge_bottom (q : Q) :
  0 < q -> (-1022 <= Binary64.ilog2 q)%Z ->
  Binary64.pow2 (Binary64.ulpExponent q + 52) <= Binary64.nearestPositive q.
Proof.
  intros Hq Hn. destruct (ilog2_spec q Hq) as [L _].
  unfold Binary64.nearestPositive, Binary64.ulpExponent in *; cbv zeta.
  replace (Z.max (Binary64.ilog2 q) (-1022)) with (Binary64.ilog2 q) by lia.
  replace (Binary64.ilog2 q - 52 + 52)%Z with (Binary64.ilog2 q) by lia.
  set (e := (Binary64.ilog2 q - 52)%Z).
  pose proof (pow2_pos e) as P.
  assert (S : Binary64.pow2 (Binary64.ilog2 q) == Binary64.pow2 52 * Binary64.pow2 e).
  { rewrite <- pow2_add. replace (52 + e)%Z with (Binary64.ilog2 q) by (unfold e; lia).
    reflexivity. }
  assert (Y : inject_Z (2 ^ 52) <= q / Binary64.pow2 e).
  { rewrite pow2_Z by lia. apply Qle_shift_div_l; [exact P |]. lra. }
  apply roundHalfEven_mono in Y. rewrite roundHalfEven_Z in Y.
  rewrite Zle_Qle in Y. rewrite pow2_Z in Y by lia.
  set (r := inject_Z (Binary64.roundHalfEven (q / Binary64.pow2 e))) in *. clearbody r.
  rewrite S. apply Qmult_le_compat_r; lra.
Qed.

Lemma nearestPositive_nonneg (q : Q) : 0 < q -> 0 <= Binary64.nearestPositive q.
Proof.
  intros Hq. unfold Binary64.nearestPositive; cbv zeta. set (e := Binary64.ulpExponent q).
  pose proof (pow2_pos e) as P.
  assert (Y : inject_Z 0 <= q / Binary64.pow2 e).
  { apply Qle_shift_div_l; [exact P |]. change (inject_Z 0) with 0. lra. }
  apply roundHalfEven_mono in Y. rewrite roundHalfEven_Z in Y.
  rewrite Zle_Qle in Y. change (inject_Z 0) with 0 in Y.
  apply Qmult_le_0_compat; lra.
Qed.

Lemma nearestPositive_mono (a b : Q) :
  0 < a -> a <= b -> Binary64.nearestPositive a <= Binary64.nearestPositive b.
Proof.
  intros Ha Hab. assert (Hb : 0 < b) by lra.
  pose proof (ulpExponent_mono a b Ha Hab) as E.
  destruct (Z.eq_dec (Binary64.ulpExponent a) (Binary64.ulpExponent b)) as [Eq | Ne].
  - unfold Binary64.nearestPositive; cbv zeta. rewrite Eq. set (e := Binary64.ulpExponent b).
    pose proof (pow2_pos e) as P.
    assert (Y : a / Binary64.pow2 e <= b / Binary64.pow2 e).
    { apply Qmult_le_compat_r; [exact Hab |]. apply Qinv_le_0_compat. lra. }
    apply roundHalfEven_mono in Y. rewrite Zle_Qle in Y.
    apply Qmult_le_compat_r; lra.
  - assert (Lt : (Binary64.ulpExponent a + 53 <= Binary64.ulpExponent b + 52)%Z) by lia.
    assert (Nb : (-1022 <= Binary64.ilog2 b)%Z).
    { unfold Binary64.ulpExponent in *. lia. }
    eapply Qle_trans; [apply nearestPositive_le_top, Ha |].
    eapply Qle_trans; [apply pow2_le, Lt |].
    apply nearestPositive_ge_bottom; assumption.
Qed.

(** *** Rounding of any number *)
Lemma nearest_mono (a b : Q) : a <= b -> Binary64.nearest a <= Binary64.nearest b.
Proof.
  intros Hab. unfold Binary64.nearest.
  destruct (Qcompare_spec 0 a) as [Ea | La | Ga];
    destruct (Qcompare_spec 0 b) as [Eb | Lb | Gb]; try (exfalso; lra).
  - lra.
  - apply nearestPositive_nonneg, Lb.
  - apply nearestPositive_mono; assumption.
  - pose proof (nearestPositive_nonneg (- a)). lra.
  - pose proof (nearestPositive_nonneg (- a)).
    pose proof (nearestPositive_nonneg b). lra.
  - pose proof (nearestPositive_mono (- b) (- a)). lra.
Qed.

Lemma fl_Fin (q r : Q) :
  Binary64.fl q = Fin r -> r == Binary64.nearest q /\ Qabs r < Binary64.pow2 1024.
Proof.
  unfold Binary64.fl.
  destruct (Qle_bool (Binary64.pow2 1024)
                     (Qabs (Qred (Binary64.nearest q)))) eqn:T.
  - destruct (Qle_bool 0 (Qred (Binary64.nearest q))); discriminate.
  - intros [= <-]. split; [apply Qred_correct |].
    apply Qnot_le_lt. intros C. apply Qle_bool_iff in C. congruence.
Qed.

Lemma fl_squeeze (lo hi q lo' hi' : Q) :
  lo <= q -> q <= hi -> Binary64.fl lo = Fin lo' -> Binary64.fl hi = Fin hi' ->
  exists r, Binary64.fl q = Fin r /\ lo' <= r /\ r <= hi'.
Proof.
  intros H1 H2 Flo Fhi.
  destruct (fl_Fin _ _ Flo) as [Elo Blo]. destruct (fl_Fin _ _ Fhi) as [Ehi Bhi].
  pose proof (nearest_mono _ _ H1) as M1. pose proof (nearest_mono _ _ H2) as M2.
  apply Qabs_Qlt_condition in Blo, Bhi.
  unfold Binary64.fl.
  pose proof (Qred_correct (Binary64.nearest q)) as R.
  destruct (Qle_bool (Binary64.pow2 1024) (Qabs (Qred (Binary64.nearest q)))) eqn:T.
  - exfalso. apply Qle_bool_iff in T.
    assert (B : Qabs (Qred (Binary64.nearest q)) < Binary64.pow2 1024).
    { apply Qabs_Qlt_condition. lra. }
    lra.
  - exists (Qred (Binary64.nearest q)). split; [reflexivity |]. lra.
Qed.

(** ** Arithmetic *)

Lemma fl_zero : Binary64.fl 0 = Fin 0.
Proof. vm_compute. reflexivity. Qed.

Lemma fl_one : Binary64.fl 1 = Fin 1.
Proof. vm_compute. reflexivity. Qed.

Lemma fl_half : Binary64.fl (1 # 2) = Fin (1 # 2).
Proof. vm_compute. reflexivity. Qed.

Lemma fl_belowOne : Binary64.fl Binary64.belowOne = Fin Binary64.belowOne.
Proof. vm_compute. reflexivity. Qed.

Lemma fl_aboveOne : Binary64.fl Binary64.aboveOne = Fin Binary64.aboveOne.
Proof. vm_compute. reflexivity. Qed.

(** A number between two numbers that round to the same double rounds
    to it too. *)
Lemma fl_pinned (q c c' : Q) :
  q == c -> Binary64.fl c = Fin c' -> exists r, Binary64.fl q = Fin r /\ r == c'.
Proof.
  intros E F.
  destruct (fl_squeeze c c q c' c') as (r & Hr & H1 & H2);
    [lra | lra | exact F | exact F |].
  exists r. split; [exact Hr | lra].
Qed.

Lemma fl_nonneg (q r : Q) : 0 <= q -> Binary64.fl q = Fin r -> 0 <= r.
Proof.
  intros Hq F. destruct (fl_Fin _ _ F) as [E _].
  pose proof (nearest_mono 0 q Hq) as M.
  change (Binary64.nearest 0) with 0 in M. lra.
Qed.

(** The reciprocal of a positive double, as the division computes it,
    is off by a relative error of [2^-51] at most. *)
Lemma reciprocal_close (w s : Q) :
  0 < w -> w < Binary64.pow2 1024 -> Binary64.fl (1 / w) = Fin s ->
  Binary64.belowOne <= w * s /\ w * s <= Binary64.aboveOne.
Proof.
  intros Hw Hr F. destruct (fl_Fin _ _ F) as [E _].
  set (y := 1 / w) in *.
  assert (Hy : 0 < y) by (apply Qlt_shift_div_l; lra).
  assert (Wy : w * y == 1) by (unfold y; field; lra).
  unfold Binary64.nearest in E.
  destruct (Qcompare_spec 0 y) as [C | C | C]; [exfalso; lra | | exfalso; lra].
  destruct (nearestPositive_error y) as [E1 E2].
  destruct (ilog2_spec y Hy) as [L _].
  set (n := Binary64.nearestPositive y) in *.
  set (u := Binary64.pow2 (Binary64.ulpExponent y)) in *.
  assert (U : u * w <= 1 # 1125899906842624).
  { unfold u, Binary64.ulpExponent.
    destruct (Z.max_spec (Binary64.ilog2 y) (-1022)) as [[_ ->] | [_ ->]].
    - assert (P : Binary64.pow2 (-1022 - 52) * Binary64.pow2 1024
                  == 1 # 1125899906842624).
      { rewrite <- pow2_add. vm_compute. reflexivity. }
      assert (P0 : 0 < Binary64.pow2 (-1022 - 52)) by apply pow2_pos.
      set (a := Binary64.pow2 (-1022 - 52)) in *.
      set (b := Binary64.pow2 1024) in *. clearbody a b.
      assert (M : a * w <= a * b).
      { rewrite !(Qmult_comm a). apply Qmult_le_compat_r; lra. }
      lra.
    - assert (P : Binary64.pow2 (Binary64.ilog2 y - 52)
                  == Binary64.pow2 (Binary64.ilog2 y) * (1 # 4503599627370496)).
      { replace (Binary64.ilog2 y - 52)%Z with (Binary64.ilog2 y + (-52))%Z by lia.
        rewrite pow2_add. apply Qmult_comp; [reflexivity |].
        vm_compute. reflexivity. }
      rewrite P.
      assert (P0 : 0 < Binary64.pow2 (Binary64.ilog2 y)) by apply pow2_pos.
      set (a := Binary64.pow2 (Binary64.ilog2 y)) in *. clearbody a.
      assert (M : a * w <= y * w).
      { apply Qmult_le_compat_r; lra. }
      clearbody y. nra. }
  clearbody u n y.
  assert (M1 : (n - y) * w <= (u * (1 # 2)) * w)
    by (apply Qmult_le_compat_r; lra).
  assert (M2 : (y - n) * w <= (u * (1 # 2)) * w)
    by (apply Qmult_le_compat_r; lra).
  assert (S : w * s == w * n) by (rewrite E; reflexivity).
  unfold Binary64.belowOne, Binary64.aboveOne.
  split; nra.
Qed.

(** ** Rounding at six decimal digits *)

Lemma toFixedQ_small (a : Q) :
  0 <= a -> a <= Binary64.aboveOne ->
  toFixedQ 6 a
  == inject_Z (Qfloor (a * inject_Z (pow10 6) + (1 # 2))) / inject_Z (pow10 6).
Proof.
  intros H0 H1. unfold toFixedQ, Binary64.aboveOne in *.
  assert (Hbig : Qle_bool (inject_Z (pow10 21)) (Qabs a) = false).
  { destruct (Qle_bool (inject_Z (pow10 21)) (Qabs a)) eqn:E; [| reflexivity].
    apply Qle_bool_iff in E. rewrite (Qabs_pos a H0) in E.
    assert (2 < inject_Z (pow10 21)) by reflexivity. lra. }
  rewrite Hbig.
  assert (Hpos : Qle_bool 0 a = true) by (apply Qle_bool_iff; exact H0).
  rewrite Hpos, (Qfloor_comp _ (a * inject_Z (pow10 6) + (1 # 2)))
    by (rewrite (Qabs_pos a H0); reflexivity).
  reflexivity.
Qed.

Lemma toFixedQ_near_unit (a : Q) :
  0 <= a -> a <= Binary64.aboveOne ->
  0 <= toFixedQ 6 a /\ toFixedQ 6 a <= 1 /\
  (a == 0 -> toFixedQ 6 a == 0) /\
  (Binary64.belowOne <= a -> toFixedQ 6 a == 1).
Proof.
  intros H0 H1. rewrite (toFixedQ_small a H0 H1).
  unfold Binary64.aboveOne, Binary64.belowOne in *.
  change (inject_Z (pow10 6)) with 1000000.
  set (n := Qfloor (a * 1000000 + (1 # 2))).
  pose proof (Qfloor_le (a * 1000000 + (1 # 2))) as Hle.
  pose proof (Qlt_floor (a * 1000000 + (1 # 2))) as Hlt.
  fold n in Hle, Hlt. rewrite inject_Z_plus in Hlt.
  change (inject_Z 1) with 1 in Hlt.
  assert (Hn0 : (0 <= n)%Z).
  { change 0%Z with (Qfloor 0). apply Qfloor_resp_le. lra. }
  assert (Hn1 : (n <= 1000000)%Z).
  { assert (L : inject_Z n < inject_Z (1000000 + 1)).
    { change (inject_Z (1000000 + 1)) with 1000001. lra. }
    rewrite <- Zlt_Qlt in L. lia. }
  pose proof Hn0 as Q0. pose proof Hn1 as Q1.
  rewrite Zle_Qle in Q0, Q1. change (inject_Z 0) with 0 in Q0.
  change (inject_Z 1000000) with 1000000 in Q1.
  split; [apply Qle_shift_div_l; lra |].
  split; [apply Qle_shift_div_r; lra |].
  split.
  - intros E.
    assert (L : inject_Z n < inject_Z 1).
    { change (inject_Z 1) with 1. lra. }
    rewrite <- Zlt_Qlt in L.
    replace n with 0%Z by lia. reflexivity.
  - intros B.
    assert (L : inject_Z (1000000 - 1) < inject_Z n).
    { change (inject_Z (1000000 - 1)) with 999999. lra. }
    rewrite <- Zlt_Qlt in L.
    replace n with 1000000%Z by lia. reflexivity.
Qed.

Lemma toFixedQ_half (a : Q) : a == 1 # 2 -> toFixedQ 6 a == 1 # 2.
Proof. intros E. rewrite (toFixedQ_comp 6 a (1 # 2) E). reflexivity. Qed.

(** ** The coordinate maps *)

(** The distance of a coordinate from the least one of its axis. *)
Lemma offset_value (lo hi a w : Q) :
  lo <= a -> a <= hi ->
  Binary64.sub (Fin hi) (Fin lo) = Fin w ->
  exists t, Binary64.sub (Fin a) (Fin lo) = Fin t /\
            0 <= t /\ t <= w /\ (a == lo -> t == 0) /\ (a == hi -> t == w).
Proof.
  intros H1 H2 W. change (Binary64.fl (hi + - lo) = Fin w) in W.
  change (Binary64.sub (Fin a) (Fin lo)) with (Binary64.fl (a + - lo)).
  destruct (fl_squeeze 0 (hi + - lo) (a + - lo) 0 w)
    as (t & T & T1 & T2); [lra | lra | exact fl_zero | exact W |].
  exists t. split; [exact T |]. split; [exact T1 |]. split; [exact T2 |].
  split; intros E.
  - destruct (fl_pinned (a + - lo) 0 0) as (r & R & Er);
      [lra | exact fl_zero |]. congruence.
  - destruct (fl_pinned (a + - lo) (hi + - lo) w) as (r & R & Er);
      [lra | exact W |]. congruence.
Qed.

Lemma extent_finite (w : Q) (x y : number) :
  Binary64.sub x y = Fin w -> Qabs w < Binary64.pow2 1024.
Proof.
  destruct x as [| | a |], y as [| | b |]; try discriminate.
  intros F. apply (fl_Fin _ _ F).
Qed.

(** The offset times the reciprocal of the extent. *)
Lemma scaled_value (lo hi a w s : Q) :
  lo <= a -> a <= hi ->
  Binary64.sub (Fin hi) (Fin lo) = Fin w -> 0 < w ->
  Binary64.div one (Fin w) = Fin s ->
  exists v, Binary64.mul (Binary64.sub (Fin a) (Fin lo)) (Fin s) = Fin v /\
            0 <= v /\ v <= Binary64.aboveOne /\
            (a == lo -> v == 0) /\ (a == hi -> Binary64.belowOne <= v).
Proof.
  intros H1 H2 W Hw S.
  pose proof (extent_finite _ _ _ W) as Bw.
  rewrite (Qabs_pos w) in Bw by lra.
  unfold Binary64.div, one in S.
  assert (Z0 : Qeq_bool w 0 = false).
  { destruct (Qeq_bool w 0) eqn:E; [| reflexivity].
    apply Qeq_bool_iff in E. lra. }
  rewrite Z0 in S.
  assert (Hs : 0 <= s).
  { apply (fl_nonneg (1 / w)); [| exact S].
    apply Qlt_le_weak, Qlt_shift_div_l; lra. }
  destruct (reciprocal_close w s Hw Bw S) as [R1 R2].
  destruct (offset_value lo hi a w H1 H2 W) as (t & T & T0 & T1 & Tlo & Thi).
  rewrite T. change (Binary64.mul (Fin t) (Fin s)) with (Binary64.fl (t * s)).
  assert (M : t * s <= w * s) by (apply Qmult_le_compat_r; lra).
  assert (M0 : 0 <= t * s) by (apply Qmult_le_0_compat; lra).
  destruct (fl_squeeze 0 Binary64.aboveOne (t * s) 0 Binary64.aboveOne)
    as (v & V & V0 & V1); [lra | lra | exact fl_zero | exact fl_aboveOne |].
  exists v. split; [exact V |]. split; [exact V0 |]. split; [exact V1 |].
  split; intros E.
  - destruct (fl_pinned (t * s) 0 0) as (r & R & Er);
      [rewrite (Tlo E); ring | exact fl_zero |]. congruence.
  - assert (Ets : t * s == w * s) by (rewrite (Thi E); reflexivity).
    destruct (fl_squeeze Binary64.belowOne Binary64.aboveOne (t * s)
                         Binary64.belowOne Binary64.aboveOne)
      as (r & R & R0 & _);
      [lra | lra | exact fl_belowOne | exact fl_aboveOne |].
    congruence.
Qed.

(** The last step of [round]: a value next to the unit interval is
    taken into it. *)
Lemma rounded_unit (v : Q) :
  0 <= v -> v <= Binary64.aboveOne ->
  exists r, Binary64.toFixed 6 (Fin v) = Fin r /\
            0 <= r /\ r <= 1 /\
            (v == 0 -> r == 0) /\ (Binary64.belowOne <= v -> r == 1).
Proof.
  intros H0 H1. cbn [Binary64.toFixed].
  destruct (toFixedQ_near_unit v H0 H1) as (D0 & D1 & Dz & Do).
  destruct (fl_squeeze 0 1 (toFixedQ 6 v) 0 1)
    as (r & R & R0 & R1); [exact D0 | exact D1 | exact fl_zero | exact fl_one |].
  exists r. split; [exact R |]. split; [exact R0 |]. split; [exact R1 |].
  split; intros E.
  - destruct (fl_pinned (toFixedQ 6 v) 0 0) as (r' & R' & Er);
      [exact (Dz E) | exact fl_zero |]. congruence.
  - destruct (fl_pinned (toFixedQ 6 v) 1 1) as (r' & R' & Er);
      [exact (Do E) | exact fl_one |]. congruence.
Qed.

(** A translation by zero. *)
Lemma plus_zero (v : Q) :
  0 <= v -> v <= Binary64.aboveOne ->
  exists v', Binary64.add (Fin v) zero = Fin v' /\
             0 <= v' /\ v' <= Binary64.aboveOne /\
             (v == 0 -> v' == 0) /\
             (Binary64.belowOne <= v -> Binary64.belowOne <= v').
Proof.
  intros H0 H1. change (Binary64.add (Fin v) zero) with (Binary64.fl (v + 0)).
  destruct (fl_squeeze 0 Binary64.aboveOne (v + 0) 0 Binary64.aboveOne)
    as (r & R & R0 & R1); [lra | lra | exact fl_zero | exact fl_aboveOne |].
  exists r. split; [exact R |]. split; [exact R0 |]. split; [exact R1 |].
  split; intros E.
  - destruct (fl_pinned (v + 0) 0 0) as (r' & R' & Er);
      [lra | exact fl_zero |]. congruence.
  - destruct (fl_squeeze Binary64.belowOne Binary64.aboveOne (v + 0)
                         Binary64.belowOne Binary64.aboveOne)
      as (r' & R' & R0' & _);
      [lra | lra | exact fl_belowOne | exact fl_aboveOne |].
    congruence.
Qed.

(** What the normaliser does to a coordinate of an axis of positive
    extent, without and with the translation by zero that follows the
    scaling in the branches for a line. *)
Lemma toUnit_range (lo hi a w s : Q) :
  lo <= a -> a <= hi ->
  Binary64.sub (Fin hi) (Fin lo) = Fin w -> 0 < w ->
  Binary64.div one (Fin w) = Fin s ->
  exists r, Binary64.toUnit (Fin lo) (Fin w) (Fin a) = Fin r /\
            0 <= r /\ r <= 1 /\ (a == lo -> r == 0) /\ (a == hi -> r == 1).
Proof.
  intros H1 H2 W Hw S. unfold Binary64.toUnit. rewrite S.
  destruct (scaled_value lo hi a w s H1 H2 W Hw S)
    as (v & -> & V0 & V1 & Vlo & Vhi).
  destruct (rounded_unit v V0 V1) as (r & R & R0 & R1 & Rz & Ro).
  exists r. repeat split; auto.
Qed.

Lemma shifted_range (lo hi a w s : Q) :
  lo <= a -> a <= hi ->
  Binary64.sub (Fin hi) (Fin lo) = Fin w -> 0 < w ->
  Binary64.div one (Fin w) = Fin s ->
  exists r, Binary64.shifted (Fin lo) (Binary64.div one (Fin w)) zero (Fin a)
            = Fin r /\
            0 <= r /\ r <= 1 /\ (a == lo -> r == 0) /\ (a == hi -> r == 1).
Proof.
  intros H1 H2 W Hw S. unfold Binary64.shifted. rewrite S.
  destruct (scaled_value lo hi a w s H1 H2 W Hw S)
    as (v & -> & V0 & V1 & Vlo & Vhi).
  destruct (plus_zero v V0 V1) as (v' & -> & V0' & V1' & Vz & Vb).
  destruct (rounded_unit v' V0' V1') as (r & R & R0 & R1 & Rz & Ro).
  exists r. repeat split; auto.
Qed.

(** What the normaliser does to a coordinate of an axis of no extent:
    it goes to the middle. *)
Lemma centred_value (lo hi a w : Q) :
  lo <= a -> a <= hi ->
  Binary64.sub (Fin hi) (Fin lo) = Fin w -> w == 0 ->
  exists r, Binary64.shifted (Fin lo) one (Fin (1 # 2)) (Fin a) = Fin r /\
            r == 1 # 2.
Proof.
  intros H1 H2 W Hw. unfold Binary64.shifted.
  destruct (offset_value lo hi a w H1 H2 W) as (t & -> & T0 & T1 & _ & _).
  change (Binary64.mul (Fin t) one) with (Binary64.fl (t * 1)).
  destruct (fl_pinned (t * 1) 0 0) as (m & -> & Em); [lra | exact fl_zero |].
  change (Binary64.add (Fin m) (Fin (1 # 2))) with (Binary64.fl (m + (1 # 2))).
  destruct (fl_pinned (m + (1 # 2)) (1 # 2) (1 # 2)) as (c & -> & Ec);
    [lra | exact fl_half |].
  cbn [Binary64.toFixed].
  destruct (fl_pinned (toFixedQ 6 c) (1 # 2) (1 # 2)) as (r & R & Er);
    [apply toFixedQ_half, Ec | exact fl_half |].
  exists r. split; assumption.
Qed.

(** ** An axis of a path *)

(** An axis whose every coordinate is taken into the unit interval,
    the least to 0 and the greatest to 1. *)
Lemma scaled_axis (l : list number) (lo hi : Q) (f : number -> number) :
  forallb isFinite l = true -> extent l lo hi ->
  (forall a, lo <= a -> a <= hi ->
     exists r, f (Fin a) = Fin r /\
               0 <= r /\ r <= 1 /\ (a == lo -> r == 0) /\ (a == hi -> r == 1)) ->
  Forall (between 0 1) (map f l) /\
  Exists (fun v => v =~ zero)%js (map f l) /\
  Exists (fun v => v =~ one)%js (map f l).
Proof.
  intros Hfin E Hval.
  assert (Hb : lo <= hi).
  { destruct (extent_bounds _ _ _ E lo (extent_lo_in _ _ _ E)). assumption. }
  split; [| split].
  - apply Forall_forall. intros v Hv. apply in_map_iff in Hv as (x & <- & Hx).
    destruct (finite_In l x Hfin Hx) as [a ->].
    destruct (extent_bounds _ _ _ E a Hx) as [Ha1 Ha2].
    destruct (Hval a Ha1 Ha2) as (r & -> & R0 & R1 & _). simpl. split; assumption.
  - apply Exists_exists. exists (f (Fin lo)). split.
    + apply in_map, (extent_lo_in _ _ _ E).
    + destruct (Hval lo) as (r & -> & _ & _ & Rz & _); [lra | exact Hb |].
      simpl. apply Rz. reflexivity.
  - apply Exists_exists. exists (f (Fin hi)). split.
    + apply in_map, (extent_hi_in _ _ _ E).
    + destruct (Hval hi) as (r & -> & _ & _ & _ & Ro); [exact Hb | lra |].
      simpl. apply Ro. reflexivity.
Qed.

Lemma centred_axis (l : list number) (lo hi : Q) (f : number -> number) :
  forallb isFinite l = true -> extent l lo hi ->
  (forall a, lo <= a -> a <= hi -> exists r, f (Fin a) = Fin r /\ r == 1 # 2) ->
  Forall (fun v => v =~ Fin (1 # 2))%js (map f l).
Proof.
  intros Hfin E Hval. apply Forall_forall. intros v Hv.
  apply in_map_iff in Hv as (x & <- & Hx).
  destruct (finite_In l x Hfin Hx) as [a ->].
  destruct (extent_bounds _ _ _ E a Hx) as [Ha1 Ha2].
  destruct (Hval a Ha1 Ha2) as (r & -> & Er). simpl. exact Er.
Qed.

(** The extent of an axis as the normalisers compute it: finite
    coordinates give a number that is not negative, unless it
    overflows. *)
Lemma axis_extent (l : list number) :
  forallb isFinite l = true ->
  isFinite (Binary64.sub (Math_max_of l) (Math_min_of l)) = true ->
  exists lo hi w,
    extent l lo hi /\
    Math_min_of l = Fin lo /\ Math_max_of l = Fin hi /\
    Binary64.sub (Fin hi) (Fin lo) = Fin w /\ 0 <= w.
Proof.
  intros Hfin Hw. destruct l as [| x l]; [discriminate Hw |].
  destruct (extent_of_finite (x :: l) Hfin) as (lo & hi & E); [congruence |].
  rewrite (extent_min _ _ _ E), (extent_max _ _ _ E) in Hw.
  destruct (isFinite_Fin _ Hw) as [w W].
  exists lo, hi, w.
  split; [exact E |].
  split; [apply (extent_min _ _ _ E) |].
  split; [apply (extent_max _ _ _ E) |].
  split; [exact W |].
  apply (fl_nonneg (hi + - lo)); [| exact W].
  destruct (extent_bounds _ _ _ E lo (extent_lo_in _ _ _ E)). lra.
Qed.

Lemma positive_Fin (x : number) :
  Binary64.positive x = true -> exists w, x = Fin w /\ 0 < w.
Proof.
  destruct x as [| | w |]; try discriminate. cbn. intros H.
  exists w. split; [reflexivity |].
  destruct (Qle_bool w 0) eqn:E; [discriminate |].
  apply Qnot_le_lt. intros C. apply Qle_bool_iff in C. congruence.
Qed.

Lemma strict_eq_zero_Fin (a : Q) : (Fin a === zero)%js = true <-> a == 0.
Proof. simpl. apply Qeq_bool_iff. Qed.

Lemma not_zero_positive (w : Q) :
  0 <= w -> (Fin w === zero)%js = false -> 0 < w.
Proof.
  intros H0 H. destruct (Qlt_le_dec 0 w) as [L | L]; [exact L |].
  assert (E : w == 0) by lra. apply strict_eq_zero_Fin in E. congruence.
Qed.

Lemma positive_not_zero64 (x : number) :
  Binary64.positive x = true -> (x === zero)%js = false.
Proof.
  intros H. destruct (positive_Fin x H) as (w & -> & Hw).
  destruct (Fin w === zero)%js eqn:E; [| reflexivity].
  apply strict_eq_zero_Fin in E. lra.
Qed.

Lemma positive_finite (x : number) :
  Binary64.positive x = true -> isFinite x = true.
Proof. destruct x; try discriminate. reflexivity. Qed.

Lemma zero_finite (x : number) : (x === zero)%js = true -> isFinite x = true.
Proof. destruct x; try discriminate. reflexivity. Qed.

(** The three treatments of an axis, on the list of its coordinates:
    [lo] is [Math.min] of the list and the extent is computed from
    [Math.max] and [Math.min]. *)
Lemma unit_list (l : list number) :
  forallb isFinite l = true ->
  let extent := Binary64.sub (Math_max_of l) (Math_min_of l) in
  Binary64.positive extent = true ->
  isFinite (Binary64.div one extent) = true ->
  let out := map (Binary64.toUnit (Math_min_of l) extent) l in
  Forall (between 0 1) out /\
  Exists (fun v => v =~ zero)%js out /\ Exists (fun v => v =~ one)%js out.
Proof.
  intros Hfin ext Hpos Hrec out.
  destruct (axis_extent l Hfin (positive_finite _ Hpos))
    as (lo & hi & w & E & Emin & Emax & W & _).
  unfold out, ext in *. rewrite Emin, Emax, W in *.
  destruct (positive_Fin _ Hpos) as (w' & [= <-] & Hw).
  destruct (isFinite_Fin _ Hrec) as [s S].
  apply (scaled_axis l lo hi _ Hfin E).
  intros a H1 H2. exact (toUnit_range lo hi a w s H1 H2 W Hw S).
Qed.

Lemma spread_list (l : list number) :
  forallb isFinite l = true ->
  let extent := Binary64.sub (Math_max_of l) (Math_min_of l) in
  Binary64.positive extent = true ->
  isFinite (Binary64.div one extent) = true ->
  let out :=
    map (Binary64.shifted (Math_min_of l) (Binary64.div one extent) zero) l in
  Forall (between 0 1) out /\
  Exists (fun v => v =~ zero)%js out /\ Exists (fun v => v =~ one)%js out.
Proof.
  intros Hfin ext Hpos Hrec out.
  destruct (axis_extent l Hfin (positive_finite _ Hpos))
    as (lo & hi & w & E & Emin & Emax & W & _).
  unfold out, ext in *. rewrite Emin, Emax, W in *.
  destruct (positive_Fin _ Hpos) as (w' & [= <-] & Hw).
  destruct (isFinite_Fin _ Hrec) as [s S].
  apply (scaled_axis l lo hi _ Hfin E).
  intros a H1 H2. exact (shifted_range lo hi a w s H1 H2 W Hw S).
Qed.

Lemma centred_list (l : list number) :
  forallb isFinite l = true ->
  (Binary64.sub (Math_max_of l) (Math_min_of l) === zero)%js = true ->
  Forall (fun v => v =~ Fin (1 # 2))%js
         (map (Binary64.shifted (Math_min_of l) one (Fin (1 # 2))) l).
Proof.
  intros Hfin Hz.
  destruct (axis_extent l Hfin (zero_finite _ Hz))
    as (lo & hi & w & E & Emin & Emax & W & _).
  rewrite Emin, Emax, W in *. apply strict_eq_zero_Fin in Hz.
  apply (centred_axis l lo hi _ Hfin E).
  intros a H1 H2. exact (centred_value lo hi a w H1 H2 W Hz).
Qed.

Lemma half_between (l : list number) :
  Forall (fun v => v =~ Fin (1 # 2))%js l -> Forall (between 0 1) l.
Proof.
  apply Forall_impl. intros [| | a |]; simpl; try tauto. intros E. lra.
Qed.

(** ** [normalizePathTo01] *)

Section Binary64Normalizer.

Variable decompose : string -> option (list segment).
Variable toString : list segment -> string.

Ltac enter64 Hs Hp :=
  unfold Binary64.normalizePathTo01; rewrite (not_blank _ Hs), Hp;
  match goal with
  | |- context [(List.length ?p =? 0)%nat] =>
      destruct p; [try discriminate; try congruence |]
  end;
  cbn [List.length Nat.eqb]; cbv zeta.

Lemma empty_box_extent :
  isFinite (Binary64.width (calculateBounds [])) = false.
Proof. reflexivity. Qed.

Lemma binary64_point (s : string) (p : list segment) :
  trim s <> EmptyString -> decompose s = Some p ->
  (Binary64.width (calculateBounds p) === zero)%js = true ->
  (Binary64.height (calculateBounds p) === zero)%js = true ->
  Binary64.normalizePathTo01 decompose toString s = "M0.5,0.5"%string.
Proof.
  intros Hs Hp Hw Hh. enter64 Hs Hp.
  fold (Binary64.width (calculateBounds (s0 :: p))).
  fold (Binary64.height (calculateBounds (s0 :: p))).
  rewrite Hw, Hh. reflexivity.
Qed.

Lemma binary64_vertical (s : string) (p : list segment) :
  trim s <> EmptyString -> decompose s = Some p ->
  (Binary64.width (calculateBounds p) === zero)%js = true ->
  (Binary64.height (calculateBounds p) === zero)%js = false ->
  let b := calculateBounds p in
  Binary64.normalizePathTo01 decompose toString s
  = toString (Binary64.round 6 (Binary64.translate (Fin (1 # 2)) zero
               (Binary64.scale one (Binary64.div one (Binary64.height b))
                  (Binary64.translate (- minX b)%js (- minY b)%js p)))).
Proof.
  intros Hs Hp Hw Hh. enter64 Hs Hp.
  fold (Binary64.width (calculateBounds (s0 :: p))).
  fold (Binary64.height (calculateBounds (s0 :: p))).
  rewrite Hw, Hh. reflexivity.
Qed.

Lemma binary64_horizontal (s : string) (p : list segment) :
  trim s <> EmptyString -> decompose s = Some p ->
  (Binary64.width (calculateBounds p) === zero)%js = false ->
  (Binary64.height (calculateBounds p) === zero)%js = true ->
  let b := calculateBounds p in
  Binary64.normalizePathTo01 decompose toString s
  = toString (Binary64.round 6 (Binary64.translate zero (Fin (1 # 2))
               (Binary64.scale (Binary64.div one (Binary64.width b)) one
                  (Binary64.translate (- minX b)%js (- minY b)%js p)))).
Proof.
  intros Hs Hp Hw Hh. enter64 Hs Hp.
  fold (Binary64.width (calculateBounds (s0 :: p))).
  fold (Binary64.height (calculateBounds (s0 :: p))).
  rewrite Hw, Hh. reflexivity.
Qed.

Lemma binary64_normal (s : string) (p : list segment) :
  trim s <> EmptyString -> decompose s = Some p -> p <> [] ->
  (Binary64.width (calculateBounds p) === zero)%js = false ->
  (Binary64.height (calculateBounds p) === zero)%js = false ->
  let b := calculateBounds p in
  Binary64.normalizePathTo01 decompose toString s
  = toString (Binary64.round 6
                (Binary64.scale (Binary64.div one (Binary64.width b))
                                (Binary64.div one (Binary64.height b))
                   (Binary64.translate (- minX b)%js (- minY b)%js p))).
Proof.
  intros Hs Hp Hne Hw Hh. enter64 Hs Hp.
  fold (Binary64.width (calculateBounds (s0 :: p))).
  fold (Binary64.height (calculateBounds (s0 :: p))).
  rewrite Hw, Hh. reflexivity.
Qed.

Lemma finite_extent_not_empty (p : list segment) :
  isFinite (Binary64.width (calculateBounds p)) = true -> p <> [].
Proof. intros H ->. discriminate H. Qed.

Lemma kinds_transformed64 (d : nat) (tx ty sx sy ux uy : number)
      (p : list segment) :
  map kind_of (Binary64.round d (Binary64.translate ux uy
                 (Binary64.scale sx sy (Binary64.translate tx ty p))))
  = map kind_of p.
Proof.
  unfold Binary64.round, Binary64.translate, Binary64.scale.
  now rewrite !kinds_map_xy.
Qed.

(** The coordinates of the three branches. *)
Lemma normal_coordinates (p : list segment) :
  let b := calculateBounds p in
  let out := Binary64.round 6
               (Binary64.scale (Binary64.div one (Binary64.width b))
                               (Binary64.div one (Binary64.height b))
                  (Binary64.translate (- minX b)%js (- minY b)%js p)) in
  map kind_of out = map kind_of p /\
  xs out = map (Binary64.toUnit (minX b) (Binary64.width b)) (xs p) /\
  ys out = map (Binary64.toUnit (minY b) (Binary64.height b)) (ys p).
Proof.
  cbv zeta. unfold Binary64.round, Binary64.scale, Binary64.translate.
  rewrite !kinds_map_xy, !xs_map_xy, !ys_map_xy, !map_map.
  repeat split.
Qed.

Lemma vertical_coordinates (p : list segment) :
  let b := calculateBounds p in
  let out := Binary64.round 6 (Binary64.translate (Fin (1 # 2)) zero
               (Binary64.scale one (Binary64.div one (Binary64.height b))
                  (Binary64.translate (- minX b)%js (- minY b)%js p))) in
  map kind_of out = map kind_of p /\
  xs out = map (Binary64.shifted (minX b) one (Fin (1 # 2))) (xs p) /\
  ys out = map (Binary64.shifted (minY b)
                  (Binary64.div one (Binary64.height b)) zero) (ys p).
Proof.
  cbv zeta. unfold Binary64.round, Binary64.scale, Binary64.translate.
  rewrite !kinds_map_xy, !xs_map_xy, !ys_map_xy, !map_map.
  repeat split.
Qed.

Lemma horizontal_coordinates (p : list segment) :
  let b := calculateBounds p in
  let out := Binary64.round 6 (Binary64.translate zero (Fin (1 # 2))
               (Binary64.scale (Binary64.div one (Binary64.width b)) one
                  (Binary64.translate (- minX b)%js (- minY b)%js p))) in
  map kind_of out = map kind_of p /\
  xs out = map (Binary64.shifted (minX b)
                  (Binary64.div one (Binary64.width b)) zero) (xs p) /\
  ys out = map (Binary64.shifted (minY b) one (Fin (1 # 2))) (ys p).
Proof.
  cbv zeta. unfold Binary64.round, Binary64.scale, Binary64.translate.
  rewrite !kinds_map_xy, !xs_map_xy, !ys_map_xy, !map_map.
  repeat split.
Qed.

(** C1, as amended.  With the arithmetic of doubles: when the
    coordinates are finite, the box of the decomposed path has a
    finite width and a finite height above zero, and their reciprocals
    are finite, [normalizePathTo01] returns the path whose every x
    coordinate is [(x - minX) * (1 / width)] and whose every y
    coordinate is [(y - minY) * (1 / height)], control points
    included, rounded at six decimal digits.  Every coordinate of that
    path lies between 0 and 1, and on each axis some coordinate is 0
    and some coordinate is 1. *)
Theorem normalizePathTo01_unit_square (s : string) (p : list segment) :
  trim s <> EmptyString ->
  decompose s = Some p ->
  forallb isFinite (xs p) = true ->
  forallb isFinite (ys p) = true ->
  let b := calculateBounds p in
  Binary64.positive (Binary64.width b) = true ->
  Binary64.positive (Binary64.height b) = true ->
  isFinite (Binary64.div one (Binary64.width b)) = true ->
  isFinite (Binary64.div one (Binary64.height b)) = true ->
  exists out,
    Binary64.normalizePathTo01 decompose toString s = toString out /\
    map kind_of out = map kind_of p /\
    xs out = map (Binary64.toUnit (minX b) (Binary64.width b)) (xs p) /\
    ys out = map (Binary64.toUnit (minY b) (Binary64.height b)) (ys p) /\
    Forall (between 0 1) (xs out) /\
    Forall (between 0 1) (ys out) /\
    Exists (fun v => v =~ zero)%js (xs out) /\
    Exists (fun v => v =~ one)%js (xs out) /\
    Exists (fun v => v =~ zero)%js (ys out) /\
    Exists (fun v => v =~ one)%js (ys out).
Proof.
  intros Hs Hp Hfx Hfy b Hw Hh Rw Rh.
  pose proof (finite_extent_not_empty p (positive_finite _ Hw)) as Hne.
  rewrite (binary64_normal s p Hs Hp Hne
             (positive_not_zero64 _ Hw) (positive_not_zero64 _ Hh)).
  fold b. eexists. split; [reflexivity |].
  destruct (normal_coordinates p) as (K & X & Y). fold b in K, X, Y.
  split; [exact K |]. split; [exact X |]. split; [exact Y |].
  rewrite X, Y.
  destruct (calculateBounds_extent p) as (E1 & E2 & E3 & E4).
  fold b in E1, E2, E3, E4.
  unfold Binary64.width, Binary64.height in *.
  rewrite E1, E2, E3, E4 in *.
  destruct (unit_list (xs p) Hfx Hw Rw) as (X1 & X2 & X3).
  destruct (unit_list (ys p) Hfy Hh Rh) as (Y1 & Y2 & Y3).
  repeat split; assumption.
Qed.

(** C3, as amended.  With the arithmetic of doubles: when the
    coordinates are finite, the box of the decomposed path has width 0
    and a finite height above zero whose reciprocal is finite,
    [normalizePathTo01] translates by [(-minX, -minY)], scales x by 1
    and y by [1 / height], translates x by 0.5 and rounds: every x
    coordinate of the result is 0.5 and its y coordinates lie between
    0 and 1 and reach both.  The vertical line [M5,0 L5,100] becomes a
    line from [(0.5, 0)] to [(0.5, 1)]. *)
Theorem normalizePathTo01_zero_width :
  (forall (s : string) (p : list segment),
      trim s <> EmptyString ->
      decompose s = Some p ->
      forallb isFinite (xs p) = true ->
      forallb isFinite (ys p) = true ->
      let b := calculateBounds p in
      (Binary64.width b === zero)%js = true ->
      Binary64.positive (Binary64.height b) = true ->
      isFinite (Binary64.div one (Binary64.height b)) = true ->
      exists out,
        Binary64.normalizePathTo01 decompose toString s = toString out /\
        out = Binary64.round 6 (Binary64.translate (Fin (1 # 2)) zero
                (Binary64.scale one (Binary64.div one (Binary64.height b))
                   (Binary64.translate (- minX b)%js (- minY b)%js p))) /\
        xs out = map (Binary64.shifted (minX b) one (Fin (1 # 2))) (xs p) /\
        ys out = map (Binary64.shifted (minY b)
                        (Binary64.div one (Binary64.height b)) zero) (ys p) /\
        Forall (fun v => v =~ Fin (1 # 2))%js (xs out) /\
        Forall (between 0 1) (ys out) /\
        Exists (fun v => v =~ zero)%js (ys out) /\
        Exists (fun v => v =~ one)%js (ys out))
  /\
  (decompose "M5,0 L5,100"%string
   = Some [Cmd.M (Fin 5) (Fin 0); Cmd.L (Fin 5) (Fin 100)] ->
   exists x0 y0 x1 y1,
     Binary64.normalizePathTo01 decompose toString "M5,0 L5,100"%string
     = toString [Cmd.M (Fin x0) (Fin y0); Cmd.L (Fin x1) (Fin y1)] /\
     x0 == 1 # 2 /\ x1 == 1 # 2 /\ y0 == 0 /\ y1 == 1).
Proof.
  split.
  - intros s p Hs Hp Hfx Hfy b Hw Hh Rh.
    rewrite (binary64_vertical s p Hs Hp Hw (positive_not_zero64 _ Hh)).
    fold b. eexists. split; [reflexivity |]. split; [reflexivity |].
    destruct (vertical_coordinates p) as (_ & X & Y). fold b in X, Y.
    split; [exact X |]. split; [exact Y |].
    rewrite X, Y.
    destruct (calculateBounds_extent p) as (E1 & E2 & E3 & E4).
    fold b in E1, E2, E3, E4.
    unfold Binary64.width, Binary64.height in *.
    rewrite E1, E2, E3, E4 in *.
    split; [exact (centred_list (xs p) Hfx Hw) |].
    exact (spread_list (ys p) Hfy Hh Rh).
  - intros Hp.
    assert (Hs : trim "M5,0 L5,100" <> EmptyString)
      by (vm_compute; discriminate).
    rewrite (binary64_vertical _ _ Hs Hp eq_refl eq_refl).
    do 4 eexists. split; [vm_compute; reflexivity |].
    repeat split; reflexivity.
Qed.

(** X5. With the arithmetic of doubles: when the coordinates are
    finite, the box of the decomposed path has height 0 and a finite
    width above zero whose reciprocal is finite (a horizontal line),
    the normaliser translates by [(-minX, -minY)], scales x by
    [1 / width] and y by 1, translates y by 0.5 and rounds: the x
    coordinates of the result lie between 0 and 1 and reach both, and
    every y coordinate is 0.5. *)
Theorem normalizePathTo01_zero_height (s : string) (p : list segment) :
  trim s <> EmptyString ->
  decompose s = Some p ->
  forallb isFinite (xs p) = true ->
  forallb isFinite (ys p) = true ->
  let b := calculateBounds p in
  Binary64.positive (Binary64.width b) = true ->
  isFinite (Binary64.div one (Binary64.width b)) = true ->
  (Binary64.height b === zero)%js = true ->
  exists out,
    Binary64.normalizePathTo01 decompose toString s = toString out /\
    out = Binary64.round 6 (Binary64.translate zero (Fin (1 # 2))
            (Binary64.scale (Binary64.div one (Binary64.width b)) one
               (Binary64.translate (- minX b)%js (- minY b)%js p))) /\
    xs out = map (Binary64.shifted (minX b)
                    (Binary64.div one (Binary64.width b)) zero) (xs p) /\
    ys out = map (Binary64.shifted (minY b) one (Fin (1 # 2))) (ys p) /\
    Forall (between 0 1) (xs out) /\
    Exists (fun v => v =~ zero)%js (xs out) /\
    Exists (fun v => v =~ one)%js (xs out) /\
    Forall (fun v => v =~ Fin (1 # 2))%js (ys out).
Proof.
  intros Hs Hp Hfx Hfy b Hw Rw Hh.
  rewrite (binary64_horizontal s p Hs Hp (positive_not_zero64 _ Hw) Hh).
  fold b. eexists. split; [reflexivity |]. split; [reflexivity |].
  destruct (horizontal_coordinates p) as (_ & X & Y). fold b in X, Y.
  split; [exact X |]. split; [exact Y |].
  rewrite X, Y.
  destruct (calculateBounds_extent p) as (E1 & E2 & E3 & E4).
  fold b in E1, E2, E3, E4.
  unfold Binary64.width, Binary64.height in *.
  rewrite E1, E2, E3, E4 in *.
  destruct (spread_list (xs p) Hfx Hw Rw) as (X1 & X2 & X3).
  repeat split; try assumption.
  exact (centred_list (ys p) Hfy Hh).
Qed.

(** An extent that is finite, not zero and scalable. *)
Lemma scalable_positive (l : list number) :
  forallb isFinite l = true ->
  let extent := Binary64.sub (Math_max_of l) (Math_min_of l) in
  isFinite extent = true -> Binary64.scalable extent = true ->
  (extent === zero)%js = false ->
  Binary64.positive extent = true /\
  isFinite (Binary64.div one extent) = true.
Proof.
  intros Hfin ext Hf Hs Hz.
  destruct (axis_extent l Hfin Hf) as (lo & hi & w & _ & Emin & Emax & W & W0).
  unfold ext in *. rewrite Emin, Emax, W in *.
  unfold Binary64.scalable in Hs. rewrite Hz in Hs. cbn [orb] in Hs.
  split; [| exact Hs].
  pose proof (not_zero_positive w W0 Hz) as Hw. cbn.
  destruct (Qle_bool w 0) eqn:E; [| reflexivity].
  apply Qle_bool_iff in E. lra.
Qed.

(** X6. With the arithmetic of doubles: whatever the shape of its box,
    a path with finite coordinates whose box has a finite width and a
    finite height, each of them zero or with a finite reciprocal, is
    normalised into the unit square: the normaliser returns either
    the text [M0.5,0.5] or the printed form of a path of the same
    segment kinds whose every coordinate lies between 0 and 1. *)
Theorem normalizePathTo01_in_unit_square (s : string) (p : list segment) :
  trim s <> EmptyString ->
  decompose s = Some p ->
  finitePath p = true ->
  let b := calculateBounds p in
  isFinite (Binary64.width b) = true ->
  isFinite (Binary64.height b) = true ->
  Binary64.scalable (Binary64.width b) = true ->
  Binary64.scalable (Binary64.height b) = true ->
  Binary64.normalizePathTo01 decompose toString s = "M0.5,0.5"%string \/
  exists out,
    Binary64.normalizePathTo01 decompose toString s = toString out /\
    map kind_of out = map kind_of p /\
    Forall (between 0 1) (xs out) /\ Forall (between 0 1) (ys out).
Proof.
  intros Hs Hp Hfin b Fw Fh Sw Sh.
  apply andb_prop in Hfin as [Hfx Hfy].
  pose proof (finite_extent_not_empty p Fw) as Hne.
  destruct (calculateBounds_extent p) as (E1 & E2 & E3 & E4).
  fold b in E1, E2, E3, E4.
  destruct (Binary64.width b === zero)%js eqn:Hw;
    destruct (Binary64.height b === zero)%js eqn:Hh.
  - left. exact (binary64_point s p Hs Hp Hw Hh).
  - right. rewrite (binary64_vertical s p Hs Hp Hw Hh). fold b.
    eexists. split; [reflexivity |].
    destruct (vertical_coordinates p) as (K & X & Y). fold b in K, X, Y.
    split; [exact K |]. rewrite X, Y.
    unfold Binary64.width, Binary64.height in *.
    rewrite E1, E2, E3, E4 in *.
    destruct (scalable_positive (ys p) Hfy Fh Sh Hh) as [Ph Rh].
    split; [apply half_between, (centred_list (xs p) Hfx Hw) |].
    apply (spread_list (ys p) Hfy Ph Rh).
  - right. rewrite (binary64_horizontal s p Hs Hp Hw Hh). fold b.
    eexists. split; [reflexivity |].
    destruct (horizontal_coordinates p) as (K & X & Y). fold b in K, X, Y.
    split; [exact K |]. rewrite X, Y.
    unfold Binary64.width, Binary64.height in *.
    rewrite E1, E2, E3, E4 in *.
    destruct (scalable_positive (xs p) Hfx Fw Sw Hw) as [Pw Rw].
    split; [apply (spread_list (xs p) Hfx Pw Rw) |].
    apply half_between, (centred_list (ys p) Hfy Hh).
  - right. rewrite (binary64_normal s p Hs Hp Hne Hw Hh). fold b.
    eexists. split; [reflexivity |].
    destruct (normal_coordinates p) as (K & X & Y). fold b in K, X, Y.
    split; [exact K |]. rewrite X, Y.
    unfold Binary64.width, Binary64.height in *.
    rewrite E1, E2, E3, E4 in *.
    destruct (scalable_positive (xs p) Hfx Fw Sw Hw) as [Pw Rw].
    destruct (scalable_positive (ys p) Hfy Fh Sh Hh) as [Ph Rh].
    split; [apply (unit_list (xs p) Hfx Pw Rw) |].
    apply (unit_list (ys p) Hfy Ph Rh).
Qed.

End Binary64Normalizer.

(** * The normaliser of [App.vue] with binary64 arithmetic *)

(** ** The numbers found by [normalizePathCoordinates] *)

Lemma match_minus {A : Type} (s : string) (a : string -> A) (b : A) :
  match s with String "-" rest => a rest | _ => b end
  = match s with
    | String c rest => if (c =? "-")%char then a rest else b
    | EmptyString => b
    end.
Proof.
  destruct s as [| c r]; [reflexivity |].
  destruct c as [[] [] [] [] [] [] [] []]; reflexivity.
Qed.

Lemma match_dot {A : Type} (s : string) (a : string -> A) (b : A) :
  match s with String "." rest => a rest | _ => b end
  = match s with
    | String c rest => if (c =? ".")%char then a rest else b
    | EmptyString => b
    end.
Proof.
  destruct s as [| c r]; [reflexivity |].
  destruct c as [[] [] [] [] [] [] [] []]; reflexivity.
Qed.

Lemma takeSign_eq (s : string) :
  takeSign s
  = match s with
    | String c rest =>
        if (c =? "-")%char then (true, rest)
        else if (c =? "+")%char then (false, rest)
        else (false, s)
    | EmptyString => (false, s)
    end.
Proof.
  destruct s as [| c r]; [reflexivity |].
  destruct c as [[] [] [] [] [] [] [] []]; reflexivity.
Qed.

Lemma digit_facts (c : ascii) :
  isDigit c = true ->
  isWhiteSpace c = false /\ (c =? "-")%char = false /\
  (c =? "+")%char = false /\ (c =? "I")%char = false.
Proof.
  destruct c as [[] [] [] [] [] [] [] []]; vm_compute; intros H;
    try discriminate H; repeat split.
Qed.

Lemma takeDigits_app (s : string) :
  (fst (takeDigits s) ++ snd (takeDigits s))%string = s.
Proof.
  induction s as [| c s IH]; [reflexivity |].
  simpl. destruct (isDigit c); [| reflexivity].
  destruct (takeDigits s) as [ds tl]. simpl in *. now rewrite IH.
Qed.

Lemma takeDigits_head (s : string) :
  String.length (fst (takeDigits s)) <> 0%nat ->
  exists c r ds, s = String c r /\ isDigit c = true /\
                 fst (takeDigits s) = String c ds.
Proof.
  destruct s as [| c r]; simpl; [congruence |].
  destruct (isDigit c) eqn:E.
  - destruct (takeDigits r) as [ds tl]. intros _. exists c, r, ds. auto.
  - simpl. congruence.
Qed.

Lemma takeDigits_of_digit (c : ascii) (r : string) :
  isDigit c = true -> String.length (fst (takeDigits (String c r))) <> 0%nat.
Proof.
  intros E. simpl. rewrite E. destruct (takeDigits r). simpl. discriminate.
Qed.

(** A match of the number expression is a prefix of the text it is
    tried on; it starts with a digit, or with a minus sign and a
    digit. *)
Lemma matchNumber_shape (s text : string) :
  matchNumber s = Some text ->
  (exists rest, s = (text ++ rest)%string) /\
  exists c tail, isDigit c = true /\
                 (text = String c tail \/ text = String "-" (String c tail)).
Proof.
  unfold matchNumber.
  rewrite (match_minus s (fun rest => ("-"%string, rest)) (EmptyString, s)).
  assert (Hbody : forall minus s1,
             (minus = EmptyString \/ minus = "-"%string) ->
             (let (int, s2) := takeDigits s1 in
              if (String.length int =? 0)%nat then None
              else
                let (dot, s3) :=
                  match s2 with
                  | String "." rest => ("."%string, rest)
                  | _ => (EmptyString, s2)
                  end in
                let (frac, _) := takeDigits s3 in
                Some (minus ++ int ++ dot ++ frac)%string) = Some text ->
             (exists rest, (minus ++ s1)%string = (text ++ rest)%string) /\
             exists c tail, isDigit c = true /\
                            (text = String c tail \/
                             text = String "-" (String c tail))).
  { intros minus s1 Hminus.
    pose proof (takeDigits_app s1) as Happ.
    pose proof (takeDigits_head s1) as Hhead.
    destruct (takeDigits s1) as [int s2]. cbn [fst snd] in *.
    destruct (String.length int =? 0)%nat eqn:Elen; [discriminate |].
    apply Nat.eqb_neq in Elen.
    destruct (Hhead Elen) as (c & r & ds & -> & Hc & ->).
    rewrite (match_dot s2 (fun rest => ("."%string, rest)) (EmptyString, s2)).
    assert (Hdot : exists dot s3,
               match s2 with
               | String c0 rest =>
                   if (c0 =? ".")%char then ("."%string, rest)
                   else (EmptyString, s2)
               | EmptyString => (EmptyString, s2)
               end = (dot, s3) /\ s2 = (dot ++ s3)%string).
    { destruct s2 as [| c0 rest]; [exists EmptyString, EmptyString; auto |].
      destruct (Ascii.eqb_spec c0 "."); [subst c0 |]; eauto. }
    destruct Hdot as (dot & s3 & -> & ->).
    pose proof (takeDigits_app s3) as Happ3.
    destruct (takeDigits s3) as [frac s4]. cbn [fst snd] in *.
    intros [= <-]. split.
    - exists s4. rewrite <- Happ, <- Happ3.
      rewrite (append_assoc minus). cbn [append].
      rewrite !append_assoc. reflexivity.
    - exists c, (ds ++ dot ++ frac)%string. split; [exact Hc |].
      destruct Hminus as [-> | ->]; [left | right]; reflexivity. }
  destruct s as [| c0 r0].
  - intros H. destruct (Hbody EmptyString EmptyString (or_introl eq_refl) H)
      as [H1 H2]. auto.
  - destruct (Ascii.eqb_spec c0 "-") as [-> | Hne].
    + intros H.
      exact (Hbody "-"%string r0 (or_intror eq_refl) H).
    + intros H.
      exact (Hbody EmptyString (String c0 r0) (or_introl eq_refl) H).
Qed.

(** The text of a match is a decimal literal: it has an exact value,
    which [Binary64.parseFloat] rounds to a double. *)
Lemma parseFloat_of_match (s text : string) :
  matchNumber s = Some text -> isFinite (parseFloat text) = true.
Proof.
  intros H. destruct (matchNumber_shape s text H) as (_ & c & tail & Hc & Ht).
  destruct (digit_facts c Hc) as (Hws & Hminus & Hplus & HI).
  assert (Hread : forall t, exists q rest,
             readNumber (String c t) = Some (q, rest)).
  { intros t. unfold readNumber. rewrite takeSign_eq, Hminus, Hplus.
    pose proof (takeDigits_of_digit c t Hc) as Hlen.
    destruct (takeDigits (String c t)) as [int s2]. cbn [fst] in Hlen.
    apply Nat.eqb_neq in Hlen.
    destruct (match s2 with String "." rest => takeDigits rest
                          | _ => (EmptyString, s2) end) as [frac s3].
    rewrite Hlen. cbn [andb].
    destruct (takeExponent s3) as [e s4]. eauto. }
  assert (Hneg : forall t, exists q rest,
             readNumber (String "-" (String c t)) = Some (q, rest)).
  { intros t. unfold readNumber. rewrite takeSign_eq. cbn [Ascii.eqb Bool.eqb].
    pose proof (takeDigits_of_digit c t Hc) as Hlen.
    destruct (takeDigits (String c t)) as [int s2]. cbn [fst] in Hlen.
    apply Nat.eqb_neq in Hlen.
    destruct (match s2 with String "." rest => takeDigits rest
                          | _ => (EmptyString, s2) end) as [frac s3].
    rewrite Hlen. cbn [andb].
    destruct (takeExponent s3) as [e s4]. eauto. }
  destruct Ht as [-> | ->]; unfold parseFloat.
  - cbn [trimStart]. rewrite Hws, takeSign_eq, Hminus, Hplus.
    cbn [prefix]. rewrite Ascii.eqb_sym in HI.
    destruct (ascii_dec "I" c) as [E | _];
      [subst c; rewrite Ascii.eqb_refl in HI; discriminate |].
    destruct (Hread tail) as (q & rest & ->). reflexivity.
  - cbn [trimStart]. change (isWhiteSpace "-") with false. cbn iota.
    rewrite takeSign_eq. cbn [Ascii.eqb Bool.eqb].
    cbn [prefix].
    destruct (ascii_dec "I" c) as [E | _];
      [subst c; rewrite Ascii.eqb_refl in HI; discriminate |].
    destruct (Hneg tail) as (q & rest & ->). reflexivity.
Qed.

Lemma fl_not_NaN (q : Q) : Binary64.fl q <> NaN.
Proof.
  unfold Binary64.fl.
  destruct (Qle_bool (Binary64.pow2 1024) (Qabs (Qred (Binary64.nearest q))));
    [destruct (Qle_bool 0 (Qred (Binary64.nearest q))) |]; discriminate.
Qed.

Lemma parseFloat_not_NaN (s text : string) :
  matchNumber s = Some text -> Binary64.parseFloat text <> NaN.
Proof.
  intros H. unfold Binary64.parseFloat.
  destruct (isFinite_Fin _ (parseFloat_of_match s text H)) as [q ->].
  apply fl_not_NaN.
Qed.

Lemma substring_prefix (t r : string) :
  substring 0 (String.length t) (t ++ r) = t.
Proof. induction t as [| c t IH]; simpl; [destruct r; reflexivity | now rewrite IH]. Qed.

Lemma ordered_from (l : list (string * position)) (a b : nat) :
  (b <= a)%nat -> ordered a l -> ordered b l.
Proof.
  destruct l as [| [t pos] l]; simpl; [auto |].
  intros Hle (H1 & H2 & H3). repeat split; try assumption. lia.
Qed.

Lemma matchNumber_length (s text : string) :
  matchNumber s = Some text ->
  (1 <= String.length text <= String.length s)%nat /\
  substring 0 (String.length text) s = text.
Proof.
  intros H. destruct (matchNumber_shape s text H) as ((rest & ->) & c & tail & _ & Ht).
  rewrite length_append, substring_prefix. split; [| reflexivity].
  destruct Ht as [-> | ->]; simpl; lia.
Qed.

(** What the scan keeps true, from any point of the string. *)
Lemma execAll_scan (s : string) :
  forall index skip,
    ordered (index + skip) (execAll s index skip) /\
    Forall (fun m =>
              (index <= start (snd m))%nat /\
              (stop (snd m) <= index + String.length s)%nat /\
              stop (snd m) = (start (snd m) + String.length (fst m))%nat /\
              substring (start (snd m) - index) (String.length (fst m)) s = fst m /\
              Binary64.parseFloat (fst m) <> NaN)
           (execAll s index skip).
Proof.
  induction s as [| c rest IH]; intros index skip; [simpl; auto |].
  assert (Htail : forall k,
             Forall (fun m =>
                       (index <= start (snd m))%nat /\
                       (stop (snd m) <= index + String.length (String c rest))%nat /\
                       stop (snd m) = (start (snd m) + String.length (fst m))%nat /\
                       substring (start (snd m) - index) (String.length (fst m))
                                 (String c rest) = fst m /\
                       Binary64.parseFloat (fst m) <> NaN)
                    (execAll rest (index + 1) k)).
  { intros k. destruct (IH (index + 1)%nat k) as [_ HF].
    revert HF. apply Forall_impl. intros [t pos]. cbn [fst snd].
    intros (H1 & H2 & H3 & H4 & H5).
    repeat split; try assumption; try (simpl; lia).
    replace (start pos - index)%nat with (Datatypes.S (start pos - (index + 1)))
      by lia.
    exact H4. }
  cbn [execAll]. destruct skip as [| k].
  - destruct (matchNumber (String c rest)) as [text |] eqn:Em.
    + destruct (matchNumber_length _ _ Em) as [[Hl1 Hl2] Hsub].
      split.
      * cbn [ordered start stop]. repeat split; try lia.
        destruct (IH (index + 1)%nat (String.length text - 1)%nat) as [HO _].
        replace (index + 1 + (String.length text - 1))%nat
          with (index + String.length text)%nat in HO by lia.
        exact HO.
      * constructor; [| apply Htail]. cbn [fst snd start stop].
        repeat split; try lia.
        -- rewrite Nat.sub_diag. exact Hsub.
        -- exact (parseFloat_not_NaN _ _ Em).
    + split; [| apply Htail].
      destruct (IH (index + 1)%nat 0%nat) as [HO _].
      apply (ordered_from _ (index + 1 + 0)%nat); [lia | exact HO].
  - split; [| apply Htail].
    destruct (IH (index + 1)%nat k) as [HO _].
    replace (index + Datatypes.S k)%nat with (index + 1 + k)%nat by lia.
    exact HO.
Qed.

(** X8. The numbers of a string are found from left to right without
    overlap: each match is a non-empty piece of the string, the very
    characters between its start and its end, the next match starts at
    or after that end, and every match reads as a number ([parseFloat]
    never answers [NaN] on a match; a literal out of the range of the
    doubles reads as an infinity). *)
Theorem execAll_matches (s : string) :
  ordered 0 (execAll s 0 0) /\
  Forall (fun m =>
            (stop (snd m) <= String.length s)%nat /\
            substring (start (snd m)) (stop (snd m) - start (snd m)) s = fst m /\
            Binary64.parseFloat (fst m) <> NaN)
         (execAll s 0 0).
Proof.
  destruct (execAll_scan s 0 0) as [HO HF]. split; [exact HO |].
  revert HF. apply Forall_impl. intros [t pos]. cbn [fst snd].
  intros (_ & H2 & H3 & H4 & H5).
  rewrite Nat.sub_0_r in H4.
  repeat split; try assumption.
  replace (stop pos - start pos)%nat with (String.length t) by lia. exact H4.
Qed.





(** ** The values written by [normalizePathCoordinates] *)

Section Binary64Legacy.

Variable numberToString : number -> string.

Lemma normalizePathCoordinates_no_number (s : string) :
  Binary64.extractNumbers s = [] ->
  Binary64.normalizePathCoordinates numberToString s = s.
Proof.
  unfold Binary64.normalizePathCoordinates, Binary64.extractNumbers.
  intros ->. reflexivity.
Qed.

Lemma normalizePathCoordinates_degenerate (s : string) :
  let b := boxOfNumbers (Binary64.extractNumbers s) in
  (Binary64.width b === zero)%js || (Binary64.height b === zero)%js = true ->
  Binary64.normalizePathCoordinates numberToString s = s.
Proof.
  cbv zeta. unfold Binary64.normalizePathCoordinates, Binary64.extractNumbers,
    boxOfNumbers, Binary64.width, Binary64.height.
  cbn [minX maxX minY maxY]. intros H.
  destruct (List.length _ =? 0)%nat; [reflexivity |].
  rewrite H. reflexivity.
Qed.


(** The difference of a finite number and itself is zero. *)
Lemma sub_self (a : Q) : (Binary64.sub (Fin a) (Fin a) === zero)%js = true.
Proof.
  change (Binary64.sub (Fin a) (Fin a)) with (Binary64.fl (a + - a)).
  destruct (fl_pinned (a + - a) 0 0) as (r & -> & Er);
    [ring | exact fl_zero |].
  apply strict_eq_zero_Fin, Er.
Qed.

(** X9. A text with fewer than four numbers, all of them in the range
    of the doubles, is returned as it is: with one coordinate pair at
    most on an axis the box has no width or no height, and nothing is
    rewritten. *)
Theorem normalizePathCoordinates_few_numbers (s : string) :
  forallb isFinite (Binary64.extractNumbers s) = true ->
  (List.length (Binary64.extractNumbers s) < 4)%nat ->
  Binary64.normalizePathCoordinates numberToString s = s.
Proof.
  intros Hfin Hlen.
  destruct (Binary64.extractNumbers s) as [| x [| y [| z [| t l]]]] eqn:E;
    [apply normalizePathCoordinates_no_number; exact E | | |
    | simpl in Hlen; lia];
    apply normalizePathCoordinates_degenerate; rewrite E; cbv zeta;
    unfold boxOfNumbers, Binary64.width, Binary64.height;
    cbn [minX maxX minY maxY]; simpl in Hfin.
  - destruct x; try discriminate.
    apply orb_true_iff. left. exact (sub_self q).
  - destruct x; try discriminate.
    apply orb_true_iff. left. exact (sub_self q).
  - destruct x, y, z; try discriminate.
    apply orb_true_iff. right. exact (sub_self q0).
Qed.



End Binary64Legacy.
(** * The theorems of the binary64 embedding at concrete paths *)

Lemma normalizePathTo01_unit_square_witness :
  trim "M10,10 L110,10 L110,60 L10,60 Z" <> EmptyString /\
  Binary64.readPath "M10,10 L110,10 L110,60 L10,60 Z" = Some rectangle /\
  Binary64.positive (Binary64.width (calculateBounds rectangle)) = true /\
  Binary64.positive (Binary64.height (calculateBounds rectangle)) = true /\
  exists out,
    Binary64.normalizePathTo01 Binary64.readPath printPath
      "M10,10 L110,10 L110,60 L10,60 Z"
    = printPath out /\
    Forall (between 0 1) (xs out) /\ Forall (between 0 1) (ys out) /\
    Exists (fun v => v =~ one)%js (xs out) /\
    Exists (fun v => v =~ one)%js (ys out).
Proof.
  assert (Hs : trim "M10,10 L110,10 L110,60 L10,60 Z" <> EmptyString)
    by (vm_compute; discriminate).
  split; [exact Hs |]. split; [vm_compute; reflexivity |].
  split; [vm_compute; reflexivity |]. split; [vm_compute; reflexivity |].
  destruct (normalizePathTo01_unit_square Binary64.readPath printPath
              "M10,10 L110,10 L110,60 L10,60 Z" rectangle
              Hs ltac:(vm_compute; reflexivity) eq_refl eq_refl
              ltac:(vm_compute; reflexivity) ltac:(vm_compute; reflexivity)
              ltac:(vm_compute; reflexivity) ltac:(vm_compute; reflexivity))
    as (out & E & _ & _ & _ & X & Y & _ & X1 & _ & Y1).
  exists out. repeat split; assumption.
Defined.

Lemma normalizePathTo01_zero_width_witness :
  trim "M5,0 L5,100" <> EmptyString /\
  Binary64.readPath "M5,0 L5,100"
  = Some [Cmd.M (Fin 5) (Fin 0); Cmd.L (Fin 5) (Fin 100)] /\
  (exists out,
      Binary64.normalizePathTo01 Binary64.readPath printPath "M5,0 L5,100"
      = printPath out /\
      Forall (fun v => v =~ Fin (1 # 2))%js (xs out) /\
      Forall (between 0 1) (ys out)) /\
  (exists x0 y0 x1 y1,
      Binary64.normalizePathTo01 Binary64.readPath printPath "M5,0 L5,100"
      = printPath [Cmd.M (Fin x0) (Fin y0); Cmd.L (Fin x1) (Fin y1)] /\
      x0 == 1 # 2 /\ x1 == 1 # 2 /\ y0 == 0 /\ y1 == 1).
Proof.
  assert (Hs : trim "M5,0 L5,100" <> EmptyString) by (vm_compute; discriminate).
  assert (Hp : Binary64.readPath "M5,0 L5,100"
               = Some [Cmd.M (Fin 5) (Fin 0); Cmd.L (Fin 5) (Fin 100)])
    by (vm_compute; reflexivity).
  split; [exact Hs |]. split; [exact Hp |]. split.
  - destruct (proj1 (normalizePathTo01_zero_width Binary64.readPath printPath)
                "M5,0 L5,100" [Cmd.M (Fin 5) (Fin 0); Cmd.L (Fin 5) (Fin 100)]
                Hs Hp eq_refl eq_refl
                ltac:(vm_compute; reflexivity) ltac:(vm_compute; reflexivity)
                ltac:(vm_compute; reflexivity))
      as (out & E & _ & _ & _ & X & Y & _).
    exists out. repeat split; assumption.
  - exact (proj2 (normalizePathTo01_zero_width Binary64.readPath printPath) Hp).
Defined.

Lemma normalizePathTo01_zero_height_witness :
  trim "M0,7 L30,7" <> EmptyString /\
  Binary64.readPath "M0,7 L30,7"
  = Some [Cmd.M (Fin 0) (Fin 7); Cmd.L (Fin 30) (Fin 7)] /\
  exists out,
    Binary64.normalizePathTo01 Binary64.readPath printPath "M0,7 L30,7"
    = printPath out /\
    Forall (between 0 1) (xs out) /\
    Forall (fun v => v =~ Fin (1 # 2))%js (ys out).
Proof.
  assert (Hs : trim "M0,7 L30,7" <> EmptyString) by (vm_compute; discriminate).
  assert (Hp : Binary64.readPath "M0,7 L30,7"
               = Some [Cmd.M (Fin 0) (Fin 7); Cmd.L (Fin 30) (Fin 7)])
    by (vm_compute; reflexivity).
  split; [exact Hs |]. split; [exact Hp |].
  destruct (normalizePathTo01_zero_height Binary64.readPath printPath
              "M0,7 L30,7" [Cmd.M (Fin 0) (Fin 7); Cmd.L (Fin 30) (Fin 7)]
              Hs Hp eq_refl eq_refl
              ltac:(vm_compute; reflexivity) ltac:(vm_compute; reflexivity)
              ltac:(vm_compute; reflexivity))
    as (out & E & _ & _ & _ & X & _ & _ & Y).
  exists out. repeat split; assumption.
Defined.

Lemma normalizePathTo01_in_unit_square_witness :
  trim "M10,10 L110,10 L110,60 L10,60 Z" <> EmptyString /\
  Binary64.readPath "M10,10 L110,10 L110,60 L10,60 Z" = Some rectangle /\
  (Binary64.normalizePathTo01 Binary64.readPath printPath
     "M10,10 L110,10 L110,60 L10,60 Z" = "M0.5,0.5"%string \/
   exists out,
     Binary64.normalizePathTo01 Binary64.readPath printPath
       "M10,10 L110,10 L110,60 L10,60 Z"
     = printPath out /\
     map kind_of out = map kind_of rectangle /\
     Forall (between 0 1) (xs out) /\ Forall (between 0 1) (ys out)).
Proof.
  assert (Hs : trim "M10,10 L110,10 L110,60 L10,60 Z" <> EmptyString)
    by (vm_compute; discriminate).
  assert (Hp : Binary64.readPath "M10,10 L110,10 L110,60 L10,60 Z"
               = Some rectangle) by (vm_compute; reflexivity).
  split; [exact Hs |]. split; [exact Hp |].
  apply (normalizePathTo01_in_unit_square Binary64.readPath printPath
           "M10,10 L110,10 L110,60 L10,60 Z" rectangle Hs Hp eq_refl);
    vm_compute; reflexivity.
Defined.

Lemma normalizePathCoordinates_few_numbers_witness :
  forallb isFinite (Binary64.extractNumbers "M5,0 L7") = true /\
  (List.length (Binary64.extractNumbers "M5,0 L7") < 4)%nat /\
  Binary64.normalizePathCoordinates printNumber "M5,0 L7" = "M5,0 L7"%string.
Proof.
  assert (F : forallb isFinite (Binary64.extractNumbers "M5,0 L7") = true)
    by (vm_compute; reflexivity).
  assert (H : (List.length (Binary64.extractNumbers "M5,0 L7") < 4)%nat)
    by (vm_compute; lia).
  split; [exact F |]. split; [exact H |].
  exact (normalizePathCoordinates_few_numbers printNumber "M5,0 L7" F H).
Defined.


(** * Where the claims fail *)

(** C1, as stated, fails in two ways.  [normalizePathCoordinates]
    reads the numbers of [M0,0 H10 H20 V5] as the pairs [(0,0)],
    [(10,20)] and [(5)], so that the second horizontal line is scaled
    as a y and the vertical line as an x: its own box has width 10 and
    height 20, the box of the path has width 20 and height 5, all
    above zero, yet the greatest y coordinate of the result is 0.5,
    not 1.  And in [normalizePathTo01] a width above zero can be
    [Infinity]: the difference of [1e308] and [-1e308] overflows, its
    reciprocal is 0, and the greatest x is written as [NaN]. *)
Lemma unit_square_is_missed :
  (Binary64.readPath "M0,0 H10 H20 V5"
   = Some [Cmd.M (Fin 0) (Fin 0); Cmd.H (Fin 10); Cmd.H (Fin 20); Cmd.V (Fin 5)]
   /\ Binary64.width (calculateBounds
        [Cmd.M (Fin 0) (Fin 0); Cmd.H (Fin 10); Cmd.H (Fin 20); Cmd.V (Fin 5)])
      = Fin 20
   /\ Binary64.height (calculateBounds
        [Cmd.M (Fin 0) (Fin 0); Cmd.H (Fin 10); Cmd.H (Fin 20); Cmd.V (Fin 5)])
      = Fin 5
   /\ Binary64.width (boxOfNumbers (Binary64.extractNumbers "M0,0 H10 H20 V5"))
      = Fin 10
   /\ Binary64.height (boxOfNumbers (Binary64.extractNumbers "M0,0 H10 H20 V5"))
      = Fin 20
   /\ Binary64.normalizePathCoordinates printNumber "M0,0 H10 H20 V5"
      = "M0.000000,0.000000 H1.000000 H1.000000 V0.500000"%string
   /\ Binary64.readPath "M0.000000,0.000000 H1.000000 H1.000000 V0.500000"
      = Some [Cmd.M (Fin 0) (Fin 0); Cmd.H (Fin 1); Cmd.H (Fin 1);
              Cmd.V (Fin (1 # 2))]
   /\ ~ Exists (fun v => v =~ one)%js
          (ys [Cmd.M (Fin 0) (Fin 0); Cmd.H (Fin 1); Cmd.H (Fin 1);
               Cmd.V (Fin (1 # 2))]))
  /\ (match Binary64.readPath "M-1e308,0 L1e308,1" with
      | Some p => gt0 (Binary64.width (calculateBounds p))
                  && gt0 (Binary64.height (calculateBounds p))
      | None => false
      end = true
      /\ Binary64.normalizePathTo01 Binary64.readPath printPath
           "M-1e308,0 L1e308,1"
         = "M0,0 LNaN,1"%string).
Proof.
  split; [| split; vm_compute; reflexivity].
  repeat split; try (vm_compute; reflexivity).
  intros H. apply Exists_exists in H. destruct H as (v & Hv & E).
  simpl in Hv. destruct Hv as [<- | [<- | []]]; simpl in E; lra.
Qed.

(** C2, as stated, fails for [normalizePathCoordinates]: a box of
    width 0 makes it return the text as it is. *)
Lemma single_point_left_as_it_is :
  Binary64.readPath "M5,5" = Some [Cmd.M (Fin 5) (Fin 5)]
  /\ (Binary64.width (calculateBounds [Cmd.M (Fin 5) (Fin 5)]) === zero)%js
     = true
  /\ (Binary64.height (calculateBounds [Cmd.M (Fin 5) (Fin 5)]) === zero)%js
     = true
  /\ Binary64.normalizePathCoordinates printNumber "M5,5" = "M5,5"%string
  /\ Binary64.normalizePathCoordinates printNumber "M5,5" <> "M0.5,0.5"%string.
Proof.
  repeat split; try (vm_compute; reflexivity). vm_compute. discriminate.
Qed.

(** C3, as stated, fails in two ways.  [normalizePathCoordinates]
    returns the vertical line of the scenario as it is, its x
    coordinates still 5 and its y coordinates still 0 and 100.  And in
    [normalizePathTo01] a height above zero can have no finite
    reciprocal: for the height [1e-320] the factor is [Infinity], and
    the y coordinates of the result are [NaN] and [Infinity]. *)
Lemma vertical_line_is_missed :
  (Binary64.readPath "M5,0 L5,100"
   = Some [Cmd.M (Fin 5) (Fin 0); Cmd.L (Fin 5) (Fin 100)]
   /\ Binary64.normalizePathCoordinates printNumber "M5,0 L5,100"
      = "M5,0 L5,100"%string
   /\ ~ Forall (fun v => v =~ Fin (1 # 2))%js
          (xs [Cmd.M (Fin 5) (Fin 0); Cmd.L (Fin 5) (Fin 100)]))
  /\ (match Binary64.readPath "M5,0 L5,1e-320" with
      | Some p => (Binary64.width (calculateBounds p) === zero)%js
                  && gt0 (Binary64.height (calculateBounds p))
      | None => false
      end = true
      /\ Binary64.normalizePathTo01 Binary64.readPath printPath
           "M5,0 L5,1e-320"
         = "M0.5,NaN L0.5,Infinity"%string).
Proof.
  split; [| split; vm_compute; reflexivity].
  repeat split; try (vm_compute; reflexivity).
  intros H. inversion H as [| v l E _]. simpl in E. lra.
Qed.

(** C7 fails: the parser of the library reports what it cannot read
    in a field that [normalizePathTo01] never looks at, and hands over
    the segments read before that point.  Whatever follows a first
    move-to that cannot be read, the one segment left has a box of
    width 0 and height 0 and the text returned is [M0.5,0.5], not the
    original. *)
Lemma error_is_not_seen (decompose : string -> option (list segment))
      (toString : list segment -> string) (s : string) (x y : Q) :
  trim s <> EmptyString ->
  decompose s = Some [Cmd.M (Fin x) (Fin y)] ->
  Binary64.normalizePathTo01 decompose toString s = "M0.5,0.5"%string.
Proof.
  intros Hs Hp. apply (binary64_point decompose toString s _ Hs Hp).
  - apply (sub_self x).
  - apply (sub_self y).
Qed.

(** C7, at two inputs: a line-to with one number and an unknown
    command letter, each after a move-to.  The reader keeps the
    move-to, and the text returned is [M0.5,0.5], not the text
    given. *)
Lemma malformed_path_is_rewritten :
  Binary64.readPath "M0,0 L10" = Some [Cmd.M (Fin 0) (Fin 0)]
  /\ Binary64.normalizePathTo01 Binary64.readPath printPath "M0,0 L10"
     = "M0.5,0.5"%string
  /\ Binary64.readPath "M0,0 X5,5" = Some [Cmd.M (Fin 0) (Fin 0)]
  /\ Binary64.normalizePathTo01 Binary64.readPath printPath "M0,0 X5,5"
     = "M0.5,0.5"%string.
Proof. repeat split; vm_compute; reflexivity. Qed.

(** ** The range of the doubles *)

(** Outside the conditions of the theorems above the normalisers leave
    the unit square.  A width that overflows is an infinity, its
    reciprocal is 0 and the greatest x is not taken to 1; a width
    whose reciprocal overflows gives [NaN]; and the digits written
    depend on the size of the drawing: the same triangle seven times
    larger is written with another sixth digit. *)
Example width_overflows :
  Binary64.normalizePathTo01 Binary64.readPath printPath "M-1e308,0 L1e308,1"
  = "M0,0 LNaN,1"%string.
Proof. vm_compute. reflexivity. Qed.

Example reciprocal_overflows :
  Binary64.normalizePathTo01 Binary64.readPath printPath "M0,0 L1e-320,1"
  = "MNaN,0 LInfinity,1"%string.
Proof. vm_compute. reflexivity. Qed.

(** A literal of 310 digits is read as [Infinity] by
    [normalizePathCoordinates]: the width is [NaN], which is not 0,
    and the number is replaced by [NaN]. *)
Example literal_out_of_range :
  Binary64.normalizePathCoordinates printNumber
    ("M" ++ String.concat "" (repeat "9" 310))%string
  = "MNaN"%string.
Proof. vm_compute. reflexivity. Qed.

Example digits_depend_on_size :
  Binary64.normalizePathTo01 Binary64.readPath printPath "M0,0 L1,1 L640,640"
  = "M0,0 L0.001563,0.001563 L1,1"%string
  /\ Binary64.normalizePathTo01 Binary64.readPath printPath
       "M0,0 L7,7 L4480,4480"
     = "M0,0 L0.001562,0.001562 L1,1"%string.
Proof. split; vm_compute; reflexivity. Qed.

Example rectangle_scenario :
  Binary64.normalizePathTo01 Binary64.readPath printPath
    "M10,10 L110,10 L110,60 L10,60 Z"
  = "M0,0 L1,0 L1,1 L0,1 Z"%string.
Proof. vm_compute. reflexivity. Qed.

Example legacy_rectangle :
  Binary64.normalizePathCoordinates printNumber
    "M10,10 L110,10 L110,60 L10,60 Z"
  = "M0.000000,0.000000 L1.000000,0.000000 L1.000000,1.000000 L0.000000,1.000000 Z"%string.
Proof. vm_compute. reflexivity. Qed.
